(** * The cashu.me wallet store ([src/stores/wallet.ts]) in Rocq

    A shallow embedding of the wallet engine: the keyset counters, the
    32-bit power-of-two split, coin selection, the melt-quote latch, the
    multi-path allocation, send / mint / melt with their rollback paths,
    the proof reconciler and the first LNURL-pay step.

    Conventions.
    - The integers the wallet is handed (amounts, counters) are [Z]; the
      32-bit bitwise operators have their wrap-around written out
      ([toInt32]). The sums, differences and comparisons of amounts the
      wallet computes itself ([reduce], the legacy selector's running
      sum, the target of a send, the amount of a melt and what it paid)
      are those of IEEE-754 binary64, on the double of each integer
      ([F64.ofZ], [F64.addZ], [F64.subZ]).
    - Arrays are lists; [Array.prototype.find] is [List.find].
    - An [async] action is a state transformer that may throw
      ([M A]); the mint and the cashu-ts library are section variables
      whose calls are logged in the state ([requests]).
    - Numbers that are not integers in the source (the multi-mint weights)
      go through the interface [JsNum], which is instantiated with
      IEEE-754 binary64; what a double denotes is a rational
      ([F64.value]).
    - [Math.log2] is left to the host by ECMAScript; what the host
      answers is a field of the environment ([ceilLog2]). *)

From Stdlib Require Import ZArith List String Ascii Bool Lia.
From Stdlib Require Import Permutation Sorted.
From Stdlib Require Import QArith Qround Qpower Lqa.
From Stdlib Require Import Floats.
Import ListNotations.

#[local] Open Scope string_scope.
#[local] Open Scope list_scope.
#[local] Open Scope Z_scope.

Set Implicit Arguments.

(** ** Strings *)

Module Str.

(** [s.includes(needle)] *)
Fixpoint includes (needle s : string) : bool :=
  String.prefix needle s
  || match s with
     | EmptyString => false
     | String _ s' => includes needle s'
     end.

(** [s.startsWith(p)] *)
Definition startsWith (p s : string) : bool := String.prefix p s.

Definition lowerAscii (c : ascii) : ascii :=
  let n := nat_of_ascii c in
  if ((65 <=? n) && (n <=? 90))%nat then ascii_of_nat (n + 32) else c.

(** [s.toLowerCase()] on ASCII text *)
Fixpoint toLowerCase (s : string) : string :=
  match s with
  | EmptyString => EmptyString
  | String c s' => String (lowerAscii c) (toLowerCase s')
  end.

(** [s.slice(0, n)] *)
Fixpoint take (n : nat) (s : string) : string :=
  match n, s with
  | S k, String c s' => String c (take k s')
  | _, _ => EmptyString
  end.

(** The loop of [s.split(sep)] for a non-empty separator: [skip] counts
    the characters of a separator still to be dropped, [cur] is the piece
    being read. *)
Fixpoint splitGo (sep s : string) (skip : nat) (cur : string) : list string :=
  match s with
  | EmptyString => [cur]
  | String c s' =>
      match skip with
      | S k => splitGo sep s' k cur
      | O =>
          if String.prefix sep s
          then cur :: splitGo sep s' (String.length sep - 1) EmptyString
          else splitGo sep s' 0 (String.append cur (String c EmptyString))
      end
  end.

(** [s.split(sep)] *)
Definition split (sep s : string) : list string := splitGo sep s 0 EmptyString.

End Str.

(** ** Integers *)

(** [proofs.reduce((s, t) => (s += t), 0)] on a list of numbers *)
Definition sumZ (l : list Z) : Z := fold_left Z.add l 0.

(** ECMAScript [ToInt32]: reduce modulo 2^32 into [-2^31, 2^31). *)
Definition toInt32 (v : Z) : Z := (v + 2 ^ 31) mod 2 ^ 32 - 2 ^ 31.

(** [a << i] *)
Definition shl32 (a i : Z) : Z := toInt32 (Z.shiftl (toInt32 a) (i mod 32)).

(** [a & b] *)
Definition and32 (a b : Z) : Z := Z.land (toInt32 a) (toInt32 b).

(** ** Keyset counters *)

Record KeysetCounter : Type := mkKeysetCounter {
  kc_id : string;
  kc_counter : Z
}.

(** [this.keysetCounters.find((c) => c.id === id)] *)
Definition findCounter (id : string) (cs : list KeysetCounter) : option KeysetCounter :=
  find (fun c => String.eqb (kc_id c) id) cs.

(** In-place update of the object [find] returned: the first match. *)
Fixpoint bumpFirst (id : string) (by_ : Z) (cs : list KeysetCounter) : list KeysetCounter :=
  match cs with
  | [] => []
  | c :: cs' =>
      if String.eqb (kc_id c) id
      then mkKeysetCounter (kc_id c) (kc_counter c + by_) :: cs'
      else c :: bumpFirst id by_ cs'
  end.

(** [keysetCounter(id)] on the counter array: the value returned and the
    array afterwards. *)
Definition keysetCounterOn (id : string) (cs : list KeysetCounter)
  : Z * list KeysetCounter :=
  match findCounter id cs with
  | Some c => (kc_counter c, cs)
  | None => (1, cs ++ [mkKeysetCounter id 1])
  end.

(** [increaseKeysetCounter(id, by)] on the counter array. *)
Definition increaseKeysetCounterOn (id : string) (by_ : Z)
  (cs : list KeysetCounter) : list KeysetCounter :=
  match findCounter id cs with
  | Some _ => bumpFirst id by_ cs
  | None => cs ++ [mkKeysetCounter id by_]
  end.

(** The counter stored for [id], when there is one. *)
Definition counterOf (id : string) (cs : list KeysetCounter) : option Z :=
  option_map kc_counter (findCounter id cs).

(** ** splitAmount *)

(** One iteration of the loop of [splitAmount]. *)
Definition splitStep (value : Z) (chunks : list Z) (i : Z) : list Z :=
  let mask := shl32 1 i in
  if negb (and32 value mask =? 0) then chunks ++ [2 ^ i] else chunks.

(** [for (let i = 0; i < 32; i++)] *)
Definition loop32 : list Z := map Z.of_nat (seq 0 32).

Definition splitAmount (value : Z) : list Z :=
  fold_left (splitStep value) loop32 [].

(** ** Thrown values and results *)

(** What a [throw] carries: an [Error] object (also a [TypeError], an axios
    error: anything with a [message]) or, as in [throw "could not mint"], a
    bare string, which has no [message]. *)
Inductive Thrown : Type :=
| JsError (message : string)
| JsThrownString (s : string).

Inductive Outcome (A : Type) : Type :=
| Returned (a : A)
| Threw (e : Thrown).
Arguments Returned {A} a.
Arguments Threw {A} e.

(** ** Data model *)

(** A [WalletProof]: a cashu-ts [Proof] with the store's [reserved] and
    [quote] fields ([reserved] is falsy and [quote] undefined on a proof
    fresh from the library). *)
Record WalletProof : Type := mkProof {
  p_amount : Z;
  p_secret : string;
  p_C : string;
  p_id : string;
  p_reserved : bool;
  p_quote : option string
}.

Inductive InvoiceStatus : Type := pending | paid.

Record InvoiceHistory : Type := mkInvoice {
  inv_amount : Z;
  inv_bolt11 : string;
  inv_quote : string;
  inv_memo : string;
  inv_date : string;
  inv_status : InvoiceStatus;
  inv_mint : string;
  inv_unit : option string
}.

Inductive MeltQuoteState : Type := MELT_UNPAID | MELT_PENDING | MELT_PAID.
Inductive MintQuoteState : Type := MINT_UNPAID | MINT_PAID | MINT_ISSUED.
Inductive CheckStateEnum : Type := UNSPENT | PENDING | SPENT.

(** The value of [Math.round]: an integer, or what it returns on a number
    that is not finite. *)
Inductive Rounded : Type :=
| RInt (z : Z)
| RNaN
| RInf (negative : bool).

Record MeltQuotePayload : Type := mkMeltQuotePayload {
  mqp_unit : string;
  mqp_request : string;
  mqp_mpp_amount : option Rounded      (* [options.mpp.amount] *)
}.

Record MeltQuoteResponse : Type := mkMeltQuoteResponse {
  mq_quote : string;
  mq_amount : Z;
  mq_fee_reserve : Z;
  mq_state : MeltQuoteState;
  mq_error : option string             (* the mint's error envelope *)
}.

Record MintQuoteResponse : Type := mkMintQuoteResponse {
  mintq_quote : string;
  mintq_request : string;
  mintq_state : MintQuoteState
}.

Record MeltProofsResponse : Type := mkMeltProofsResponse {
  mp_quote : MeltQuoteResponse;
  mp_change : list WalletProof
}.

Record ProofState : Type := mkProofState {
  ps_Y : string;
  ps_state : CheckStateEnum
}.

Record Keyset : Type := mkKeyset {
  ks_id : string;
  ks_unit : string;
  ks_active : bool
}.

Record Mint : Type := mkMint {
  mint_url : string
}.

Record HistoryToken : Type := mkHistoryToken {
  ht_status : InvoiceStatus;
  ht_amount : Z;
  ht_token : option string;          (* [serializeProofs] may give [null] *)
  ht_mint : string;
  ht_unit : string
}.

(** The LNURL-pay response stored as [payInvoiceData.lnurlpay]. *)
Record LnurlPay : Type := mkLnurlPay {
  ln_domain : string;
  ln_callback : string;
  ln_minSendable : Z;
  ln_maxSendable : Z;
  ln_tag : string
}.

Record CleanInvoice : Type := mkCleanInvoice {
  ci_sat : Z;
  ci_memo : string;
  ci_bolt11 : string
}.

Record PayInput : Type := mkPayInput {
  in_request : string;
  in_amount : option Q;                (* [number | null] *)
  in_comment : string;
  in_quote : string
}.

Record MeltQuoteSlot : Type := mkMeltQuoteSlot {
  mqs_payload : MeltQuotePayload;
  mqs_response : MeltQuoteResponse;
  mqs_error : option Thrown            (* [""] is [None] *)
}.

Record MultiPartSlot : Type := mkMultiPartSlot {
  mps_payloads : list (Mint * MeltQuotePayload);
  mps_responses : list MeltQuoteResponse;
  mps_error : option Thrown
}.

Record PayInvoiceData : Type := mkPayInvoiceData {
  blocking : bool;
  pid_bolt11 : string;
  show : bool;
  meltQuoteSlot : MeltQuoteSlot;
  multiPartMeltQuotes : MultiPartSlot;
  invoice : option CleanInvoice;
  lnurlpay : LnurlPay;
  input : PayInput
}.

(** A request sent over the network: to a mint or to an LNURL host. *)
Inductive Request : Type :=
| ReqCreateMeltQuote (mintUrl request : string)
| ReqCheckMeltQuote (quote : string)
| ReqCheckMintQuote (quote : string)
| ReqSwap
| ReqMint (quote : string)
| ReqMelt (quote : string)
| ReqCheckState
| ReqHttpGet (url : string).

(** The wallet store, the module flag [isUnloading], and the state of the
    collaborating stores the wallet reads and writes: the proofs and the
    active mint of the mints store, the token history, the mutex of the UI
    store. [requests] is the log of the network requests issued so far. *)
Record WalletState : Type := mkWalletState {
  keysetCounters : list KeysetCounter;
  invoiceHistory : list InvoiceHistory;
  payInvoiceData : PayInvoiceData;
  isUnloading : bool;
  proofs : list WalletProof;
  historyTokens : list HistoryToken;
  keysets : list Keyset;
  activeUnit : string;
  activeMintUrl : string;
  mutex : bool;
  requests : list Request
}.

(** *** Field updates *)

Definition set_keysetCounters (f : list KeysetCounter -> list KeysetCounter)
  (st : WalletState) : WalletState :=
  mkWalletState (f (keysetCounters st)) (invoiceHistory st) (payInvoiceData st)
    (isUnloading st) (proofs st) (historyTokens st) (keysets st) (activeUnit st)
    (activeMintUrl st) (mutex st) (requests st).

Definition set_invoiceHistory (f : list InvoiceHistory -> list InvoiceHistory)
  (st : WalletState) : WalletState :=
  mkWalletState (keysetCounters st) (f (invoiceHistory st)) (payInvoiceData st)
    (isUnloading st) (proofs st) (historyTokens st) (keysets st) (activeUnit st)
    (activeMintUrl st) (mutex st) (requests st).

Definition set_payInvoiceData (f : PayInvoiceData -> PayInvoiceData)
  (st : WalletState) : WalletState :=
  mkWalletState (keysetCounters st) (invoiceHistory st) (f (payInvoiceData st))
    (isUnloading st) (proofs st) (historyTokens st) (keysets st) (activeUnit st)
    (activeMintUrl st) (mutex st) (requests st).

Definition set_proofs (f : list WalletProof -> list WalletProof)
  (st : WalletState) : WalletState :=
  mkWalletState (keysetCounters st) (invoiceHistory st) (payInvoiceData st)
    (isUnloading st) (f (proofs st)) (historyTokens st) (keysets st) (activeUnit st)
    (activeMintUrl st) (mutex st) (requests st).

Definition set_historyTokens (f : list HistoryToken -> list HistoryToken)
  (st : WalletState) : WalletState :=
  mkWalletState (keysetCounters st) (invoiceHistory st) (payInvoiceData st)
    (isUnloading st) (proofs st) (f (historyTokens st)) (keysets st) (activeUnit st)
    (activeMintUrl st) (mutex st) (requests st).

Definition set_mutex (b : bool) (st : WalletState) : WalletState :=
  mkWalletState (keysetCounters st) (invoiceHistory st) (payInvoiceData st)
    (isUnloading st) (proofs st) (historyTokens st) (keysets st) (activeUnit st)
    (activeMintUrl st) b (requests st).

Definition log_request (r : Request) (st : WalletState) : WalletState :=
  mkWalletState (keysetCounters st) (invoiceHistory st) (payInvoiceData st)
    (isUnloading st) (proofs st) (historyTokens st) (keysets st) (activeUnit st)
    (activeMintUrl st) (mutex st) (requests st ++ [r]).

Definition set_blocking (b : bool) (d : PayInvoiceData) : PayInvoiceData :=
  mkPayInvoiceData b (pid_bolt11 d) (show d) (meltQuoteSlot d)
    (multiPartMeltQuotes d) (invoice d) (lnurlpay d) (input d).

Definition set_show (b : bool) (d : PayInvoiceData) : PayInvoiceData :=
  mkPayInvoiceData (blocking d) (pid_bolt11 d) b (meltQuoteSlot d)
    (multiPartMeltQuotes d) (invoice d) (lnurlpay d) (input d).

Definition set_meltQuoteSlot (f : MeltQuoteSlot -> MeltQuoteSlot)
  (d : PayInvoiceData) : PayInvoiceData :=
  mkPayInvoiceData (blocking d) (pid_bolt11 d) (show d) (f (meltQuoteSlot d))
    (multiPartMeltQuotes d) (invoice d) (lnurlpay d) (input d).

Definition set_multiPart (f : MultiPartSlot -> MultiPartSlot)
  (d : PayInvoiceData) : PayInvoiceData :=
  mkPayInvoiceData (blocking d) (pid_bolt11 d) (show d) (meltQuoteSlot d)
    (f (multiPartMeltQuotes d)) (invoice d) (lnurlpay d) (input d).

Definition set_invoice (i : option CleanInvoice) (d : PayInvoiceData) : PayInvoiceData :=
  mkPayInvoiceData (blocking d) (pid_bolt11 d) (show d) (meltQuoteSlot d)
    (multiPartMeltQuotes d) i (lnurlpay d) (input d).

Definition set_lnurlpay (f : LnurlPay -> LnurlPay) (d : PayInvoiceData) : PayInvoiceData :=
  mkPayInvoiceData (blocking d) (pid_bolt11 d) (show d) (meltQuoteSlot d)
    (multiPartMeltQuotes d) (invoice d) (f (lnurlpay d)) (input d).

Definition set_input (f : PayInput -> PayInput) (d : PayInvoiceData) : PayInvoiceData :=
  mkPayInvoiceData (blocking d) (pid_bolt11 d) (show d) (meltQuoteSlot d)
    (multiPartMeltQuotes d) (invoice d) (lnurlpay d) (f (input d)).

(** ** Actions: state and exceptions *)

Definition M (A : Type) : Type := WalletState -> Outcome A * WalletState.

Definition ret {A} (a : A) : M A := fun st => (Returned a, st).

Definition bind {A B} (c : M A) (k : A -> M B) : M B :=
  fun st =>
    match c st with
    | (Returned a, st') => k a st'
    | (Threw e, st') => (Threw e, st')
    end.

Definition throw {A} (e : Thrown) : M A := fun st => (Threw e, st).

Definition get : M WalletState := fun st => (Returned st, st).

Definition modify (f : WalletState -> WalletState) : M unit :=
  fun st => (Returned tt, f st).

(** [try { body } catch (error) { handler(error) }] *)
Definition tryCatch {A} (body : M A) (handler : Thrown -> M A) : M A :=
  fun st =>
    match body st with
    | (Returned a, st') => (Returned a, st')
    | (Threw e, st') => handler e st'
    end.

(** [try { body } finally { fin }], for a [fin] that does not throw. *)
Definition tryFinally {A} (body : M A) (fin : WalletState -> WalletState) : M A :=
  fun st => let '(r, st') := body st in (r, fin st').

(** The result of a call that does not touch the state. *)
Definition liftOutcome {A} (o : Outcome A) : M A := fun st => (o, st).

Declare Scope wallet_scope.
Delimit Scope wallet_scope with wallet.
Notation "x <- c ;; k" := (bind c (fun x => k))
  (at level 61, c at next level, right associativity) : wallet_scope.
Notation "' pat <- c ;; k" := (bind c (fun x => match x with pat => k end))
  (at level 61, pat pattern, c at next level, right associativity) : wallet_scope.
Notation "c ;; k" := (bind c (fun _ => k))
  (at level 61, right associativity) : wallet_scope.
#[local] Open Scope wallet_scope.

(** ** Numbers

    A JavaScript number is an IEEE-754 binary64 value. The amounts the
    wallet is handed are integers ([Z]); where the wallet adds or compares
    them itself, it does so on the doubles they are ([F64.ofZ]). The
    definitions of this section say what a double denotes and what a
    rounding may return; they are what the statements about the
    arithmetic are written with. *)

(** The round and sticky bits after [j] shifts of [M]. *)
Definition rbit (M j : Z) : bool := if j =? 0 then false else Z.testbit M (j - 1).
Definition sbit (M j : Z) : bool := if j =? 0 then false else negb (M mod 2 ^ (j - 1) =? 0).

Definition shifted (M j : Z) : shr_record :=
  Build_shr_record (M / 2 ^ j) (rbit M j) (sbit M j).

(** The mantissa rounded to nearest, ties to even, after dropping [n] bits. *)
Definition rne (M n : Z) : Z :=
  round_nearest_even (M / 2 ^ n) (loc_of_shr_record (shifted M n)).

Definition pow2 (e : Z) : Q := Qpower 2 e.

Definition sgn (s : bool) : Q := if s then (-1)%Q else 1%Q.

(** The rational a binary64 number denotes; 0 for what is not finite. *)
Definition SFvalue (x : spec_float) : Q :=
  match x with
  | S754_finite s m e => (sgn s * inject_Z (Zpos m) * pow2 e)%Q
  | _ => 0%Q
  end.

Definition SFfinite (x : spec_float) : bool :=
  match x with
  | S754_finite _ _ _ | S754_zero _ => true
  | _ => false
  end.

(** Finite with the sign bit [s]. *)
Definition SFsigned (s : bool) (x : spec_float) : Prop :=
  match x with
  | S754_finite s' _ _ | S754_zero s' => s' = s
  | _ => False
  end.

(** What a rounding can return for the sign [sx] and the rounded
    mantissa [m1]. *)
Definition SFshape (sx : bool) (m1 : Z) (R : spec_float) : Prop :=
  match R with
  | S754_nan => False
  | S754_infinity s => s = sx
  | S754_zero s => s = sx /\ m1 = 0
  | S754_finite s _ _ => s = sx /\ 0 < m1
  end.

(** [m1 * 2^F] is [a] rounded to the multiples of [2^F]: within half a
    step, and never across a multiple. *)
Definition nearestOnGrid (a : Q) (F : Z) (m1 : Z) : Prop :=
  (2 * (inject_Z m1 * pow2 F - a) <= pow2 F)%Q
  /\ (2 * (a - inject_Z m1 * pow2 F) <= pow2 F)%Q
  /\ (forall G : Z, (a <= inject_Z G * pow2 F)%Q -> m1 <= G)
  /\ (forall G : Z, (inject_Z G * pow2 F <= a)%Q -> G <= m1).

(** [R] is the binary64 number nearest to [v]. *)
Definition roundsTo (v : Q) (R : spec_float) : Prop :=
  valid_binary R = true /\ SFfinite R = true
  /\ ((v == 0 /\ SFvalue R == 0)%Q
      \/ exists (s : bool) (a : Q) (L m1 : Z),
           (v == sgn s * a)%Q
           /\ (pow2 (L - 1) <= a < pow2 L)%Q /\ L <= 1024
           /\ SFsigned s R
           /\ (SFvalue R == sgn s * (inject_Z m1 * pow2 (Z.max (L - 53) (-1074))))%Q
           /\ nearestOnGrid a (Z.max (L - 53) (-1074)) m1).

(** Finite and below [2^1022] in magnitude: what an operand must be for a
    sum or a difference not to overflow. *)
Definition SFsmall (X : spec_float) : Prop :=
  match X with
  | S754_finite _ m e => Zpos (digits2_pos m) + e <= 1022
  | S754_zero _ => True
  | _ => False
  end.

(** The numbers of the multi-path allocation (the weights and the carry)
    are not integers. The allocation is written over this interface, which
    is read with IEEE-754 binary64, the numbers of the engine. *)
Class JsNum (N : Type) : Type := mkJsNum {
  ofZ : Z -> N;                 (* an integer as a number *)
  nmul : N -> N -> N;
  nadd : N -> N -> N;
  nsub : N -> N -> N;
  nround : N -> Rounded;        (* [Math.round] *)
  ofRounded : Rounded -> N
}.

(** [partialAmount > 0] *)
Definition roundedPositive (r : Rounded) : bool :=
  match r with
  | RInt z => 0 <? z
  | RNaN => false
  | RInf negative => negb negative
  end.

Definition roundedZ (r : Rounded) : Z :=
  match r with RInt z => z | _ => 0 end.

(** *** binary64 *)

Module F64.

(** The nearest double of an integer. *)
Definition ofZ (z : Z) : float := SF2Prim (binary_normalize prec emax z 0 false).

(** The rational a number denotes; 0 for what is not finite. *)
Definition value (x : float) : Q := SFvalue (Prim2SF x).

Definition finite (x : float) : bool := SFfinite (Prim2SF x).

(** Finite and below [2^1022] in magnitude. *)
Definition small (x : float) : Prop := SFsmall (Prim2SF x).

(** The integer a number holds (towards zero when it holds none, 0 when
    it is not finite): how a number that holds an amount is handed on. *)
Definition toZ (x : float) : Z :=
  match Prim2SF x with
  | S754_finite s m e => cond_Zopp s (Z.shiftl (Zpos m) e)
  | _ => 0
  end.

(** [a + b] and [a - b] of two numbers that hold the integers [a] and
    [b], as the integer the rounded result holds. *)
Definition addZ (a b : Z) : Z := toZ (ofZ a + ofZ b).
Definition subZ (a b : Z) : Z := toZ (ofZ a - ofZ b).

(** [Math.round]: the integer [floor(x + 1/2)], computed exactly. (The
    sign of a zero result is dropped: it never reaches a partial amount.) *)
Definition round (x : float) : Rounded :=
  match Prim2SF x with
  | S754_zero _ => RInt 0
  | S754_infinity s => RInf s
  | S754_nan => RNaN
  | S754_finite s m e =>
      let n := if s then Z.neg m else Z.pos m in
      RInt (if 0 <=? e then n * 2 ^ e
            else (2 * n + 2 ^ (- e)) / 2 ^ (1 - e))
  end.

Definition ofRounded (r : Rounded) : float :=
  match r with
  | RInt z => ofZ z
  | RNaN => nan
  | RInf negative => if negative then neg_infinity else infinity
  end.

#[global] Instance num : JsNum float :=
  mkJsNum ofZ PrimFloat.mul PrimFloat.add PrimFloat.sub round ofRounded.

End F64.

(** ** Collaborators *)

(** The proof store ([src/stores/proofs.ts]) and the parts of the mints and
    tokens stores the wallet calls are not part of the sources at hand;
    the definitions of this section follow the specification's contract
    for them (4.2 Proof Store, 4.3 Mint Registry). *)

(** Modelled from the spec: [proofsStore.sumProofs], "sum(proofs) -> integer". *)
Definition sumProofs (ps : list WalletProof) : Z :=
  fold_left (fun s t => s + p_amount t) ps 0.

(** Modelled from the spec: [proofsStore.getUnreservedProofs],
    "unreserved(all) -> list"; "reserved=true excludes from spendable
    selection". *)
Definition getUnreservedProofs (ps : list WalletProof) : list WalletProof :=
  filter (fun p => negb (p_reserved p)) ps.

(** Modelled from the spec: "Equality of a proof uses secret as identity". *)
Definition sameProof (p q : WalletProof) : bool :=
  String.eqb (p_secret p) (p_secret q).

Definition proofIn (p : WalletProof) (ps : list WalletProof) : bool :=
  existsb (sameProof p) ps.

(** Modelled from the spec: [mintStore.addProofs], "add(proofs)". *)
Definition addProofs (ps : list WalletProof) : M unit :=
  modify (set_proofs (fun store => store ++ ps)).

(** Modelled from the spec: [mintStore.removeProofs], "remove(proofs)". *)
Definition removeProofs (ps : list WalletProof) : M unit :=
  modify (set_proofs (filter (fun p => negb (proofIn p ps)))).

(** Modelled from the spec: [proofsStore.setReserved],
    "set_reserved(proofs, bool, quote_id?)": the stored proofs with one of
    the given secrets get the flag and the quote binding (none when the
    argument is left out). *)
Definition reserveProof (reserved : bool) (quote : option string)
  (p : WalletProof) : WalletProof :=
  mkProof (p_amount p) (p_secret p) (p_C p) (p_id p) reserved quote.

Definition setReserved (ps : list WalletProof) (reserved : bool)
  (quote : option string) : M unit :=
  modify (set_proofs
    (map (fun p => if proofIn p ps then reserveProof reserved quote p else p))).

(** Modelled from the spec: [mintStore.activeProofs],
    "all_for_active_mint() -> list": the stored proofs of the active mint's
    keysets for the active unit. *)
Definition activeProofs (st : WalletState) : list WalletProof :=
  filter (fun p =>
            existsb (fun k => String.eqb (ks_id k) (p_id p)
                              && String.eqb (ks_unit k) (activeUnit st))
                    (keysets st))
         (proofs st).

(** Modelled from the spec: [tokenStore.addPaidToken], "append a paid-token
    entry". *)
Definition addPaidToken (amount : Z) (serializedProofs : option string)
  (unit_ mint : string) : M unit :=
  modify (set_historyTokens
    (fun h => h ++ [mkHistoryToken paid amount serializedProofs mint unit_])).

(** Modelled from the spec: [mintStore.assertMintError], "throws on any
    error envelope". *)
Definition assertMintError (data : MeltQuoteResponse) : M unit :=
  match mq_error data with
  | Some msg => throw (JsError msg)
  | None => ret tt
  end.

(** Modelled from the spec: [uIStore.lockMutex] / [unlockMutex], the engine
    mutex of a single-threaded run. *)
Definition lockMutex : M unit := modify (set_mutex true).
Definition unlockMutex (st : WalletState) : WalletState := set_mutex false st.

(** What lies outside the wallet store and answers its calls: the cashu-ts
    wallet, the mint's HTTP API, the serializer, the LNURL host. A call
    that goes over the network answers with a value or throws. *)
Record Env : Type := mkEnv {
  (** [wallet.selectProofsToSend(proofs, amount, includeFees).send] *)
  selectProofsToSend : list WalletProof -> Z -> bool -> list WalletProof;
  (** [wallet.getFeesForProofs(proofs)] *)
  walletFees : list WalletProof -> Z;
  (** [wallet.send(amount, proofs, { counter, proofsWeHave })]: keep, send *)
  walletSend : Z -> list WalletProof -> Z -> list WalletProof
               -> Outcome (list WalletProof * list WalletProof);
  (** [wallet.mintProofs(amount, quote, { keysetId, counter, proofsWeHave })] *)
  walletMintProofs : Z -> string -> string -> Z -> list WalletProof
                     -> Outcome (list WalletProof);
  (** [wallet.meltProofs(quote, proofs, { keysetId, counter })] *)
  walletMeltProofs : MeltQuoteResponse -> list WalletProof -> string -> Z
                     -> Outcome MeltProofsResponse;
  (** [wallet.checkProofsStates(proofs)] *)
  walletCheckProofsStates : list WalletProof -> Outcome (list ProofState);
  (** [hashToCurve(enc.encode(secret)).toHex(true)] *)
  hashToCurveHex : string -> string;
  (** [api.createMeltQuote(payload)] of the mint at a URL *)
  apiCreateMeltQuote : string -> MeltQuotePayload -> Outcome MeltQuoteResponse;
  (** [api.checkMeltQuote(quote)] *)
  apiCheckMeltQuote : string -> Outcome MeltQuoteResponse;
  (** [api.checkMintQuote(quote)] *)
  apiCheckMintQuote : string -> Outcome MintQuoteResponse;
  (** [mintStore.getMultiMints(method, unit)] *)
  getMultiMints : string -> string -> list Mint;
  (** [proofsStore.serializeProofs(proofs)], [null] as [None] *)
  serializeProofs : list WalletProof -> option string;
  (** [axios.get(url)].data *)
  axiosGet : string -> Outcome LnurlPay;
  (** the URL a bech32 [lnurl1...] string decodes to *)
  bech32Url : string -> Outcome string;
  (** [currentDateStr()] *)
  currentDateStr : string;
  (** [Math.ceil(Math.log2(x))] for an integer [x >= 1]: ECMAScript leaves
      the accuracy of [Math.log2] to the host, so the count is the host's;
      it is not negative *)
  ceilLog2 : Z -> N
}.

(** A network call: log the request, then take the answer. *)
Definition call {A} (r : Request) (answer : Outcome A) : M A :=
  fun st => (answer, log_request r st).

(** ** The wallet store's actions *)

Definition keysetCounter (id : string) : M Z :=
  fun st =>
    let '(c, cs) := keysetCounterOn id (keysetCounters st) in
    (Returned c, set_keysetCounters (fun _ => cs) st).

Definition increaseKeysetCounter (id : string) (by_ : Z) : M unit :=
  modify (set_keysetCounters (increaseKeysetCounterOn id by_)).

(** Modelled from the spec: [MintClass.unitKeysets(unit)], "among a unit's
    keysets". *)
Definition unitKeysets (unit_ : string) (ks : list Keyset) : list Keyset :=
  filter (fun k => String.eqb (ks_unit k) unit_) ks.

Definition getKeyset : M string :=
  st <- get ;;
  match keysets st with
  | [] => throw (JsError "no keysets found.")
  | _ :: _ =>
      let units := unitKeysets (activeUnit st) (keysets st) in
      match units with
      | [] => throw (JsError "no keysets found for unit")
      | _ :: _ =>
          let activeKeysets := filter ks_active units in
          let hexKeysets :=
            filter (fun k => Str.startsWith "00" (ks_id k)) activeKeysets in
          let base64Keysets :=
            filter (fun k => negb (Str.startsWith "00" (ks_id k))) activeKeysets in
          match hexKeysets ++ base64Keysets with
          | [] => throw (JsError "no active keysets found for unit")
          | k :: _ => ret (ks_id k)
          end
      end
  end.

(** The first invoice with the quote id, updated in place. *)
Fixpoint updateFirstInvoice (quoteId : string) (f : InvoiceHistory -> InvoiceHistory)
  (h : list InvoiceHistory) : list InvoiceHistory :=
  match h with
  | [] => []
  | i :: h' =>
      if String.eqb (inv_quote i) quoteId then f i :: h'
      else i :: updateFirstInvoice quoteId f h'
  end.

Definition withStatus (s : InvoiceStatus) (i : InvoiceHistory) : InvoiceHistory :=
  mkInvoice (inv_amount i) (inv_bolt11 i) (inv_quote i) (inv_memo i) (inv_date i)
    s (inv_mint i) (inv_unit i).

Definition withAmount (a : Z) (i : InvoiceHistory) : InvoiceHistory :=
  mkInvoice a (inv_bolt11 i) (inv_quote i) (inv_memo i) (inv_date i)
    (inv_status i) (inv_mint i) (inv_unit i).

Definition setInvoicePaid (quoteId : string) : M unit :=
  modify (set_invoiceHistory (updateFirstInvoice quoteId (withStatus paid))).

(** [proofs.reduce((s, t) => (s += t.amount), 0)]: the sum of the
    numbers, each addition rounded. *)
Definition reduceAmounts (ps : list WalletProof) : float :=
  fold_left (fun s t => (s + F64.ofZ (p_amount t))%float) ps 0%float.

(** [{ ...p, reserved: false }] *)
Definition unreservedCopy (p : WalletProof) : WalletProof :=
  mkProof (p_amount p) (p_secret p) (p_C p) (p_id p) false (p_quote p).

Definition coinSelect (env : Env) (proofs_ : list WalletProof) (amount : Z)
  (includeFees : bool) : list WalletProof :=
  if (reduceAmounts proofs_ <? F64.ofZ amount)%float then []
  else
    let selectedProofs := selectProofsToSend env proofs_ amount includeFees in
    map unreservedCopy selectedProofs.

(** [spendableProofs]: the warning shown to the user is left out. *)
Definition spendableProofs (proofs_ : list WalletProof) (amount : Z)
  : Outcome (list WalletProof) :=
  let spendable := getUnreservedProofs proofs_ in
  if sumProofs spendable <? amount then Threw (JsError "Balance too low")
  else Returned spendable.

Definition outputsSignedMessage : string := "outputs have already been signed".

(** [error.message.includes(...)]: a thrown string has no [message], and
    reading [includes] of [undefined] is a [TypeError]. *)
Definition handleOutputsHaveAlreadyBeenSignedError (keysetId : string)
  (error : Thrown) : M bool :=
  match error with
  | JsError message =>
      if Str.includes outputsSignedMessage message
      then increaseKeysetCounter keysetId 10 ;; ret true
      else ret false
  | JsThrownString _ =>
      throw (JsError "Cannot read properties of undefined (reading 'includes')")
  end.

(** The [catch] block of [send], for the value [proofsToSend] has when the
    error is thrown. *)
Definition sendCatch {A} (keysetId : string) (proofsToSend : list WalletProof)
  (error : Thrown) : M A :=
  setReserved proofsToSend false None ;;
  _ <- handleOutputsHaveAlreadyBeenSignedError keysetId error ;;
  throw error.

(** [send]. [targetAmount] is the number [amount + fees]
    ([targetNumber]), handed on as the integer it holds. The one [try]
    block is written as its two throwing regions, each with the [catch]
    block at the value of [proofsToSend] there: [[]] while
    [spendableProofs] runs, the second selection while [wallet.send] runs
    (the [catch] block always rethrows, so control never passes from one
    region to the next after an error). *)
Definition send (env : Env) (proofs_ : list WalletProof) (amount : Z)
  (invalidate includeFees : bool) : M (list WalletProof * list WalletProof) :=
  keysetId <- getKeyset ;;
  lockMutex ;;
  tryFinally
    (spendable <- tryCatch (liftOutcome (spendableProofs proofs_ amount))
                           (sendCatch keysetId []) ;;
     let proofsToSend := coinSelect env spendable amount includeFees in
     let totalAmount := reduceAmounts proofsToSend in
     let fees := if includeFees then walletFees env proofsToSend else 0 in
     let targetNumber := (F64.ofZ amount + F64.ofZ fees)%float in
     let targetAmount := F64.toZ targetNumber in
     '(keepProofs, sendProofs) <-
       (if negb (totalAmount =? targetNumber)%float then
          counter <- keysetCounter keysetId ;;
          let proofsToSend := coinSelect env spendable targetAmount true in
          '(keepProofs, sendProofs) <-
            tryCatch (call ReqSwap
                        (walletSend env targetAmount proofsToSend counter spendable))
                     (sendCatch keysetId proofsToSend) ;;
          increaseKeysetCounter keysetId
            (Z.of_nat (List.length keepProofs) + Z.of_nat (List.length sendProofs)) ;;
          addProofs keepProofs ;;
          addProofs sendProofs ;;
          removeProofs proofsToSend ;;
          ret (keepProofs, sendProofs)
        else ret ([], proofsToSend)) ;;
     (if invalidate then removeProofs sendProofs else ret tt) ;;
     setReserved sendProofs true None ;;
     ret (keepProofs, sendProofs))
    unlockMutex.

(** The [catch] block of [mint]. *)
Definition mintCatch {A} (keysetId : string) (error : Thrown) : M A :=
  _ <- handleOutputsHaveAlreadyBeenSignedError keysetId error ;;
  throw error.

Definition mint (env : Env) (amount : Z) (hash : string) : M (list WalletProof) :=
  keysetId <- getKeyset ;;
  lockMutex ;;
  tryFinally
    (tryCatch
       (mintQuote <- call (ReqCheckMintQuote hash) (apiCheckMintQuote env hash) ;;
        match mintq_state mintQuote with
        | MINT_PAID =>
            counter <- keysetCounter keysetId ;;
            st <- get ;;
            proofs_ <- call (ReqMint hash)
                         (walletMintProofs env amount hash keysetId counter
                            (activeProofs st)) ;;
            increaseKeysetCounter keysetId (Z.of_nat (List.length proofs_)) ;;
            match proofs_ with
            | [] => throw (JsThrownString "could not mint")
            | _ :: _ =>
                addProofs proofs_ ;;
                setInvoicePaid hash ;;
                match serializeProofs env proofs_ with
                | None => throw (JsError "could not serialize proofs.")
                | Some serializedProofs =>
                    st <- get ;;
                    addPaidToken amount (Some serializedProofs) (activeUnit st)
                      (activeMintUrl st) ;;
                    ret proofs_
                end
            end
        | _ => throw (JsError "invoice not paid yet.")
        end)
       (mintCatch keysetId))
    unlockMutex.

(** ** Melt *)

Definition addOutgoingPendingInvoiceToHistory (env : Env)
  (quote : MeltQuoteResponse) (sendProofs : list WalletProof) : M unit :=
  setReserved sendProofs true (Some (mq_quote quote)) ;;
  st <- get ;;
  modify (set_invoiceHistory (fun h => h ++
    [mkInvoice (- F64.addZ (mq_amount quote) (mq_fee_reserve quote))
       (in_request (input (payInvoiceData st)))
       (mq_quote quote) "Outgoing invoice" (currentDateStr env) pending
       (activeMintUrl st) (Some (activeUnit st))])).

(** [findIndex] then [splice(index, 1)]: the first entry with the quote. *)
Fixpoint removeFirstInvoice (quote : string) (h : list InvoiceHistory)
  : list InvoiceHistory :=
  match h with
  | [] => []
  | i :: h' =>
      if String.eqb (inv_quote i) quote then h'
      else i :: removeFirstInvoice quote h'
  end.

Definition removeOutgoingInvoiceFromHistory (quote : string) : M unit :=
  modify (set_invoiceHistory (removeFirstInvoice quote)).

(** [updateInvoiceInHistory(quote, { status, amount })]: every entry of the
    quote; [if (options.amount)] skips an amount of 0. *)
Definition updateInvoiceInHistory (quote : MeltQuoteResponse)
  (status : option InvoiceStatus) (amount : option Z) : M unit :=
  modify (set_invoiceHistory (map (fun i =>
    if String.eqb (inv_quote i) (mq_quote quote) then
      let i := match status with Some s => withStatus s i | None => i end in
      match amount with
      | Some a => if a =? 0 then i else withAmount a i
      | None => i
      end
    else i))).

(** [Math.ceil(Math.log2(fee_reserve)) || 1], on the logarithm the host
    answers. *)
Definition changeOutputs (env : Env) (fee_reserve : Z) : Z :=
  let c := Z.of_N (ceilLog2 env fee_reserve) in
  if c =? 0 then 1 else c.

Definition isPaidOutgoing (bolt11 : string) (i : InvoiceHistory) : bool :=
  String.eqb (inv_bolt11 i) bolt11 && (inv_amount i <? 0)
  && match inv_status i with paid => true | pending => false end.

(** The [try] block of [melt] from the call of [wallet.meltProofs] on. *)
Definition meltTry (env : Env) (quote : MeltQuoteResponse) (amount : Z)
  (keysetId : string) (counter : Z) (sendProofs : list WalletProof)
  : M MeltProofsResponse :=
  data <- call (ReqMelt (mq_quote quote))
            (walletMeltProofs env quote sendProofs keysetId counter) ;;
  match mq_state (mp_quote data) with
  | MELT_PAID =>
      let amount_paid := F64.subZ amount (sumProofs (mp_change data)) in
      removeProofs sendProofs ;;
      addProofs (mp_change data) ;;
      st <- get ;;
      addPaidToken (- amount_paid) (serializeProofs env sendProofs)
        (activeUnit st) (activeMintUrl st) ;;
      updateInvoiceInHistory quote (Some paid) (Some (- amount_paid)) ;;
      modify (set_payInvoiceData (set_invoice (Some (mkCleanInvoice 0 "" "")))) ;;
      modify (set_payInvoiceData (set_show false)) ;;
      ret data
  | _ => throw (JsError "Invoice not paid.")
  end.

(** The [catch] block of [melt]. *)
Definition meltCatch {A} (env : Env) (quote : MeltQuoteResponse) (keysetId : string)
  (sendProofs : list WalletProof) (keysetCounterIncrease : Z) (error : Thrown)
  : M A :=
  st <- get ;;
  if isUnloading st then throw error
  else
    mintQuote <- call (ReqCheckMeltQuote (mq_quote quote))
                   (apiCheckMeltQuote env (mq_quote quote)) ;;
    match mq_state mintQuote with
    | MELT_PAID | MELT_PENDING => throw error
    | MELT_UNPAID =>
        setReserved sendProofs false None ;;
        increaseKeysetCounter keysetId (- keysetCounterIncrease) ;;
        removeOutgoingInvoiceFromHistory (mq_quote quote) ;;
        _ <- handleOutputsHaveAlreadyBeenSignedError keysetId error ;;
        throw error
    end.

(** The second [try] / [catch] / [finally] of [melt], entered with the
    proofs [send] returned. Nothing throws before [wallet.meltProofs] is
    called, so the [catch] block sees the final value of
    [keysetCounterIncrease]. *)
Definition meltPay (env : Env) (quote : MeltQuoteResponse) (amount : Z)
  (keysetId : string) (sendProofs : list WalletProof) : M MeltProofsResponse :=
  lockMutex ;;
  tryFinally
    (addOutgoingPendingInvoiceToHistory env quote sendProofs ;;
     counter <- keysetCounter keysetId ;;
     increaseKeysetCounter keysetId (Z.of_nat (List.length sendProofs)) ;;
     keysetCounterIncrease <-
       (if 0 <? mq_fee_reserve quote then
          let countChangeOutputs := changeOutputs env (mq_fee_reserve quote) in
          increaseKeysetCounter keysetId countChangeOutputs ;;
          ret (0 + countChangeOutputs)
        else ret 0) ;;
     tryCatch (meltTry env quote amount keysetId counter sendProofs)
              (meltCatch env quote keysetId sendProofs keysetCounterIncrease))
    unlockMutex.

Definition melt (env : Env) : M MeltProofsResponse :=
  st <- get ;;
  if blocking (payInvoiceData st) then
    throw (JsError "already processing an invoice.")
  else
    match invoice (payInvoiceData st) with
    | None => throw (JsError "no invoice provided.")
    | Some inv =>
        if existsb (isPaidOutgoing (ci_bolt11 inv)) (invoiceHistory st) then
          throw (JsError "invoice already paid.")
        else
          let quote := mqs_response (meltQuoteSlot (payInvoiceData st)) in
          let amount := F64.addZ (mq_amount quote) (mq_fee_reserve quote) in
          keysetId <- getKeyset ;;
          sendProofs <-
            tryCatch
              ('(_, sendProofs) <- send env (activeProofs st) amount false true ;;
               match sendProofs with
               | [] => throw (JsError "could not split proofs.")
               | _ :: _ => ret sendProofs
               end)
              (fun error => throw error) ;;
          meltPay env quote amount keysetId sendProofs
    end.

(** ** The proof reconciler *)

Definition isSpent (s : ProofState) : bool :=
  match ps_state s with SPENT => true | _ => false end.

(** [checkProofsSpendable]: [None] is the [undefined] of the bare [return]. *)
Definition checkProofsSpendable (env : Env) (proofs_ : list WalletProof)
  (update_history : bool) : M (option (list WalletProof)) :=
  match proofs_ with
  | [] => ret None
  | _ :: _ =>
      tryCatch
        (proofStates <- call ReqCheckState (walletCheckProofsStates env proofs_) ;;
         let spentProofsStates := filter isSpent proofStates in
         let spentProofs :=
           filter (fun p =>
                     existsb (fun s => String.eqb (ps_Y s)
                                         (hashToCurveHex env (p_secret p)))
                             spentProofsStates)
                  proofs_ in
         match spentProofs with
         | [] => ret (Some spentProofs)
         | _ :: _ =>
             removeProofs spentProofs ;;
             match serializeProofs env spentProofs with
             | None => throw (JsError "could not serialize proofs.")
             | Some serializedProofs =>
                 (if update_history then
                    st <- get ;;
                    addPaidToken (- sumProofs spentProofs) (Some serializedProofs)
                      (activeUnit st) (activeMintUrl st)
                  else ret tt) ;;
                 ret (Some spentProofs)
             end
         end)
        (fun error => throw error)
  end.

(** ** Melt quotes *)

Definition set_mq_error (e : option Thrown) (s : MeltQuoteSlot) : MeltQuoteSlot :=
  mkMeltQuoteSlot (mqs_payload s) (mqs_response s) e.
Definition set_mq_payload (p : MeltQuotePayload) (s : MeltQuoteSlot) : MeltQuoteSlot :=
  mkMeltQuoteSlot p (mqs_response s) (mqs_error s).
Definition set_mq_response (r : MeltQuoteResponse) (s : MeltQuoteSlot) : MeltQuoteSlot :=
  mkMeltQuoteSlot (mqs_payload s) r (mqs_error s).

Definition set_mp_error (e : option Thrown) (s : MultiPartSlot) : MultiPartSlot :=
  mkMultiPartSlot (mps_payloads s) (mps_responses s) e.
Definition set_mp_payloads (p : list (Mint * MeltQuotePayload)) (s : MultiPartSlot)
  : MultiPartSlot :=
  mkMultiPartSlot p (mps_responses s) (mps_error s).
Definition set_mp_responses (r : list MeltQuoteResponse) (s : MultiPartSlot)
  : MultiPartSlot :=
  mkMultiPartSlot (mps_payloads s) r (mps_error s).

Definition meltQuote (env : Env) : M MeltQuoteResponse :=
  st <- get ;;
  if blocking (payInvoiceData st) then
    throw (JsError "already processing an melt quote.")
  else
    modify (set_payInvoiceData (set_blocking true)) ;;
    modify (set_payInvoiceData (set_meltQuoteSlot (set_mq_error None))) ;;
    tryCatch
      (st <- get ;;
       let request := in_request (input (payInvoiceData st)) in
       if String.eqb request "" then throw (JsError "no invoice provided.")
       else
         let payload := mkMeltQuotePayload (activeUnit st) request None in
         modify (set_payInvoiceData (set_meltQuoteSlot (set_mq_payload payload))) ;;
         data <- call (ReqCreateMeltQuote (activeMintUrl st) request)
                   (apiCreateMeltQuote env (activeMintUrl st) payload) ;;
         assertMintError data ;;
         modify (set_payInvoiceData (set_meltQuoteSlot (set_mq_response data))) ;;
         modify (set_payInvoiceData (set_blocking false)) ;;
         ret data)
      (fun error =>
         modify (set_payInvoiceData (set_blocking false)) ;;
         modify (set_payInvoiceData (set_meltQuoteSlot (set_mq_error (Some error)))) ;;
         throw error).

Section MultiPath.
Context {N : Type} {num : JsNum N}.

(** The body of [multiMints.forEach((m, i) => ...)], on the mint and
    [weights[i]]: the payloads so far and the carry. *)
Definition mppStep (activeUnit_ request : string) (invoiceAmount : Z)
  (acc : list (Mint * MeltQuotePayload) * N) (mw : Mint * N)
  : list (Mint * MeltQuotePayload) * N :=
  let '(payloads, carry) := acc in
  let '(m, w) := mw in
  let partialAmountFloat := nadd (nmul (ofZ invoiceAmount) w) carry in
  let partialAmount := nround partialAmountFloat in
  let carry := nsub partialAmountFloat (ofRounded partialAmount) in
  if roundedPositive partialAmount then
    (payloads ++ [(m, mkMeltQuotePayload activeUnit_ request (Some partialAmount))],
     carry)
  else (payloads, carry).

(** The payloads of the allocation loop. A mint past the end of
    [weights] meets [undefined], a NaN partial and a NaN carry from then
    on, and gets no payload: the loop runs over the mints that have a
    weight. *)
Definition mppPayloads (activeUnit_ request : string) (invoiceAmount : Z)
  (multiMints : list Mint) (weights : list N) : list (Mint * MeltQuotePayload) :=
  fst (fold_left (mppStep activeUnit_ request invoiceAmount)
         (combine multiMints weights) ([], ofZ 0)).

(** The partial amounts of the retained payloads. *)
Definition mppPartials (invoiceAmount : Z) (multiMints : list Mint)
  (weights : list N) : list Rounded :=
  map (fun mp => match mqp_mpp_amount (snd mp) with
                 | Some r => r
                 | None => RNaN
                 end)
      (mppPayloads "" "" invoiceAmount multiMints weights).

(** [for (const payload of payloads)]: one melt quote per payload, in
    order, stopping at the first error. *)
Fixpoint requestQuotes (env : Env) (payloads : list (Mint * MeltQuotePayload))
  (responses : list MeltQuoteResponse) : M (list MeltQuoteResponse) :=
  match payloads with
  | [] => ret responses
  | payload :: rest =>
      data <- call (ReqCreateMeltQuote (mint_url (fst payload))
                      (mqp_request (snd payload)))
                (apiCreateMeltQuote env (mint_url (fst payload)) (snd payload)) ;;
      let responses := responses ++ [data] in
      assertMintError data ;;
      requestQuotes env rest responses
  end.

(** [multiPathMeltQuotes]; [multiMintBalance] is
    [mintStore.multiMintBalance(method, unit)]: the overall balance and
    one weight per mint of [getMultiMints]. *)
Definition multiPathMeltQuotes (env : Env)
  (multiMintBalance : string -> string -> Z * list N)
  : M (list MeltQuoteResponse) :=
  st <- get ;;
  if blocking (payInvoiceData st) then
    throw (JsError "already processing an melt quote.")
  else
    modify (set_payInvoiceData (set_blocking true)) ;;
    modify (set_payInvoiceData (set_multiPart (set_mp_error None))) ;;
    tryCatch
      (st <- get ;;
       let request := in_request (input (payInvoiceData st)) in
       if String.eqb request "" then throw (JsError "no invoice provided.")
       else
         let multiMints := getMultiMints env "bolt11" (activeUnit st) in
         match multiMints with
         | [] => throw (JsError "no mint supports multi-part payments")
         | _ :: _ =>
             let '(overallBalance, weights) :=
               multiMintBalance "bolt11"%string (activeUnit st) in
             let invoiceAmount :=
               match invoice (payInvoiceData st) with
               | Some i => ci_sat i
               | None => 0
               end in
             if invoiceAmount =? 0 then
               throw (JsError "invoice does not have an amount")
             else if overallBalance <? invoiceAmount then
               throw (JsError "insufficient multi-mint balance")
             else
               let payloads :=
                 mppPayloads (activeUnit st) request invoiceAmount
                   multiMints weights in
               modify (set_payInvoiceData (set_multiPart (set_mp_payloads payloads))) ;;
               responses <- requestQuotes env payloads [] ;;
               modify (set_payInvoiceData
                         (set_multiPart (set_mp_responses responses))) ;;
               modify (set_payInvoiceData (set_blocking false)) ;;
               ret responses
         end)
      (fun error =>
         modify (set_payInvoiceData (set_blocking false)) ;;
         modify (set_payInvoiceData (set_multiPart (set_mp_error (Some error)))) ;;
         throw error).

End MultiPath.

(** ** LNURL pay, first step *)

Definition set_ln_domain (d : string) (l : LnurlPay) : LnurlPay :=
  mkLnurlPay d (ln_callback l) (ln_minSendable l) (ln_maxSendable l) (ln_tag l).

Definition set_in_amount (a : option Q) (i : PayInput) : PayInput :=
  mkPayInput (in_request i) a (in_comment i) (in_quote i).

(** [host.split("https://")[1].split("/")[0]]; without a second piece,
    [split] of [undefined] is a [TypeError]. *)
Definition lnurlDomain (host : string) : Outcome string :=
  match Str.split "https://" host with
  | _ :: rest :: _ =>
      match Str.split "/" rest with
      | d :: _ => Returned d
      | [] => Returned ""%string
      end
  | _ => Threw (JsError "Cannot read properties of undefined (reading 'split')")
  end.

(** [lnurlPayFirst] once [host] and [data] are there. *)
Definition lnurlPayStore (host : string) (data : LnurlPay) : M unit :=
  if String.eqb (ln_tag data) "payRequest" then
    modify (set_payInvoiceData (set_lnurlpay (fun _ => data))) ;;
    domain <- liftOutcome (lnurlDomain host) ;;
    modify (set_payInvoiceData (set_lnurlpay (set_ln_domain domain))) ;;
    st <- get ;;
    (if ln_maxSendable (lnurlpay (payInvoiceData st))
        =? ln_minSendable (lnurlpay (payInvoiceData st))
     then modify (set_payInvoiceData (set_input (set_in_amount
            (Some (inject_Z (ln_maxSendable (lnurlpay (payInvoiceData st)))
                   / 1000)%Q))))
     else ret tt) ;;
    modify (set_payInvoiceData (set_invoice None)) ;;
    modify (set_payInvoiceData (set_input (fun _ => mkPayInput "" None "" ""))) ;;
    modify (set_payInvoiceData (set_show true))
  else ret tt.

Definition lnurlPayFirst (env : Env) (address : string) : M unit :=
  match Str.split "@" address with
  | [user; lnaddresshost] =>
      let host := ("https://" ++ lnaddresshost ++ "/.well-known/lnurlp/" ++ user)%string in
      data <- call (ReqHttpGet host) (axiosGet env host) ;;
      lnurlPayStore host data
  | _ =>
      if String.eqb (Str.take 6 (Str.toLowerCase address)) "lnurl1" then
        host <- liftOutcome (bech32Url env address) ;;
        data <- call (ReqHttpGet host) (axiosGet env host) ;;
        lnurlPayStore host data
      else ret tt                      (* "Invalid LNURL" is shown *)
  end.

(** ** The initial state of the store *)

Definition initialPayInvoiceData : PayInvoiceData :=
  mkPayInvoiceData false "" false
    (mkMeltQuoteSlot (mkMeltQuotePayload "" "" None)
       (mkMeltQuoteResponse "" 0 0 MELT_UNPAID None) None)
    (mkMultiPartSlot [] [] None)
    (Some (mkCleanInvoice 0 "" ""))
    (mkLnurlPay "" "" 0 0 "")
    (mkPayInput "" None "" "").

(** A fresh wallet on a mint with the given keysets and proofs. *)
Definition initialState (ks : list Keyset) (unit_ mintUrl : string)
  (ps : list WalletProof) : WalletState :=
  mkWalletState [] [] initialPayInvoiceData false ps [] ks unit_ mintUrl false [].

(** ** Scripted environments

    Environments for running the model on concrete inputs: the selector
    offers every proof it is given, fees are zero, the serializer joins
    nothing, each network call gives the scripted answer, and the host's
    logarithm is the real one. *)

Record Script : Type := mkScript {
  s_send : Outcome (list WalletProof * list WalletProof);
  s_mintProofs : Outcome (list WalletProof);
  s_meltProofs : Outcome MeltProofsResponse;
  s_checkStates : Outcome (list ProofState);
  s_createMeltQuote : Outcome MeltQuoteResponse;
  s_checkMeltQuote : Outcome MeltQuoteResponse;
  s_checkMintQuote : Outcome MintQuoteResponse;
  s_axiosGet : Outcome LnurlPay
}.

Definition networkDown {A : Type} : Outcome A := Threw (JsError "Network Error").

Definition offline : Script :=
  mkScript networkDown networkDown networkDown networkDown networkDown
    networkDown networkDown networkDown.

Definition scriptedEnv (s : Script) : Env :=
  mkEnv (fun ps _ _ => ps)
        (fun _ => 0)
        (fun _ _ _ _ => s_send s)
        (fun _ _ _ _ _ => s_mintProofs s)
        (fun _ _ _ _ => s_meltProofs s)
        (fun _ => s_checkStates s)
        (fun secret => secret)
        (fun _ _ => s_createMeltQuote s)
        (fun _ => s_checkMeltQuote s)
        (fun _ => s_checkMintQuote s)
        (fun _ _ => [mkMint "https://mint.example"; mkMint "https://mint2.example"])
        (fun _ => Some "cashuB"%string)
        (fun _ => s_axiosGet s)
        (fun _ => networkDown)
        "2024-01-01 00:00:00"
        (fun x => Z.to_N (Z.log2_up x)).

Definition satKeyset : Keyset := mkKeyset "00ad268c4d1f5826" "sat" true.

Definition proofOf (amount : Z) (secret : string) : WalletProof :=
  mkProof amount secret "02c0ffee" "00ad268c4d1f5826" false None.

Definition signedScript : Script :=
  mkScript (Threw (JsError "Error: outputs have already been signed before."))
    (Threw (JsError "Error: outputs have already been signed before."))
    networkDown networkDown networkDown networkDown
    (Returned (mkMintQuoteResponse "q1" "lnbc1u1example" MINT_PAID))
    networkDown.

(** The mint answers the check of the mint quote itself with the error. *)
Definition signedCheckScript : Script :=
  mkScript networkDown networkDown networkDown networkDown networkDown networkDown
    (Threw (JsError "Error: outputs have already been signed before."))
    networkDown.

(** A wallet holding 8 + 4 sat that has no counter for its keyset yet. *)
Definition freshState : WalletState :=
  initialState [satKeyset] "sat" "https://mint.example"
    [proofOf 8 "s1"; proofOf 4 "s2"].

(** A wallet holding 8 + 4 sat whose keyset counter stands at 5. *)
Definition fundedState : WalletState :=
  set_keysetCounters (fun _ => [mkKeysetCounter "00ad268c4d1f5826" 5])
    (initialState [satKeyset] "sat" "https://mint.example"
       [proofOf 8 "s1"; proofOf 4 "s2"]).

(** A payment that fails: [wallet.meltProofs] throws and the quote is
    still UNPAID when asked again. *)
Definition quoteOf8 : MeltQuoteResponse :=
  mkMeltQuoteResponse "q1" 8 0 MELT_UNPAID None.

Definition quoteOf6Fee2 : MeltQuoteResponse :=
  mkMeltQuoteResponse "q1" 6 2 MELT_UNPAID None.

Definition unpaidScript : Script :=
  mkScript networkDown networkDown (Threw (JsError "Lightning payment failed"))
    networkDown networkDown (Returned quoteOf8) networkDown networkDown.

(** A wallet holding one proof of 8 sat, its counter at 5, about to pay the
    invoice of a melt quote. *)
Definition payingWith (quote : MeltQuoteResponse) : WalletState :=
  set_payInvoiceData
    (fun d =>
       set_input (fun _ => mkPayInput "lnbc80n1example" None "" "")
         (set_invoice (Some (mkCleanInvoice 8 "" "lnbc80n1example"))
            (set_meltQuoteSlot (set_mq_response quote) d)))
    (set_keysetCounters (fun _ => [mkKeysetCounter "00ad268c4d1f5826" 5])
       (initialState [satKeyset] "sat" "https://mint.example" [proofOf 8 "s1"])).

Definition payingState : WalletState := payingWith quoteOf8.
Definition payingStateWithFee : WalletState := payingWith quoteOf6Fee2.

(** ** Reading the state *)

(** An error "whose message contains [outputs have already been signed]". *)
Definition isOutputsSignedError (e : Thrown) : bool :=
  match e with
  | JsError message => Str.includes outputsSignedMessage message
  | JsThrownString _ => false
  end.

(** A proof without the store's bookkeeping fields. *)
Definition proofCore (p : WalletProof) : Z * string * string * string :=
  (p_amount p, p_secret p, p_C p, p_id p).

(** The proofs held by the store, bookkeeping aside: equal lists mean that
    no proof was added or removed. *)
Definition storedProofs (st : WalletState) : list (Z * string * string * string) :=
  map proofCore (proofs st).

(** A stored proof reserved under a quote id. *)
Definition reservedUnder (quote : string) (p : WalletProof) : bool :=
  p_reserved p
  && match p_quote p with
     | Some q => String.eqb q quote
     | None => false
     end.

Definition hasQuote (quote : string) (i : InvoiceHistory) : bool :=
  String.eqb (inv_quote i) quote.

(** The amount a payload asks of its mint, and the amounts of a list of
    payloads added up. *)
Definition amountOf (mp : Mint * MeltQuotePayload) : Z :=
  match mqp_mpp_amount (snd mp) with
  | Some r => roundedZ r
  | None => 0
  end.

Definition total (payloads : list (Mint * MeltQuotePayload)) : Z :=
  sumZ (map amountOf payloads).

Definition sumQ (l : list Q) : Q := fold_right Qplus 0%Q l.

(** The amounts of proofs, added as integers. *)
Definition sumAmounts (ps : list WalletProof) : Z := sumZ (map p_amount ps).

(** What one iteration of the allocation may lose to rounding: the
    product and the sum are each rounded once, at a magnitude of at most
    [invoice + 1]. *)
Definition stepError (invoiceAmount : Z) : Q :=
  (inject_Z (2 * invoiceAmount + 2) * pow2 (-53))%Q.

(** The loop invariant of the allocation in binary64, after [steps]
    iterations over weights whose values add up to [W]: the carry is a
    finite number and a rounding residual; the retained partials and the
    carry make up [invoice * W] to within [steps] rounding errors; every
    retained partial is a positive integer. *)
Definition allocated (invoiceAmount : Z) (W : Q) (steps : nat)
  (acc : list (Mint * MeltQuotePayload) * float) : Prop :=
  F64.finite (snd acc) = true
  /\ (- (1 # 2) <= F64.value (snd acc) < 1 # 2)%Q
  /\ (inject_Z (total (fst acc)) + F64.value (snd acc)
        - inject_Z invoiceAmount * W
      <= inject_Z (Z.of_nat steps) * stepError invoiceAmount)%Q
  /\ (inject_Z invoiceAmount * W
        - (inject_Z (total (fst acc)) + F64.value (snd acc))
      <= inject_Z (Z.of_nat steps) * stepError invoiceAmount)%Q
  /\ Forall (fun mp => exists z, mqp_mpp_amount (snd mp) = Some (RInt z) /\ 0 < z)
       (fst acc).

Definition twoMints : list Mint :=
  [mkMint "https://mint.example"; mkMint "https://mint2.example"].

Definition threeMints : list Mint :=
  twoMints ++ [mkMint "https://mint3.example"].

(** ** The blocking latch

    What the session's [blocking] latch promises of a quote action whose
    error slot is [errorOf]: a run that finds the latch set throws
    "already processing" and leaves the state, the request log with it,
    untouched; any other run ends with the latch released and, when it
    throws, with the error stored in the slot. *)
Definition latchContract {A : Type} (action : M A)
  (errorOf : WalletState -> option Thrown) : Prop :=
  forall st : WalletState,
    (blocking (payInvoiceData st) = true ->
     action st = (Threw (JsError "already processing an melt quote."), st))
    /\ (blocking (payInvoiceData st) = false ->
        let '(r, st') := action st in
        blocking (payInvoiceData st') = false
        /\ forall e, r = Threw e -> errorOf st' = Some e).

(** ** The legacy-keyset selector *)

(** One step of [Array.prototype.sort] with the comparator
    [(a, b) => b.amount - a.amount]: the proof goes in front of the first
    proof that is not larger, so that proofs of equal amount keep their
    order (the sort is stable). *)
Fixpoint insertByAmount (p : WalletProof) (l : list WalletProof) : list WalletProof :=
  match l with
  | [] => [p]
  | q :: l' =>
      if p_amount q <=? p_amount p then p :: q :: l'
      else q :: insertByAmount p l'
  end.

(** [base64Proofs.sort((a, b) => b.amount - a.amount)] *)
Definition sortByAmountDesc (l : list WalletProof) : list WalletProof :=
  fold_right insertByAmount [] l.

(** The loop of [coinSelectSpendBase64] over the sorted proofs, with the
    running [sum] and the proofs selected so far; [[]] when the loop ends
    without reaching the amount. The sum is a number: each addition is
    rounded, and [sum >= amount] compares numbers. *)
Fixpoint selectUntil (amount : Z) (sum : float)
  (selectedProofs rest : list WalletProof) : list WalletProof :=
  match rest with
  | [] => []
  | proof :: rest' =>
      let sum := (sum + F64.ofZ (p_amount proof))%float in
      let selectedProofs := selectedProofs ++ [proof] in
      if (F64.ofZ amount <=? sum)%float then selectedProofs
      else selectUntil amount sum selectedProofs rest'
  end.

Definition isBase64Proof (p : WalletProof) : bool :=
  negb (Str.startsWith "00" (p_id p)).

Definition coinSelectSpendBase64 (proofs_ : list WalletProof) (amount : Z)
  : list WalletProof :=
  let base64Proofs := filter isBase64Proof proofs_ in
  match base64Proofs with
  | [] => []
  | _ :: _ => selectUntil amount 0%float [] (sortByAmountDesc base64Proofs)
  end.

(** ** Locked sends *)

(** [sendToLock]; [walletSendTo] is
    [wallet.send(amount, proofs, { pubkey })] of the cashu-ts wallet. *)
Definition sendToLock (env : Env)
  (walletSendTo : Z -> list WalletProof -> string
                  -> Outcome (list WalletProof * list WalletProof))
  (proofs_ : list WalletProof) (amount : Z) (receiverPubkey : string)
  : M (list WalletProof * list WalletProof) :=
  spendable <- liftOutcome (spendableProofs proofs_ amount) ;;
  let proofsToSend := coinSelect env spendable amount true in
  '(keepProofs, sendProofs) <-
    call ReqSwap (walletSendTo amount proofsToSend receiverPubkey) ;;
  addProofs keepProofs ;;
  removeProofs proofsToSend ;;
  ret (keepProofs, sendProofs).

(** ** Checking invoices *)

(** [this.invoiceHistory.find((i) => i.quote === quote)] *)
Definition findInvoice (quote : string) (h : list InvoiceHistory)
  : option InvoiceHistory :=
  find (fun i => String.eqb (inv_quote i) quote) h.

Definition mintQuoteStateName (s : MintQuoteState) : string :=
  match s with
  | MINT_UNPAID => "UNPAID"
  | MINT_PAID => "PAID"
  | MINT_ISSUED => "ISSUED"
  end.

(** [mintStore.proofs.filter((p) => p.quote === quote)] *)
Definition proofsOfQuote (quote : string) (ps : list WalletProof) : list WalletProof :=
  filter (fun p => match p_quote p with
                   | Some q => String.eqb q quote
                   | None => false
                   end) ps.

(** The mints an invoice names are reached through [new CashuMint(url)];
    [activateMintUrl] belongs to the mints store. Both are parameters of
    the two checks below. *)
Record MintAccess : Type := mkMintAccess {
  (** [new CashuMint(url).checkMintQuote(quote)] *)
  checkMintQuoteAt : string -> string -> Outcome MintQuoteResponse;
  (** [new CashuMint(url).checkMeltQuote(quote)] *)
  checkMeltQuoteAt : string -> string -> Outcome MeltQuoteResponse;
  (** [mintStore.activateMintUrl(url, false, false, unit)] *)
  activateMintUrl : string -> option string -> M unit
}.

(** [checkInvoice]; [None] is the [undefined] of the bare [return]. *)
Definition checkInvoice (env : Env) (access : MintAccess) (quote : string)
  : M (option (list WalletProof)) :=
  st <- get ;;
  match findInvoice quote (invoiceHistory st) with
  | None => throw (JsError "invoice not found")
  | Some invoice_ =>
      tryCatch
        (resp <- call (ReqCheckMintQuote (inv_quote invoice_))
                   (checkMintQuoteAt access (inv_mint invoice_) (inv_quote invoice_)) ;;
         match mintq_state resp with
         | MINT_ISSUED => setInvoicePaid (inv_quote invoice_) ;; ret None
         | MINT_PAID =>
             activateMintUrl access (inv_mint invoice_) (inv_unit invoice_) ;;
             proofs_ <- mint env (inv_amount invoice_) (inv_quote invoice_) ;;
             ret (Some proofs_)
         | MINT_UNPAID =>
             throw (JsError ("invoice state not paid: "
                             ++ mintQuoteStateName (mintq_state resp)))
         end)
        (fun error => throw error)
  end.

Definition checkOutgoingInvoice (env : Env) (access : MintAccess) (quote : string)
  : M unit :=
  st <- get ;;
  match findInvoice quote (invoiceHistory st) with
  | None => throw (JsError "invoice not found")
  | Some invoice_ =>
      let proofs_ := proofsOfQuote quote (proofs st) in
      tryCatch
        (mintQuote <- call (ReqCheckMeltQuote quote)
                        (checkMeltQuoteAt access (inv_mint invoice_) quote) ;;
         match mq_state mintQuote with
         | MELT_PENDING => throw (JsError "invoice not paid yet.")
         | MELT_UNPAID =>
             setReserved proofs_ false None ;;
             removeOutgoingInvoiceFromHistory quote
         | MELT_PAID =>
             activateMintUrl access (inv_mint invoice_) (inv_unit invoice_) ;;
             spentProofs <- checkProofsSpendable env proofs_ true ;;
             (match spentProofs with
              | Some spent =>
                  if Nat.eqb (List.length spent) (List.length proofs_)
                  then removeProofs proofs_
                  else ret tt
              | None => ret tt
              end) ;;
             setInvoicePaid quote
         end)
        (fun error => throw error)
  end.

(** ** Pending tokens *)

(** [t.status === "pending" && t.amount < 0 && t.token] *)
Definition pendingOutgoing (t : HistoryToken) : bool :=
  match ht_status t with pending => true | paid => false end
  && (ht_amount t <? 0)
  && match ht_token t with
     | Some tok => negb (String.eqb tok "")
     | None => false
     end.

Definition tokenOf (t : HistoryToken) : string :=
  match ht_token t with Some tok => tok | None => "" end.

(** The loop of [checkPendingTokens] over the reversed history: [i] counts
    the checks started so far; the result lists the tokens for which
    [checkTokenSpendable] is started, in that order. *)
Fixpoint pendingLoop (i : nat) (l : list HistoryToken) : list string :=
  match l with
  | [] => []
  | t :: rest =>
      if (5 <=? i)%nat then []
      else if pendingOutgoing t then tokenOf t :: pendingLoop (S i) rest
      else pendingLoop i rest
  end.

(** [checkPendingTokens]: the tokens it starts a check for (the checks are
    not awaited). *)
Definition checkPendingTokens (st : WalletState) : list string :=
  pendingLoop 0 (rev (historyTokens st)).

(** ** Decoding a request *)

Module Text.

(** [s.slice(n)] *)
Fixpoint drop (n : nat) (s : string) : string :=
  match n, s with
  | S k, String _ s' => drop k s'
  | _, _ => s
  end.

(** The rest of [s] after the prefix [p], when [s] starts with [p]. *)
Fixpoint afterPrefix (p s : string) : option string :=
  match p, s with
  | EmptyString, _ => Some s
  | String a p', String b s' =>
      if Ascii.eqb a b then afterPrefix p' s' else None
  | String _ _, EmptyString => None
  end.

(** The suffix of [s] that starts at the first occurrence of [needle]:
    [s.slice(s.indexOf(needle))] when [indexOf] is not [-1]. *)
Fixpoint fromFirst (needle s : string) : option string :=
  if String.prefix needle s then Some s
  else match s with
       | EmptyString => None
       | String _ s' => fromFirst needle s'
       end.

(** The longest prefix without ["&"]: what [([^&]+)] and [split("&")[0]]
    take. *)
Fixpoint untilAmpersand (s : string) : string :=
  match s with
  | EmptyString => EmptyString
  | String c s' =>
      if Ascii.eqb c "&" then EmptyString else String c (untilAmpersand s')
  end.

(** [s.match(/lightning=([^&]+)/)]: the capture of the leftmost match,
    that is of the first ["lightning="] followed by a character other than
    ["&"]. *)
Fixpoint matchLightningParam (s : string) : option string :=
  match s with
  | EmptyString => None
  | String _ s' =>
      match afterPrefix "lightning=" s with
      | Some rest =>
          match untilAmpersand rest with
          | EmptyString => matchLightningParam s'
          | String _ _ as capture => Some capture
          end
      | None => matchLightningParam s'
      end
  end.

(** The character class [[\w.+-~_]]: the range from ["+"] to ["~"]
    (codes 43 to 126), which holds the word characters, the dot and the
    underscore. *)
Definition inAddressClass (c : ascii) : bool :=
  let n := nat_of_ascii c in ((43 <=? n) && (n <=? 126))%nat.

(** [s.match(/[\w.+-~_]+@[\w.+-~_]/)] as a truth value: somewhere a
    character of the class, ["@"], a character of the class. *)
Fixpoint matchesAddress (s : string) : bool :=
  match s with
  | String a (String b (String c _) as t) =>
      (inAddressClass a && Ascii.eqb b "@" && inAddressClass c)
      || matchesAddress t
  | _ => false
  end.

End Text.

(** Where [decodeRequest] sends a request, and with which string. *)
Inductive Route : Type :=
| RouteBolt11 (request : string)          (* [handleBolt11Invoice] *)
| RouteLnurlPay (request : string)        (* [lnurlPayFirst] *)
| RouteCashuToken (tokensBase64 : string) (* [handleCashuToken] *)
| RouteP2PK (pubkey : string)             (* [handleP2PK] *)
| RouteMintUrl (url : string)             (* [mintStore.addMintData] *)
| RoutePaymentRequest (request : string)  (* [handlePaymentRequest] *)
| RouteNone.

(** The [if] / [else if] chain of [decodeRequest] on the trimmed request;
    [isValidPubkey] is [p2pkStore.isValidPubkey]. *)
Definition routeRequest (isValidPubkey : string -> bool) (req : string) : Route :=
  if Str.startsWith "lnbc" (Str.toLowerCase req) then RouteBolt11 req
  else if Str.startsWith "lightning:" (Str.toLowerCase req) then
    RouteBolt11 (Text.drop 10 req)
  else if Str.startsWith "bitcoin:" req then
    match Text.matchLightningParam req with
    | Some lightningInvoice => RouteBolt11 lightningInvoice
    | None => RouteNone
    end
  else if Str.startsWith "lnurl:" (Str.toLowerCase req) then
    RouteLnurlPay (Text.drop 6 req)
  else if Str.includes "lightning=lnurl1" req then
    match Str.split "lightning=" req with
    | _ :: piece :: _ => RouteLnurlPay (Text.untilAmpersand piece)
    | _ => RouteNone
    end
  else if Str.startsWith "lnurl1" (Str.toLowerCase req)
          || Text.matchesAddress req then
    RouteLnurlPay req
  else if Str.startsWith "cashuA" req || Str.startsWith "cashuB" req then
    RouteCashuToken req
  else if Str.includes "token=cashu" req then
    match Text.fromFirst "token=cashu" req with
    | Some suffix => RouteCashuToken (Text.drop 6 suffix)
    | None => RouteNone
    end
  else if isValidPubkey req then RouteP2PK req
  else if Str.startsWith "http" req then RouteMintUrl req
  else if Str.startsWith "creqA" req then RoutePaymentRequest req
  else RouteNone.

(** The handlers of [decodeRequest] that live in other stores or need the
    BOLT-11 decoder, and [String.prototype.trim]. *)
Record Handlers : Type := mkHandlers {
  trim : string -> string;
  isValidPubkey : string -> bool;
  handleBolt11Invoice : M unit;
  handleCashuToken : string -> M unit;
  handleP2PK : string -> M unit;
  addMintData : string -> M unit;
  handlePaymentRequest : string -> M unit;
  closeDialogs : M unit
}.

Definition set_in_request (r : string) (i : PayInput) : PayInput :=
  mkPayInput r (in_amount i) (in_comment i) (in_quote i).

Definition decodeRequest (env : Env) (hs : Handlers) (req : string) : M unit :=
  let req := trim hs req in
  modify (set_payInvoiceData (set_input (set_in_request req))) ;;
  (match routeRequest (isValidPubkey hs) req with
   | RouteBolt11 request =>
       modify (set_payInvoiceData (set_input (set_in_request request))) ;;
       handleBolt11Invoice hs
   | RouteLnurlPay request =>
       modify (set_payInvoiceData (set_input (set_in_request request))) ;;
       lnurlPayFirst env request
   | RouteCashuToken tokensBase64 => handleCashuToken hs tokensBase64
   | RouteP2PK pubkey => handleP2PK hs pubkey
   | RouteMintUrl url => addMintData hs url
   | RoutePaymentRequest request => handlePaymentRequest hs request
   | RouteNone => ret tt
   end) ;;
  closeDialogs hs.

(** ** Reading the state, continued *)

(** Amounts in falling order: no proof is smaller than one after it. *)
Definition fallingAmounts : list WalletProof -> Prop :=
  StronglySorted (fun a b => p_amount b <= p_amount a).

(** No counter is lost and none is lower afterwards. *)
Definition countersGrow (before after : list KeysetCounter) : Prop :=
  forall id c, counterOf id before = Some c ->
               exists c', counterOf id after = Some c' /\ c <= c'.

(** A mint that answers a swap with one proof to keep (7 sat) and two to
    send (1 + 4 sat). *)
Definition swapScript : Script :=
  mkScript (Returned ([proofOf 7 "k1"], [proofOf 1 "n1"; proofOf 4 "n2"]))
    networkDown networkDown networkDown networkDown networkDown networkDown
    networkDown.

(** The mint reports the first of two proofs SPENT. *)
Definition spentScript : Script :=
  mkScript networkDown networkDown networkDown
    (Returned [mkProofState "s2" UNSPENT; mkProofState "s1" SPENT])
    networkDown networkDown networkDown networkDown.

(** A payment that goes through with 1 sat of change. *)
Definition paidWithChange : MeltProofsResponse :=
  mkMeltProofsResponse (mkMeltQuoteResponse "q1" 6 2 MELT_PAID None) [proofOf 1 "c1"].

Definition paidScript : Script :=
  mkScript networkDown networkDown (Returned paidWithChange) networkDown networkDown
    networkDown networkDown networkDown.

(** The request a multi-path payload is sent with, and a state after a
    list of requests that changed nothing else. *)
Definition requestOf (payload : Mint * MeltQuotePayload) : Request :=
  ReqCreateMeltQuote (mint_url (fst payload)) (mqp_request (snd payload)).

Definition logged (rs : list Request) (st : WalletState) : WalletState :=
  fold_left (fun s r => log_request r s) rs st.

(** The invoice amount [multiPathMeltQuotes] reads: [invoice?.sat], 0 for
    what [!invoiceAmount] rejects. *)
Definition invoiceSat (st : WalletState) : Z :=
  match invoice (payInvoiceData st) with
  | Some i => ci_sat i
  | None => 0
  end.

(** An environment in which every bech32 string decodes to one URL. *)
Definition decodingTo (url : string) (env : Env) : Env :=
  mkEnv (selectProofsToSend env) (walletFees env) (walletSend env)
    (walletMintProofs env) (walletMeltProofs env) (walletCheckProofsStates env)
    (hashToCurveHex env) (apiCreateMeltQuote env) (apiCheckMeltQuote env)
    (apiCheckMintQuote env) (getMultiMints env) (serializeProofs env)
    (axiosGet env) (fun _ => Returned url) (currentDateStr env) (ceilLog2 env).

(** An LNURL endpoint that answers with a pay request of 1 to 100 sat. *)
Definition payRequestScript : Script :=
  mkScript networkDown networkDown networkDown networkDown networkDown networkDown
    networkDown
    (Returned (mkLnurlPay "" "http://example.onion/cb" 1000 100000 "payRequest")).

(** Access to the mints in which the invoice's mint is the active one
    already: activating it changes nothing. *)
Definition scriptedAccess (s : Script) : MintAccess :=
  mkMintAccess (fun _ _ => s_checkMintQuote s) (fun _ _ => s_checkMeltQuote s)
    (fun _ _ => ret tt).

(** A wallet whose one proof is reserved for the pending payment of quote
    [q1]. *)
Definition pendingPaymentState : WalletState :=
  snd (addOutgoingPendingInvoiceToHistory (scriptedEnv offline) quoteOf8
         [proofOf 8 "s1"] payingState).

(** A wallet waiting for the invoice of mint quote [q1] to be paid. *)
Definition awaitingInvoiceState : WalletState :=
  set_invoiceHistory
    (fun _ => [mkInvoice 8 "lnbc80n1example" "q1" "" "2024-01-01 00:00:00" pending
                 "https://mint.example" (Some "sat"%string)])
    fundedState.

Definition issuedScript : Script :=
  mkScript networkDown networkDown networkDown networkDown networkDown networkDown
    (Returned (mkMintQuoteResponse "q1" "lnbc80n1example" MINT_ISSUED)) networkDown.

(** The mint says that quote [q1] is PAID and that proof [s1] is spent. *)
Definition settledScript : Script :=
  mkScript networkDown networkDown networkDown
    (Returned [mkProofState "s1" SPENT]) networkDown
    (Returned (mkMeltQuoteResponse "q1" 8 0 MELT_PAID None)) networkDown networkDown.

(** * Properties *)

Unset Implicit Arguments.

(** ** binary64: what the rounding of the engine's numbers does *)

Lemma digits2_pos_size (p : positive) : digits2_pos p = Pos.size p.
Proof. induction p as [p IH|p IH|]; cbn; now rewrite ?IH. Qed.

Lemma digits2_bounds (p : positive) :
  2 ^ (Zpos (digits2_pos p) - 1) <= Zpos p < 2 ^ Zpos (digits2_pos p).
Proof.
  rewrite digits2_pos_size. split.
  - pose proof (Pos.size_le p) as H.
    assert (H2 : 2 ^ Zpos (Pos.size p) <= 2 * Zpos p).
    { change (2 * Zpos p) with (Zpos p~0). rewrite <- Pos2Z.inj_pow. exact H. }
    replace (Zpos (Pos.size p)) with (Z.succ (Zpos (Pos.size p) - 1)) in H2 by lia.
    rewrite Z.pow_succ_r in H2 by lia. lia.
  - pose proof (Pos.size_gt p) as H. rewrite <- Pos2Z.inj_pow. exact H.
Qed.

(** The number of binary digits is determined by the bounds. *)
Lemma digits_unique (p : positive) (d : Z) :
  2 ^ (d - 1) <= Zpos p < 2 ^ d -> 0 < d -> Zpos (digits2_pos p) = d.
Proof.
  intros [Hlo Hhi] Hd. pose proof (digits2_bounds p) as [Hlo' Hhi'].
  set (d' := Zpos (digits2_pos p)) in *.
  assert (0 < d') by (unfold d'; lia).
  destruct (Z.lt_trichotomy d' d) as [Hlt|[Heq|Hgt]]; [|exact Heq|].
  - assert (2 ^ d' <= 2 ^ (d - 1)) by (apply Z.pow_le_mono_r; lia). lia.
  - assert (2 ^ d <= 2 ^ (d' - 1)) by (apply Z.pow_le_mono_r; lia). lia.
Qed.

Lemma iter_pos_iter {A : Type} (f : A -> A) (p : positive) (x : A) :
  iter_pos f p x = Pos.iter f x p.
Proof.
  revert x. induction p as [p IH|p IH|]; intros x; cbn.
  - rewrite !IH. rewrite <- !Pos.iter_swap. reflexivity.
  - rewrite !IH. reflexivity.
  - reflexivity.
Qed.

Lemma shr_1_shifted (M j : Z) :
  0 <= M -> 0 <= j -> shr_1 (shifted M j) = shifted M (j + 1).
Proof.
  intros HM Hj. unfold shifted, shr_1.
  assert (Hdiv : M / 2 ^ (j + 1) = M / 2 ^ j / 2).
  { rewrite Z.pow_add_r by lia. rewrite Z.div_div by lia. reflexivity. }
  assert (Hr : rbit M (j + 1) = Z.odd (M / 2 ^ j)).
  { unfold rbit. destruct (Z.eqb_spec (j + 1) 0); [lia|].
    replace (j + 1 - 1) with j by lia.
    rewrite Z.testbit_odd, Z.shiftr_div_pow2 by lia. reflexivity. }
  assert (Hs : sbit M (j + 1) = rbit M j || sbit M j).
  { unfold sbit, rbit. destruct (Z.eqb_spec (j + 1) 0); [lia|].
    replace (j + 1 - 1) with j by lia.
    destruct (Z.eqb_spec j 0) as [->|Hj0].
    - cbn. rewrite Z.mod_1_r. reflexivity.
    - assert (Hsplit : M mod 2 ^ j
                       = 2 ^ (j - 1) * Z.b2z (Z.testbit M (j - 1)) + M mod 2 ^ (j - 1)).
      { rewrite Z.testbit_spec' by lia.
        replace (2 ^ j) with (2 ^ (j - 1) * 2)
          by (rewrite Z.mul_comm, <- Z.pow_succ_r by lia; f_equal; lia).
        rewrite Z.rem_mul_r by lia. lia. }
      pose proof (Z.mod_pos_bound M (2 ^ (j - 1)) ltac:(apply Z.pow_pos_nonneg; lia)).
      assert (0 < 2 ^ (j - 1)) by (apply Z.pow_pos_nonneg; lia).
      destruct (Z.testbit M (j - 1)); cbn [Z.b2z orb] in *.
      + destruct (Z.eqb_spec (M mod 2 ^ j) 0); [nia | reflexivity].
      + rewrite Hsplit. f_equal. f_equal. lia. }
  rewrite Hdiv, Hr, Hs.
  assert (0 <= M / 2 ^ j) by (apply Z.div_pos; [lia | apply Z.pow_pos_nonneg; lia]).
  destruct (M / 2 ^ j) as [|p|p] eqn:E; [reflexivity| |lia].
  destruct p as [p|p|]; cbn [Z.odd]; f_equal.
  - rewrite Pos2Z.inj_xI. rewrite Z.mul_comm, Z.div_add_l by lia. cbn. lia.
  - rewrite Pos2Z.inj_xO. rewrite Z.mul_comm, Z.div_mul by lia. reflexivity.
Qed.

Lemma shifted_0 (M : Z) : shifted M 0 = Build_shr_record M false false.
Proof. unfold shifted, rbit, sbit. cbn. now rewrite Z.div_1_r. Qed.

Lemma iter_shr_1 (M : Z) (n : positive) :
  0 <= M -> iter_pos shr_1 n (Build_shr_record M false false) = shifted M (Zpos n).
Proof.
  intros HM. rewrite iter_pos_iter, <- shifted_0.
  induction n as [|n IH] using Pos.peano_ind.
  - change (shr_1 (shifted M 0) = shifted M 1). now rewrite shr_1_shifted by lia.
  - rewrite Pos.iter_succ, IH, shr_1_shifted by lia. f_equal. lia.
Qed.

Lemma rne_spec (M n : Z) :
  0 <= M -> 0 <= n ->
  (rne M n = M / 2 ^ n \/ rne M n = M / 2 ^ n + 1)
  /\ (M mod 2 ^ n = 0 -> rne M n = M / 2 ^ n)
  /\ Z.abs (2 * (rne M n * 2 ^ n - M)) <= 2 ^ n.
Proof.
  intros HM Hn. unfold rne, shifted, loc_of_shr_record.
  assert (Hpow : 0 < 2 ^ n) by (apply Z.pow_pos_nonneg; lia).
  pose proof (Z.div_mod M (2 ^ n) ltac:(lia)) as Hdm.
  pose proof (Z.mod_pos_bound M (2 ^ n) Hpow) as Hrem.
  set (q := M / 2 ^ n) in *. set (rem := M mod 2 ^ n) in *.
  destruct (Z.eqb_spec n 0) as [->|Hn0].
  { unfold rbit, sbit. cbn [Z.eqb]. cbn [round_nearest_even].
    change (2 ^ 0) with 1 in *. repeat split; try tauto; lia. }
  assert (Hhalf : 2 ^ n = 2 * 2 ^ (n - 1))
    by (rewrite <- Z.pow_succ_r by lia; f_equal; lia).
  assert (Hhpos : 0 < 2 ^ (n - 1)) by (apply Z.pow_pos_nonneg; lia).
  assert (Hbit : rem = 2 ^ (n - 1) * Z.b2z (Z.testbit M (n - 1)) + M mod 2 ^ (n - 1)).
  { unfold rem. rewrite Z.testbit_spec' by lia. rewrite Hhalf at 1.
    rewrite (Z.mul_comm 2), Z.rem_mul_r by lia. lia. }
  pose proof (Z.mod_pos_bound M (2 ^ (n - 1)) Hhpos) as Hlow.
  unfold rbit, sbit. destruct (Z.eqb_spec n 0); [lia|].
  destruct (Z.testbit M (n - 1)); cbn [Z.b2z] in Hbit;
    destruct (Z.eqb_spec (M mod 2 ^ (n - 1)) 0) as [Hz|Hz];
    cbn [negb round_nearest_even].
  - destruct (Z.even q); repeat split; try tauto; try lia.
  - repeat split; try tauto; try lia.
  - repeat split; try tauto; try lia.
  - repeat split; try tauto; try lia.
Qed.

(** *** Values *)

Lemma pow2_pos (e : Z) : (0 < pow2 e)%Q.
Proof. unfold pow2. apply Qpower_0_lt. reflexivity. Qed.

Lemma pow2_add (a b : Z) : (pow2 (a + b) == pow2 a * pow2 b)%Q.
Proof. unfold pow2. apply Qpower_plus. discriminate. Qed.

Lemma pow2_Z (e : Z) : 0 <= e -> (pow2 e == inject_Z (2 ^ e))%Q.
Proof. intros H. unfold pow2. now rewrite Zpower_Qpower. Qed.

Lemma pow2_succ (e : Z) : (pow2 (e + 1) == 2 * pow2 e)%Q.
Proof. rewrite pow2_add. unfold pow2 at 2. cbn. ring. Qed.

Lemma fexp64 (x : Z) : fexp prec emax x = Z.max (x - 53) (-1074).
Proof. reflexivity. Qed.

Lemma shr_exact (M e n : Z) :
  0 <= M -> 0 <= n ->
  shr (Build_shr_record M false false) e n = (shifted M n, e + n).
Proof.
  intros HM Hn. unfold shr. destruct n as [|p|p]; [| |lia].
  - rewrite shifted_0. f_equal. lia.
  - now rewrite iter_shr_1.
Qed.

(** The last step of a rounding: the mantissa [m1] at the exponent [E] of
    the last bit kept, renormalised when the rounding carried; infinity
    when the exponent is too large. *)
Lemma round_finish (sx : bool) (m1 E : Z) :
  0 <= m1 <= 2 ^ 53 -> -1074 <= E -> (E = -1074 \/ 2 ^ 52 <= m1) ->
  let R := let '(mrs, e2) := shr_fexp prec emax m1 E loc_Exact in
           match shr_m mrs with
           | Z0 => S754_zero sx
           | Zpos m => if e2 <=? emax - prec then S754_finite sx m e2
                       else S754_infinity sx
           | Zneg _ => S754_nan
           end in
  valid_binary R = true /\ SFshape sx m1 R
  /\ (E <= 970 ->
      SFfinite R = true /\ SFsigned sx R
      /\ (SFvalue R == sgn sx * inject_Z m1 * pow2 E)%Q).
Proof.
  intros Hm HE Hreg. unfold shr_fexp. cbn [shr_record_of_loc].
  destruct m1 as [|p|p]; [| |lia].
  - cbn [Zdigits2]. rewrite fexp64.
    assert (Hn : Z.max (0 + E - 53) (-1074) - E <= 0) by lia.
    unfold shr. destruct (Z.max (0 + E - 53) (-1074) - E) as [|n|n]; [|lia|];
      cbn; repeat split; ring.
  - cbn [Zdigits2]. rewrite fexp64.
    pose proof (digits2_bounds p) as Hd.
    set (d1 := Zpos (digits2_pos p)) in *.
    assert (Hd1 : 0 < d1) by (unfold d1; lia).
    destruct (Z.eq_dec (Zpos p) (2 ^ 53)) as [Hcarry|Hnc].
    + (* the rounding carried: one more shift, exact *)
      assert (Hd54 : d1 = 54).
      { apply digits_unique; [|lia]. rewrite Hcarry. cbn. lia. }
      rewrite Hd54. replace (Z.max (54 + E - 53) (-1074) - E) with 1 by lia.
      rewrite shr_exact by lia. rewrite Hcarry. cbv zeta.
      change (shr_m (shifted (2 ^ 53) 1)) with (Zpos (Z.to_pos (2 ^ 52))).
      destruct (Z.leb_spec (E + 1) (emax - prec)) as [Hle|Hgt].
      * split.
        { cbn [valid_binary]. unfold bounded, canonical_mantissa.
          rewrite fexp64.
          change (Zpos (digits2_pos (Z.to_pos (2 ^ 52)))) with 53.
          apply andb_true_intro.
          split; [apply Z.eqb_eq; lia | apply Z.leb_le; exact Hle]. }
        split; [cbn; split; [reflexivity | lia]|].
        intros _. split; [reflexivity|]. split; [reflexivity|].
        cbn [SFvalue]. rewrite pow2_succ.
        change (inject_Z (Zpos (Z.to_pos (2 ^ 52)))) with (inject_Z (2 ^ 52)).
        change (inject_Z (2 ^ 53)) with (2 * inject_Z (2 ^ 52))%Q. ring.
      * change (emax - prec) with 971 in Hgt.
        split; [reflexivity|]. split; [reflexivity|]. intros Hsmall. lia.
    + assert (Hd53 : d1 <= 53).
      { destruct (Z.le_gt_cases d1 53) as [H|H]; [exact H|].
        assert (2 ^ 53 <= 2 ^ (d1 - 1)) by (apply Z.pow_le_mono_r; lia). lia. }
      assert (Hn2 : Z.max (d1 + E - 53) (-1074) - E = 0).
      { destruct Hreg as [->|Hbig]; [lia|].
        assert (d1 = 53); [|lia].
        destruct (Z.le_gt_cases 53 d1) as [H|H]; [lia|].
        assert (2 ^ d1 <= 2 ^ 52) by (apply Z.pow_le_mono_r; lia). lia. }
      rewrite Hn2. cbn [shr shr_m].
      destruct (Z.leb_spec E (emax - prec)) as [Hle|Hgt].
      * split.
        { cbn [valid_binary]. unfold bounded, canonical_mantissa.
          rewrite fexp64. fold d1.
          apply andb_true_intro.
          split; [apply Z.eqb_eq; lia | apply Z.leb_le; exact Hle]. }
        split; [cbn; split; [reflexivity | lia]|].
        intros _. split; [reflexivity|]. split; [reflexivity|].
        cbn [SFvalue]. reflexivity.
      * change (emax - prec) with 971 in Hgt.
        split; [reflexivity|]. split; [reflexivity|]. intros Hsmall. lia.
Qed.

(** What [binary_round_aux] returns on an exact mantissa: the mantissa
    rounded to nearest even at the exponent [fexp (digits + e)]. *)
Lemma binary_round_aux_spec (sx : bool) (m : positive) (e : Z) :
  let E := fexp prec emax (Zpos (digits2_pos m) + e) in
  e <= E ->
  let R := binary_round_aux prec emax sx (Zpos m) e loc_Exact in
  valid_binary R = true /\ SFshape sx (rne (Zpos m) (E - e)) R
  /\ (E <> -1074 -> 2 ^ 52 <= rne (Zpos m) (E - e))
  /\ (Zpos (digits2_pos m) + e <= 1023 ->
      SFfinite R = true /\ SFsigned sx R
      /\ (SFvalue R == sgn sx * inject_Z (rne (Zpos m) (E - e)) * pow2 E)%Q).
Proof.
  intros E HeE R.
  assert (Heq : R = let '(mrs, e2) :=
                      shr_fexp prec emax (rne (Zpos m) (E - e)) E loc_Exact in
                    match shr_m mrs with
                    | Z0 => S754_zero sx
                    | Zpos m => if e2 <=? emax - prec then S754_finite sx m e2
                                else S754_infinity sx
                    | Zneg _ => S754_nan
                    end).
  { subst R. unfold binary_round_aux.
    unfold shr_fexp at 1. cbn [shr_record_of_loc Zdigits2]. fold E.
    rewrite shr_exact by lia. replace (e + (E - e)) with E by lia.
    reflexivity. }
  rewrite Heq. clear Heq R.
  pose proof (digits2_bounds m) as Hd.
  set (d := Zpos (digits2_pos m)) in *.
  assert (Hd0 : 0 < d) by (unfold d; lia).
  assert (HE : E = Z.max (d + e - 53) (-1074)) by (unfold E; now rewrite fexp64).
  set (n := E - e) in *.
  destruct (rne_spec (Zpos m) n ltac:(lia) ltac:(lia)) as [Hq [_ _]].
  assert (Hpn : 0 < 2 ^ n) by (apply Z.pow_pos_nonneg; lia).
  assert (Hq0 : 0 <= Zpos m / 2 ^ n) by (apply Z.div_pos; lia).
  assert (Hqhi : Zpos m / 2 ^ n < 2 ^ 53).
  { apply Z.div_lt_upper_bound; [lia|].
    rewrite <- Z.pow_add_r by lia.
    assert (2 ^ d <= 2 ^ (n + 53)) by (apply Z.pow_le_mono_r; lia). lia. }
  assert (Hqlo : E = -1074 \/ 2 ^ 52 <= Zpos m / 2 ^ n).
  { destruct (Z.eq_dec E (-1074)) as [H|H]; [now left | right].
    assert (Hn : n = d - 53) by lia.
    apply Z.div_le_lower_bound; [lia|].
    rewrite <- Z.pow_add_r by lia. replace (n + 52) with (d - 1) by lia. lia. }
  assert (H1 : 0 <= rne (Zpos m) n <= 2 ^ 53) by lia.
  assert (H2 : -1074 <= E) by lia.
  assert (H3 : E = -1074 \/ 2 ^ 52 <= rne (Zpos m) n)
    by (destruct Hqlo as [H|H]; [now left | right; lia]).
  destruct (round_finish sx (rne (Zpos m) n) E H1 H2 H3) as [Hv [Hsh Hfin]].
  split; [exact Hv|]. split; [exact Hsh|].
  split; [intros Hne; destruct H3 as [H|H]; [contradiction | exact H]|].
  intros Hmax. apply Hfin. lia.
Qed.

(** *** Rounding, by value *)

Lemma pow2_split (F n : Z) : 0 <= n -> (pow2 F == pow2 (F - n) * inject_Z (2 ^ n))%Q.
Proof.
  intros Hn. rewrite <- pow2_Z by exact Hn. rewrite <- pow2_add.
  replace (F - n + n) with F by lia. reflexivity.
Qed.

Lemma pow2_le (a b : Z) : a <= b -> (pow2 a <= pow2 b)%Q.
Proof.
  intros H. replace b with (a + (b - a)) by lia. rewrite pow2_add.
  rewrite (pow2_Z (b - a)) by lia.
  assert (H1 : 0 < 2 ^ (b - a)) by (apply Z.pow_pos_nonneg; lia).
  assert (H2 : (1 <= inject_Z (2 ^ (b - a)))%Q).
  { change 1%Q with (inject_Z 1). rewrite <- Zle_Qle. lia. }
  pose proof (pow2_pos a). nra.
Qed.

Lemma pow2_lt (a b : Z) : a < b -> (pow2 a < pow2 b)%Q.
Proof.
  intros H. apply Qlt_le_trans with (pow2 (a + 1)).
  - rewrite pow2_succ. pose proof (pow2_pos a). lra.
  - apply pow2_le. lia.
Qed.

Lemma inject_Z_sub (x y : Z) : (inject_Z (x - y) == inject_Z x - inject_Z y)%Q.
Proof. unfold Z.sub. rewrite inject_Z_plus, inject_Z_opp. ring. Qed.

Lemma rne_nearestOnGrid (M n F : Z) :
  0 <= M -> 0 <= n ->
  nearestOnGrid (inject_Z M * pow2 (F - n)) F (rne M n).
Proof.
  intros HM Hn.
  destruct (rne_spec M n HM Hn) as [Hq [Hex Herr]].
  assert (Hpn : 0 < 2 ^ n) by (apply Z.pow_pos_nonneg; lia).
  pose proof (Z.div_mod M (2 ^ n) ltac:(lia)) as Hdm.
  pose proof (Z.mod_pos_bound M (2 ^ n) Hpn) as Hrem.
  pose proof (pow2_pos (F - n)) as Hc.
  set (c := pow2 (F - n)) in *.
  assert (HF : (pow2 F == c * inject_Z (2 ^ n))%Q) by (apply pow2_split; exact Hn).
  assert (Hcmp : forall X Y : Z, (inject_Z X * c <= inject_Z Y * c)%Q <-> X <= Y).
  { intros X Y. rewrite Zle_Qle. split; intros H; nra. }
  assert (Herr1 : (2 * (inject_Z (rne M n) * inject_Z (2 ^ n) - inject_Z M)
                   <= inject_Z (2 ^ n))%Q).
  { assert (HZ : 2 * (rne M n * 2 ^ n - M) <= 2 ^ n) by lia.
    rewrite Zle_Qle in HZ.
    rewrite inject_Z_mult, inject_Z_sub, inject_Z_mult in HZ. exact HZ. }
  assert (Herr2 : (2 * (inject_Z M - inject_Z (rne M n) * inject_Z (2 ^ n))
                   <= inject_Z (2 ^ n))%Q).
  { assert (HZ : 2 * (M - rne M n * 2 ^ n) <= 2 ^ n) by lia.
    rewrite Zle_Qle in HZ.
    rewrite inject_Z_mult, inject_Z_sub, inject_Z_mult in HZ. exact HZ. }
  split; [|split; [|split]].
  - rewrite HF. nra.
  - rewrite HF. nra.
  - intros G HG. rewrite HF in HG.
    assert (HG' : (inject_Z M * c <= inject_Z (G * 2 ^ n) * c)%Q)
      by (rewrite inject_Z_mult; lra).
    apply (proj1 (Hcmp _ _)) in HG'.
    destruct (Z.eq_dec (M mod 2 ^ n) 0) as [Hz|Hnz].
    + rewrite (Hex Hz). apply (Z.mul_le_mono_pos_r _ _ (2 ^ n)); lia.
    + assert (M / 2 ^ n < G) by (apply (Z.mul_lt_mono_pos_r (2 ^ n)); lia). lia.
  - intros G HG. rewrite HF in HG.
    assert (HG' : (inject_Z (G * 2 ^ n) * c <= inject_Z M * c)%Q)
      by (rewrite inject_Z_mult; lra).
    apply (proj1 (Hcmp _ _)) in HG'.
    assert (G < M / 2 ^ n + 1) by (apply (Z.mul_lt_mono_pos_r (2 ^ n)); lia). lia.
Qed.

Lemma roundsTo_eq (v v' : Q) (R : spec_float) :
  (v == v')%Q -> roundsTo v R -> roundsTo v' R.
Proof.
  intros Hv [H1 [H2 H3]]. split; [exact H1|]. split; [exact H2|].
  destruct H3 as [[Hz Hr]|[s [a [L [m1 [Ha Hrest]]]]]].
  - left. split; [now rewrite <- Hv | exact Hr].
  - right. exists s, a, L, m1. split; [now rewrite <- Hv | exact Hrest].
Qed.

Lemma binade (m : positive) (e : Z) :
  let d := Zpos (digits2_pos m) in
  (pow2 (d + e - 1) <= inject_Z (Zpos m) * pow2 e < pow2 (d + e))%Q.
Proof.
  intros d. pose proof (digits2_bounds m) as [Hlo Hhi]. fold d in Hlo, Hhi.
  assert (Hd : 0 < d) by (unfold d; lia).
  pose proof (pow2_pos e) as He.
  replace (d + e - 1) with ((d - 1) + e) by lia.
  rewrite !pow2_add. rewrite (pow2_Z (d - 1)), (pow2_Z d) by lia.
  rewrite Zle_Qle in Hlo. rewrite Zlt_Qlt in Hhi. split; nra.
Qed.

Lemma binary_round_aux_roundsTo (sx : bool) (m : positive) (e : Z) :
  e <= fexp prec emax (Zpos (digits2_pos m) + e) ->
  Zpos (digits2_pos m) + e <= 1023 ->
  roundsTo (sgn sx * (inject_Z (Zpos m) * pow2 e))
    (binary_round_aux prec emax sx (Zpos m) e loc_Exact).
Proof.
  intros HeE Hmax.
  destruct (binary_round_aux_spec sx m e HeE) as [Hv [_ [_ Hfin]]].
  destruct (Hfin Hmax) as [Hf [Hs Hval]].
  split; [exact Hv|]. split; [exact Hf|]. right.
  set (d := Zpos (digits2_pos m)) in *.
  rewrite fexp64 in HeE, Hval.
  exists sx, (inject_Z (Zpos m) * pow2 e)%Q, (d + e),
    (rne (Zpos m) (Z.max (d + e - 53) (-1074) - e)).
  split; [reflexivity|]. split; [apply binade|]. split; [lia|].
  split; [exact Hs|]. split; [rewrite Hval; ring|].
  set (F := Z.max (d + e - 53) (-1074)) in *.
  replace e with (F - (F - e)) at 1 by lia.
  apply rne_nearestOnGrid; lia.
Qed.

Lemma iter_xO (m d : positive) : Zpos (Pos.iter xO m d) = Zpos m * 2 ^ Zpos d.
Proof.
  induction d as [|d IH] using Pos.peano_ind.
  - cbn. lia.
  - rewrite Pos.iter_succ, Pos2Z.inj_xO, IH, Pos2Z.inj_succ, Z.pow_succ_r by lia. lia.
Qed.

Lemma digits_shift (m : positive) (k : Z) (p : positive) :
  0 <= k -> Zpos p = Zpos m * 2 ^ k ->
  Zpos (digits2_pos p) = Zpos (digits2_pos m) + k.
Proof.
  intros Hk Hp. pose proof (digits2_bounds m) as [Hlo Hhi].
  apply digits_unique; [|lia]. rewrite Hp.
  assert (0 < 2 ^ k) by (apply Z.pow_pos_nonneg; lia).
  replace (Zpos (digits2_pos m) + k - 1) with (Zpos (digits2_pos m) - 1 + k) by lia.
  rewrite !Z.pow_add_r by lia. split; nia.
Qed.

Lemma binary_round_roundsTo (sx : bool) (m : positive) (e : Z) :
  Zpos (digits2_pos m) + e <= 1023 ->
  roundsTo (sgn sx * (inject_Z (Zpos m) * pow2 e))
    (binary_round prec emax sx m e).
Proof.
  intros Hmax. unfold binary_round, shl_align.
  set (d := Zpos (digits2_pos m)) in *.
  set (F := fexp prec emax (d + e)).
  destruct (F - e) as [|k|k] eqn:Ek.
  - apply binary_round_aux_roundsTo; fold d; fold F; lia.
  - apply binary_round_aux_roundsTo; fold d; fold F; lia.
  - (* the mantissa is shifted left to the exponent [F] *)
    pose proof (iter_xO m k) as Hsh.
    pose proof (digits_shift m (Zpos k) (Pos.iter xO m k) ltac:(lia) Hsh) as Hdig.
    assert (Hval : (inject_Z (Zpos m) * pow2 e
                    == inject_Z (Zpos (Pos.iter xO m k)) * pow2 F)%Q).
    { rewrite Hsh, inject_Z_mult. rewrite <- pow2_Z by lia.
      rewrite <- Qmult_assoc, <- pow2_add. replace (Zpos k + F) with e by lia.
      reflexivity. }
    apply (roundsTo_eq (sgn sx * (inject_Z (Zpos (Pos.iter xO m k)) * pow2 F)));
      [now rewrite Hval|].
    apply binary_round_aux_roundsTo.
    + rewrite Hdig. fold d. replace (d + Zpos k + F) with (d + e) by lia. fold F. lia.
    + rewrite Hdig. fold d. lia.
Qed.

Lemma binary_normalize_roundsTo (S e : Z) :
  Zdigits2 S + e <= 1023 ->
  roundsTo (inject_Z S * pow2 e) (binary_normalize prec emax S e false).
Proof.
  intros Hmax. destruct S as [|p|p]; cbn [binary_normalize Zdigits2] in *.
  - split; [reflexivity|]. split; [reflexivity|]. left. split; [ring | reflexivity].
  - apply (roundsTo_eq (sgn false * (inject_Z (Zpos p) * pow2 e)));
      [cbn [sgn]; ring|].
    now apply binary_round_roundsTo.
  - apply (roundsTo_eq (sgn true * (inject_Z (Zpos p) * pow2 e))).
    { cbn [sgn]. change (Zneg p) with (- Zpos p). rewrite inject_Z_opp. ring. }
    now apply binary_round_roundsTo.
Qed.

(** *** What rounding keeps *)

Lemma pow2_lt_inv (a b : Z) : (pow2 a < pow2 b)%Q -> a < b.
Proof.
  intros H. destruct (Z.lt_ge_cases a b) as [Hlt|Hge]; [exact Hlt|].
  pose proof (pow2_le b a Hge). lra.
Qed.

Lemma sgn_cases (s : bool) : (sgn s == 1 \/ sgn s == -1)%Q.
Proof. destruct s; [right | left]; reflexivity. Qed.

Lemma sgn_sq (s : bool) : (sgn s * sgn s == 1)%Q.
Proof. destruct s; reflexivity. Qed.

Lemma nearestOnGrid_nonneg (a : Q) (F m1 : Z) :
  (0 <= a)%Q -> nearestOnGrid a F m1 -> 0 <= m1.
Proof.
  intros Ha [_ [_ [_ Hge]]]. apply Hge.
  assert (H : (inject_Z 0 * pow2 F == 0)%Q) by ring. rewrite H. exact Ha.
Qed.

Lemma nearestOnGrid_exact (a : Q) (F m1 K : Z) :
  (a == inject_Z K * pow2 F)%Q -> nearestOnGrid a F m1 -> m1 = K.
Proof.
  intros Ha [_ [_ [Hle Hge]]].
  assert (m1 <= K) by (apply Hle; lra).
  assert (K <= m1) by (apply Hge; lra). lia.
Qed.

(** Sign and magnitude of a rounding: [v = ± a], the result is [± r] with
    [r] on the grid of the binade of [a], within half a step of [a]. *)
Lemma roundsTo_mag (v : Q) (R : spec_float) :
  roundsTo v R ->
  exists (s : bool) (a r : Q),
    (v == sgn s * a)%Q /\ (0 <= a)%Q
    /\ (SFvalue R == sgn s * r)%Q /\ (0 <= r)%Q
    /\ (2 * (r - a) <= pow2 (-52) * a + pow2 (-1074))%Q
    /\ (2 * (a - r) <= pow2 (-52) * a + pow2 (-1074))%Q
    /\ (forall k, -1074 <= k -> (a <= pow2 k)%Q -> (r <= pow2 k)%Q).
Proof.
  intros [_ [_ [[Hz Hr]|[s [a [L [m1 [Hv [[Hlo Hhi] [HL [Hs [Hval Hgrid]]]]]]]]]]]].
  - exists false, 0%Q, 0%Q. cbn [sgn].
    pose proof (pow2_pos (-52)). pose proof (pow2_pos (-1074)).
    repeat split; try lra.
    intros k _ _. pose proof (pow2_pos k). lra.
  - set (F := Z.max (L - 53) (-1074)) in *.
    pose proof (pow2_pos (L - 1)) as HpL. pose proof (pow2_pos F) as HpF.
    assert (Ha : (0 <= a)%Q) by lra.
    pose proof (nearestOnGrid_nonneg a F m1 Ha Hgrid) as Hm1.
    assert (Hm1q : (0 <= inject_Z m1)%Q)
      by (change 0%Q with (inject_Z 0); now rewrite <- Zle_Qle).
    assert (Hulp : (pow2 F <= pow2 (-52) * a + pow2 (-1074))%Q).
    { unfold F. destruct (Z.max_spec (L - 53) (-1074)) as [[_ ->]|[_ ->]].
      - pose proof (pow2_pos (-52)). nra.
      - replace (L - 53) with (-52 + (L - 1)) by lia. rewrite pow2_add.
        pose proof (pow2_pos (-52)). pose proof (pow2_pos (-1074)). nra. }
    destruct Hgrid as [He1 [He2 [Hle Hge]]].
    exists s, a, (inject_Z m1 * pow2 F)%Q.
    split; [exact Hv|]. split; [exact Ha|]. split; [exact Hval|].
    split; [nra|]. split; [lra|]. split; [lra|].
    intros k Hk Hak.
    assert (HFk : F <= k).
    { assert (L - 1 <= k).
      { destruct (Z.le_gt_cases (L - 1) k) as [H|H]; [exact H|].
        pose proof (pow2_lt k (L - 1) H). lra. }
      unfold F. lia. }
    assert (Hm1k : m1 <= 2 ^ (k - F)).
    { apply Hle. rewrite <- pow2_Z by lia. rewrite <- pow2_add.
      replace (k - F + F) with k by lia. exact Hak. }
    rewrite Zle_Qle in Hm1k. rewrite <- pow2_Z in Hm1k by lia.
    replace k with (k - F + F) at 1 by lia. rewrite pow2_add.
    pose proof (pow2_pos (k - F)). nra.
Qed.

(** A value that binary64 holds is not changed by the rounding. *)
Lemma roundsTo_exact (v : Q) (R : spec_float) (K g : Z) :
  roundsTo v R -> (v == inject_Z K * pow2 g)%Q -> Z.abs K < 2 ^ 53 -> -1074 <= g ->
  (SFvalue R == v)%Q.
Proof.
  intros [_ [_ [[Hz Hr]|[s [a [L [m1 [Hv [[Hlo Hhi] [HL [Hs [Hval Hgrid]]]]]]]]]]]]
    HK Hb Hg.
  - now rewrite Hr, Hz.
  - set (F := Z.max (L - 53) (-1074)) in *.
    pose proof (pow2_pos (L - 1)) as HpL. pose proof (pow2_pos g) as Hpg.
    (* the magnitude is [|K| * 2^g] *)
    assert (Ha : (a == inject_Z (Z.abs K) * pow2 g)%Q).
    { assert (Hsa : (sgn s * a == inject_Z K * pow2 g)%Q) by (rewrite <- Hv; exact HK).
      destruct (Z.abs_spec K) as [[HK0 ->]|[HK0 ->]].
      - assert (0 <= inject_Z K)%Q
          by (change 0%Q with (inject_Z 0); now rewrite <- Zle_Qle).
        destruct s; cbn [sgn] in Hsa; nra.
      - assert (inject_Z K < 0)%Q
          by (change 0%Q with (inject_Z 0); now rewrite <- Zlt_Qlt).
        rewrite inject_Z_opp. destruct s; cbn [sgn] in Hsa; nra. }
    assert (HFg : F <= g).
    { assert (HKq : (inject_Z (Z.abs K) < inject_Z (2 ^ 53))%Q)
        by (now rewrite <- Zlt_Qlt).
      assert (Hlt : (pow2 (L - 1) < pow2 (g + 53))%Q).
      { rewrite (Z.add_comm g 53), pow2_add, (pow2_Z 53) by lia. nra. }
      apply pow2_lt_inv in Hlt. unfold F. lia. }
    assert (Hm1 : m1 = Z.abs K * 2 ^ (g - F)).
    { apply (nearestOnGrid_exact a F); [|exact Hgrid].
      rewrite Ha, inject_Z_mult. rewrite <- (pow2_Z (g - F)) by lia.
      rewrite <- Qmult_assoc, <- pow2_add. replace (g - F + F) with g by lia.
      reflexivity. }
    rewrite Hval, Hv, Ha, Hm1, inject_Z_mult. rewrite <- (pow2_Z (g - F)) by lia.
    rewrite <- (Qmult_assoc (inject_Z (Z.abs K))), <- pow2_add.
    replace (g - F + F) with g by lia. reflexivity.
Qed.

(** A valid number rounds to itself. *)
Lemma valid_canonical (s : bool) (m : positive) (e : Z) :
  valid_binary (S754_finite s m e) = true ->
  e = Z.max (Zpos (digits2_pos m) + e - 53) (-1074) /\ e <= 971.
Proof.
  cbn [valid_binary]. unfold bounded, canonical_mantissa. rewrite fexp64.
  intros H. apply andb_prop in H. destruct H as [H1 H2].
  apply Z.eqb_eq in H1. apply Z.leb_le in H2.
  change (emax - prec) with 971 in H2. split; [now symmetry | exact H2].
Qed.

Lemma SFvalue_representable (X : spec_float) :
  valid_binary X = true ->
  exists K g, (SFvalue X == inject_Z K * pow2 g)%Q /\ Z.abs K < 2 ^ 53 /\ -1074 <= g.
Proof.
  intros Hv. destruct X as [s|s| |s m e].
  1-3: exists 0, 0; cbn; repeat split; try lia; reflexivity.
  destruct (valid_canonical s m e Hv) as [Hc _].
  pose proof (digits2_bounds m) as [_ Hhi].
  exists (if s then Zneg m else Zpos m), e. split; [|split].
  - cbn [SFvalue]. destruct s; cbn [sgn].
    + change (Zneg m) with (- Zpos m). rewrite inject_Z_opp. ring.
    + ring.
  - assert (Zpos (digits2_pos m) <= 53) by lia.
    assert (2 ^ Zpos (digits2_pos m) <= 2 ^ 53) by (apply Z.pow_le_mono_r; lia).
    destruct s; cbn [Z.abs]; lia.
  - lia.
Qed.

Lemma roundsTo_self (X : spec_float) :
  valid_binary X = true -> SFfinite X = true -> roundsTo (SFvalue X) X.
Proof.
  intros Hv Hf. split; [exact Hv|]. split; [exact Hf|].
  destruct X as [s|s| |s m e]; try discriminate.
  - left. split; reflexivity.
  - right. destruct (valid_canonical s m e Hv) as [Hc He].
    set (d := Zpos (digits2_pos m)) in *.
    exists s, (inject_Z (Zpos m) * pow2 e)%Q, (d + e), (Zpos m).
    rewrite <- Hc.
    split; [cbn [SFvalue]; ring|]. split; [apply binade|]. split; [lia|].
    split; [reflexivity|]. split; [cbn [SFvalue]; ring|].
    pose proof (pow2_pos e) as Hp.
    split; [lra|]. split; [lra|].
    split; intros G HG; rewrite Zle_Qle; nra.
Qed.

(** *** The operations *)

Lemma SFsmall_finite (X : spec_float) : SFsmall X -> SFfinite X = true.
Proof. destruct X; cbn; tauto. Qed.

Lemma SFsmall_of_bound (X : spec_float) (k : Z) :
  SFfinite X = true -> k <= 1021 ->
  (- pow2 k <= SFvalue X <= pow2 k)%Q -> SFsmall X.
Proof.
  intros Hf Hk Hb. destruct X as [s|s| |s m e]; try discriminate; [exact I|].
  cbn [SFsmall]. pose proof (binade m e) as [Hlo _]. cbn zeta in Hlo.
  cbn [SFvalue] in Hb.
  assert (Hre : (sgn s * inject_Z (Zpos m) * pow2 e
                 == sgn s * (inject_Z (Zpos m) * pow2 e))%Q) by ring.
  rewrite Hre in Hb. clear Hre.
  set (v := (inject_Z (Zpos m) * pow2 e)%Q) in *.
  clearbody v.
  assert (Hle : (pow2 (Zpos (digits2_pos m) + e - 1) <= pow2 k)%Q).
  { destruct s; cbn [sgn] in Hb; lra. }
  destruct (Z.le_gt_cases (Zpos (digits2_pos m) + e - 1) k) as [H|H]; [lia|].
  pose proof (pow2_lt _ _ H). lra.
Qed.

Lemma shl_align_fst (m : positive) (e e' : Z) :
  e' <= e -> Zpos (fst (shl_align m e e')) = Zpos m * 2 ^ (e - e').
Proof.
  intros H. unfold shl_align. destruct (e' - e) as [|d|d] eqn:E; [| lia |].
  - replace (e - e') with 0 by lia. cbn. lia.
  - cbn [fst]. rewrite iter_xO. f_equal. f_equal. lia.
Qed.

Lemma cond_Zopp_Q (s : bool) (x : Z) :
  (inject_Z (cond_Zopp s x) == sgn s * inject_Z x)%Q.
Proof. destruct s; cbn [cond_Zopp sgn]; [rewrite inject_Z_opp|]; ring. Qed.

Lemma Zdigits2_le (S k : Z) : 0 <= k -> Z.abs S < 2 ^ k -> Zdigits2 S <= k.
Proof.
  intros Hk H.
  assert (Hp : forall p, Zpos p < 2 ^ k -> Zpos (digits2_pos p) <= k).
  { intros p Hlt. pose proof (digits2_bounds p) as [Hlo _].
    destruct (Z.le_gt_cases (Zpos (digits2_pos p)) k) as [Hle|Hgt]; [exact Hle|].
    assert (2 ^ k <= 2 ^ (Zpos (digits2_pos p) - 1)) by (apply Z.pow_le_mono_r; lia).
    lia. }
  destruct S as [|p|p]; cbn [Zdigits2]; [exact Hk | apply Hp, H | apply Hp, H].
Qed.

(** The aligned mantissas of a sum or a difference. *)
Lemma aligned (sx sy : bool) (mx my : positive) (ex ey : Z) :
  let ez := Z.min ex ey in
  let ax := cond_Zopp sx (Zpos (fst (shl_align mx ex ez))) in
  let ay := cond_Zopp sy (Zpos (fst (shl_align my ey ez))) in
  Zpos (digits2_pos mx) + ex <= 1022 -> Zpos (digits2_pos my) + ey <= 1022 ->
  (inject_Z ax * pow2 ez == SFvalue (S754_finite sx mx ex))%Q
  /\ (inject_Z ay * pow2 ez == SFvalue (S754_finite sy my ey))%Q
  /\ Z.abs ax + Z.abs ay < 2 ^ (1023 - ez) /\ ez <= 1022.
Proof.
  intros ez ax ay Hx Hy.
  assert (Hzx : ez <= ex) by (unfold ez; lia).
  assert (Hzy : ez <= ey) by (unfold ez; lia).
  assert (Hone : forall s m e, ez <= e -> Zpos (digits2_pos m) + e <= 1022 ->
            (inject_Z (cond_Zopp s (Zpos (fst (shl_align m e ez)))) * pow2 ez
             == SFvalue (S754_finite s m e))%Q
            /\ Z.abs (cond_Zopp s (Zpos (fst (shl_align m e ez)))) < 2 ^ (1022 - ez)).
  { intros s m e Hze Hm. rewrite shl_align_fst by exact Hze. split.
    - rewrite cond_Zopp_Q, inject_Z_mult. rewrite <- (pow2_Z (e - ez)) by lia.
      cbn [SFvalue]. rewrite <- !Qmult_assoc, <- pow2_add.
      replace (e - ez + ez) with e by lia. reflexivity.
    - pose proof (digits2_bounds m) as [_ Hhi].
      assert (Hpos : 0 < 2 ^ (e - ez)) by (apply Z.pow_pos_nonneg; lia).
      assert (Hlt : Zpos m * 2 ^ (e - ez) < 2 ^ (1022 - ez)).
      { apply Z.lt_le_trans with (2 ^ Zpos (digits2_pos m) * 2 ^ (e - ez)); [nia|].
        rewrite <- Z.pow_add_r by lia. apply Z.pow_le_mono_r; lia. }
      destruct s; cbn [cond_Zopp]; lia. }
  destruct (Hone sx mx ex Hzx Hx) as [Hvx Hbx].
  destruct (Hone sy my ey Hzy Hy) as [Hvy Hby].
  pose proof (digits2_bounds mx) as [Hmx _].
  assert (0 < Zpos (digits2_pos mx)) by lia.
  split; [exact Hvx|]. split; [exact Hvy|]. split; [|lia].
  replace (1023 - ez) with (Z.succ (1022 - ez)) by lia.
  rewrite Z.pow_succ_r by lia. fold ax in Hbx. fold ay in Hby. lia.
Qed.

Lemma SFadd_roundsTo (X Y : spec_float) :
  valid_binary X = true -> valid_binary Y = true -> SFsmall X -> SFsmall Y ->
  roundsTo (SFvalue X + SFvalue Y) (SFadd prec emax X Y).
Proof.
  intros HvX HvY HsX HsY.
  pose proof (SFsmall_finite X HsX) as HfX. pose proof (SFsmall_finite Y HsY) as HfY.
  destruct X as [sx|sx| |sx mx ex]; try discriminate;
    destruct Y as [sy|sy| |sy my ey]; try discriminate.
  - assert (Hz : roundsTo 0 (SFadd prec emax (S754_zero sx) (S754_zero sy))).
    { destruct sx, sy; cbn; (split; [reflexivity|]); (split; [reflexivity|]);
        left; split; reflexivity. }
    apply (roundsTo_eq 0); [cbn; ring | exact Hz].
  - apply (roundsTo_eq (SFvalue (S754_finite sy my ey))); [cbn [SFvalue]; ring|].
    now apply roundsTo_self.
  - apply (roundsTo_eq (SFvalue (S754_finite sx mx ex))); [cbn [SFvalue]; ring|].
    now apply roundsTo_self.
  - cbn [SFsmall] in HsX, HsY.
    destruct (aligned sx sy mx my ex ey HsX HsY) as [Hvx [Hvy [Hb Hez]]].
    cbn [SFadd]. cbv zeta.
    set (ez := Z.min ex ey) in *.
    set (ax := cond_Zopp sx (Zpos (fst (shl_align mx ex ez)))) in *.
    set (ay := cond_Zopp sy (Zpos (fst (shl_align my ey ez)))) in *.
    apply (roundsTo_eq (inject_Z (ax + ay) * pow2 ez)).
    { rewrite inject_Z_plus, <- Hvx, <- Hvy. ring. }
    apply binary_normalize_roundsTo.
    assert (Zdigits2 (ax + ay) <= 1023 - ez); [|lia].
    apply Zdigits2_le; lia.
Qed.

Lemma SFsub_roundsTo (X Y : spec_float) :
  valid_binary X = true -> valid_binary Y = true -> SFsmall X -> SFsmall Y ->
  roundsTo (SFvalue X - SFvalue Y) (SFsub prec emax X Y).
Proof.
  intros HvX HvY HsX HsY.
  pose proof (SFsmall_finite X HsX) as HfX. pose proof (SFsmall_finite Y HsY) as HfY.
  destruct X as [sx|sx| |sx mx ex]; try discriminate;
    destruct Y as [sy|sy| |sy my ey]; try discriminate.
  - assert (Hz : roundsTo 0 (SFsub prec emax (S754_zero sx) (S754_zero sy))).
    { destruct sx, sy; cbn; (split; [reflexivity|]); (split; [reflexivity|]);
        left; split; reflexivity. }
    apply (roundsTo_eq 0); [cbn; ring | exact Hz].
  - apply (roundsTo_eq (SFvalue (S754_finite (negb sy) my ey))).
    { cbn [SFvalue]. destruct sy; cbn [sgn negb]; ring. }
    cbn [SFsub]. apply roundsTo_self; [exact HvY | reflexivity].
  - apply (roundsTo_eq (SFvalue (S754_finite sx mx ex))); [cbn [SFvalue]; ring|].
    now apply roundsTo_self.
  - cbn [SFsmall] in HsX, HsY.
    destruct (aligned sx sy mx my ex ey HsX HsY) as [Hvx [Hvy [Hb Hez]]].
    cbn [SFsub]. cbv zeta.
    set (ez := Z.min ex ey) in *.
    set (ax := cond_Zopp sx (Zpos (fst (shl_align mx ex ez)))) in *.
    set (ay := cond_Zopp sy (Zpos (fst (shl_align my ey ez)))) in *.
    apply (roundsTo_eq (inject_Z (ax - ay) * pow2 ez)).
    { rewrite inject_Z_sub, <- Hvx, <- Hvy. ring. }
    apply binary_normalize_roundsTo.
    assert (Zdigits2 (ax - ay) <= 1023 - ez); [|lia].
    apply Zdigits2_le; lia.
Qed.

Lemma sgn_xorb (a b : bool) : (sgn (xorb a b) == sgn a * sgn b)%Q.
Proof. destruct a, b; reflexivity. Qed.

Lemma digits_mul (mx my : positive) :
  Zpos (digits2_pos mx) + Zpos (digits2_pos my) - 1
  <= Zpos (digits2_pos (mx * my))
  <= Zpos (digits2_pos mx) + Zpos (digits2_pos my).
Proof.
  pose proof (digits2_bounds mx) as [Hx1 Hx2].
  pose proof (digits2_bounds my) as [Hy1 Hy2].
  pose proof (digits2_bounds (mx * my)) as [Hp1 Hp2].
  set (dx := Zpos (digits2_pos mx)) in *. set (dy := Zpos (digits2_pos my)) in *.
  set (d := Zpos (digits2_pos (mx * my))) in *.
  assert (0 < dx) by (unfold dx; lia). assert (0 < dy) by (unfold dy; lia).
  assert (0 < d) by (unfold d; lia).
  rewrite Pos2Z.inj_mul in Hp1, Hp2.
  assert (0 < 2 ^ (dx - 1)) by (apply Z.pow_pos_nonneg; lia).
  assert (0 < 2 ^ (dy - 1)) by (apply Z.pow_pos_nonneg; lia).
  assert (Hlo : 2 ^ (dx - 1 + (dy - 1)) <= Zpos mx * Zpos my)
    by (rewrite Z.pow_add_r by lia; nia).
  assert (Hhi : Zpos mx * Zpos my < 2 ^ (dx + dy))
    by (rewrite Z.pow_add_r by lia; nia).
  split.
  - destruct (Z.le_gt_cases (dx + dy - 1) d) as [Hle|Hgt]; [exact Hle|].
    assert (2 ^ d <= 2 ^ (dx - 1 + (dy - 1))) by (apply Z.pow_le_mono_r; lia). lia.
  - destruct (Z.le_gt_cases d (dx + dy)) as [Hle|Hgt]; [exact Hle|].
    assert (2 ^ (dx + dy) <= 2 ^ (d - 1)) by (apply Z.pow_le_mono_r; lia). lia.
Qed.

Lemma SFmul_roundsTo (X Y : spec_float) :
  valid_binary X = true -> valid_binary Y = true ->
  SFfinite X = true -> SFfinite Y = true ->
  match X, Y with
  | S754_finite _ mx ex, S754_finite _ my ey =>
      Zpos (digits2_pos mx) + ex + (Zpos (digits2_pos my) + ey) <= 1023
  | _, _ => True
  end ->
  roundsTo (SFvalue X * SFvalue Y) (SFmul prec emax X Y).
Proof.
  intros HvX HvY HfX HfY Hb.
  destruct X as [sx|sx| |sx mx ex]; try discriminate;
    destruct Y as [sy|sy| |sy my ey]; try discriminate.
  1-3: cbn [SFmul]; (split; [reflexivity|]); (split; [reflexivity|]); left;
       (split; [cbn [SFvalue]; ring | reflexivity]).
  cbn [SFmul].
  destruct (valid_canonical sx mx ex HvX) as [Hcx _].
  destruct (valid_canonical sy my ey HvY) as [Hcy _].
  pose proof (digits_mul mx my) as [Hd1 Hd2].
  pose proof (digits2_bounds mx) as [Hmx _]. pose proof (digits2_bounds my) as [Hmy _].
  assert (0 < Zpos (digits2_pos mx)) by lia. assert (0 < Zpos (digits2_pos my)) by lia.
  apply (roundsTo_eq (sgn (xorb sx sy)
                      * (inject_Z (Zpos (mx * my)) * pow2 (ex + ey)))).
  { cbn [SFvalue]. rewrite sgn_xorb, Pos2Z.inj_mul, inject_Z_mult, pow2_add. ring. }
  apply binary_round_aux_roundsTo.
  - rewrite fexp64. lia.
  - lia.
Qed.

(** *** Comparisons *)

Lemma canonical_exp_lt (m1 m2 : positive) (e1 e2 : Z) (s1 s2 : bool) :
  valid_binary (S754_finite s1 m1 e1) = true ->
  valid_binary (S754_finite s2 m2 e2) = true ->
  e1 < e2 ->
  (inject_Z (Zpos m1) * pow2 e1 < inject_Z (Zpos m2) * pow2 e2)%Q.
Proof.
  intros H1 H2 Hlt.
  destruct (valid_canonical _ _ _ H1) as [Hc1 _].
  destruct (valid_canonical _ _ _ H2) as [Hc2 _].
  pose proof (binade m1 e1) as [_ Hhi]. pose proof (binade m2 e2) as [Hlo _].
  cbn zeta in Hhi, Hlo.
  assert (Hle : (pow2 (Zpos (digits2_pos m1) + e1)
                 <= pow2 (Zpos (digits2_pos m2) + e2 - 1))%Q)
    by (apply pow2_le; lia).
  lra.
Qed.

Lemma SFcompare_value (X Y : spec_float) :
  valid_binary X = true -> valid_binary Y = true ->
  SFfinite X = true -> SFfinite Y = true ->
  exists c, SFcompare X Y = Some c
            /\ match c with
               | Lt => (SFvalue X < SFvalue Y)%Q
               | Eq => (SFvalue X == SFvalue Y)%Q
               | Gt => (SFvalue Y < SFvalue X)%Q
               end.
Proof.
  intros HvX HvY HfX HfY.
  assert (Hpos : forall m e, (0 < inject_Z (Zpos m) * pow2 e)%Q).
  { intros m e. pose proof (pow2_pos e).
    assert (0 < inject_Z (Zpos m))%Q
      by (change 0%Q with (inject_Z 0); rewrite <- Zlt_Qlt; lia).
    nra. }
  destruct X as [sx|sx| |sx mx ex]; try discriminate;
    destruct Y as [sy|sy| |sy my ey]; try discriminate; cbn [SFcompare SFvalue].
  - exists Eq. split; reflexivity.
  - pose proof (Hpos my ey). destruct sy; eexists; (split; [reflexivity|]);
      cbn [sgn]; lra.
  - pose proof (Hpos mx ex). destruct sx; eexists; (split; [reflexivity|]);
      cbn [sgn]; lra.
  - pose proof (Hpos mx ex) as Hx. pose proof (Hpos my ey) as Hy.
    assert (Hrx : (sgn sx * inject_Z (Zpos mx) * pow2 ex
                   == sgn sx * (inject_Z (Zpos mx) * pow2 ex))%Q) by ring.
    assert (Hry : (sgn sy * inject_Z (Zpos my) * pow2 ey
                   == sgn sy * (inject_Z (Zpos my) * pow2 ey))%Q) by ring.
    assert (Hsame : forall c,
              match Z.compare ex ey with
              | Lt => Lt | Gt => Gt | Eq => Pos.compare_cont Eq mx my
              end = c ->
              match c with
              | Lt => (inject_Z (Zpos mx) * pow2 ex < inject_Z (Zpos my) * pow2 ey)%Q
              | Eq => (inject_Z (Zpos mx) * pow2 ex == inject_Z (Zpos my) * pow2 ey)%Q
              | Gt => (inject_Z (Zpos my) * pow2 ey < inject_Z (Zpos mx) * pow2 ex)%Q
              end).
    { intros c Hc. destruct (Z.compare_spec ex ey) as [Heq|Hlt|Hgt].
      - subst ey. change (Pos.compare_cont Eq mx my) with (Pos.compare mx my) in Hc.
        pose proof (pow2_pos ex) as Hp.
        destruct (Pos.compare_spec mx my) as [Hm|Hm|Hm]; subst c.
        + now subst my.
        + assert (inject_Z (Zpos mx) < inject_Z (Zpos my))%Q
            by (rewrite <- Zlt_Qlt; lia). nra.
        + assert (inject_Z (Zpos my) < inject_Z (Zpos mx))%Q
            by (rewrite <- Zlt_Qlt; lia). nra.
      - subst c. exact (canonical_exp_lt mx my ex ey sx sy HvX HvY Hlt).
      - subst c. exact (canonical_exp_lt my mx ey ex sy sx HvY HvX Hgt). }
    set (vx := (inject_Z (Zpos mx) * pow2 ex)%Q) in *.
    set (vy := (inject_Z (Zpos my) * pow2 ey)%Q) in *.
    clearbody vx vy.
    destruct sx, sy; cbn [sgn] in *.
    + (* both negative *)
      pose proof (Hsame _ eq_refl) as H.
      destruct (Z.compare ex ey); [destruct (Pos.compare_cont Eq mx my)| |];
        cbn [CompOpp]; eexists; (split; [reflexivity|]); cbn beta iota;
        rewrite Hrx, Hry; lra.
    + exists Lt. split; [reflexivity | rewrite Hrx, Hry; lra].
    + exists Gt. split; [reflexivity | rewrite Hrx, Hry; lra].
    + pose proof (Hsame _ eq_refl) as H.
      destruct (Z.compare ex ey); [destruct (Pos.compare_cont Eq mx my)| |];
        eexists; (split; [reflexivity|]); cbn beta iota;
        rewrite Hrx, Hry; lra.
Qed.

(** *** The engine's numbers *)

Lemma ltb_value (x y : float) :
  F64.finite x = true -> F64.finite y = true ->
  ((x <? y)%float = true <-> (F64.value x < F64.value y)%Q).
Proof.
  intros Hx Hy. rewrite ltb_spec. unfold SFltb.
  destruct (SFcompare_value _ _ (Prim2SF_valid x) (Prim2SF_valid y) Hx Hy)
    as [c [-> Hc]].
  unfold F64.value. destruct c; split; intros H; try discriminate; try reflexivity; lra.
Qed.

Lemma leb_value (x y : float) :
  F64.finite x = true -> F64.finite y = true ->
  ((x <=? y)%float = true <-> (F64.value x <= F64.value y)%Q).
Proof.
  intros Hx Hy. rewrite leb_spec. unfold SFleb.
  destruct (SFcompare_value _ _ (Prim2SF_valid x) (Prim2SF_valid y) Hx Hy)
    as [c [-> Hc]].
  unfold F64.value. destruct c; split; intros H; try discriminate; try reflexivity; lra.
Qed.

Lemma eqb_value (x y : float) :
  F64.finite x = true -> F64.finite y = true ->
  ((x =? y)%float = true <-> (F64.value x == F64.value y)%Q).
Proof.
  intros Hx Hy. rewrite eqb_spec. unfold SFeqb.
  destruct (SFcompare_value _ _ (Prim2SF_valid x) (Prim2SF_valid y) Hx Hy)
    as [c [-> Hc]].
  unfold F64.value. destruct c; split; intros H; try discriminate; try reflexivity; lra.
Qed.

Lemma ofZ_roundsTo (z : Z) :
  Z.abs z < 2 ^ 1023 -> roundsTo (inject_Z z) (Prim2SF (F64.ofZ z)).
Proof.
  intros Hz.
  assert (H : roundsTo (inject_Z z * pow2 0) (binary_normalize prec emax z 0 false)).
  { apply binary_normalize_roundsTo.
    assert (Zdigits2 z <= 1023) by (apply Zdigits2_le; lia). lia. }
  unfold F64.ofZ. rewrite Prim2SF_SF2Prim by (destruct H as [Hv _]; exact Hv).
  apply (roundsTo_eq (inject_Z z * pow2 0)); [|exact H].
  unfold pow2. cbn. ring.
Qed.

(** A safe integer is held exactly. *)
Lemma ofZ_exact (z : Z) :
  Z.abs z < 2 ^ 53 ->
  F64.finite (F64.ofZ z) = true /\ (F64.value (F64.ofZ z) == inject_Z z)%Q /\ F64.small (F64.ofZ z).
Proof.
  intros Hz.
  assert (Hr : roundsTo (inject_Z z) (Prim2SF (F64.ofZ z))).
  { apply ofZ_roundsTo.
    assert (2 ^ 53 <= 2 ^ 1023) by (apply Z.pow_le_mono_r; lia). lia. }
  assert (Hval : (F64.value (F64.ofZ z) == inject_Z z)%Q).
  { apply (roundsTo_exact _ _ z 0 Hr); [|exact Hz|lia].
    unfold pow2. cbn. ring. }
  assert (Hfin : F64.finite (F64.ofZ z) = true) by (destruct Hr as [_ [Hf _]]; exact Hf).
  split; [exact Hfin|]. split; [exact Hval|].
  apply (SFsmall_of_bound _ 53); [exact Hfin | lia |].
  fold (F64.value (F64.ofZ z)). rewrite Hval. rewrite (pow2_Z 53) by lia.
  rewrite <- inject_Z_opp, <- !Zle_Qle. lia.
Qed.

Lemma add_roundsTo (x y : float) :
  F64.small x -> F64.small y -> roundsTo (F64.value x + F64.value y) (Prim2SF (x + y)).
Proof.
  intros Hx Hy. rewrite add_spec.
  apply SFadd_roundsTo; try apply Prim2SF_valid; assumption.
Qed.

Lemma sub_roundsTo (x y : float) :
  F64.small x -> F64.small y -> roundsTo (F64.value x - F64.value y) (Prim2SF (x - y)).
Proof.
  intros Hx Hy. rewrite sub_spec.
  apply SFsub_roundsTo; try apply Prim2SF_valid; assumption.
Qed.

Lemma small_of_bound (x : float) (k : Z) :
  F64.finite x = true -> k <= 1021 -> (- pow2 k <= F64.value x <= pow2 k)%Q -> F64.small x.
Proof. intros. now apply (SFsmall_of_bound _ k). Qed.

Lemma small_finite (x : float) : F64.small x -> F64.finite x = true.
Proof. apply SFsmall_finite. Qed.

Lemma roundsTo_finite (v : Q) (R : spec_float) : roundsTo v R -> SFfinite R = true.
Proof. intros [_ [H _]]. exact H. Qed.

(** *** Integers as numbers *)

(** A non-zero integer becomes a number with its sign: finite, or infinite
    when it is too large, and never zero. *)
Lemma binary_round_int_shape (sx : bool) (p : positive) :
  let R := binary_round prec emax sx p 0 in
  valid_binary R = true
  /\ match R with
     | S754_infinity s | S754_finite s _ _ => s = sx
     | _ => False
     end.
Proof.
  intros R. subst R. unfold binary_round, shl_align.
  pose proof (digits2_bounds p) as Hd.
  set (d := Zpos (digits2_pos p)) in *.
  assert (Hd0 : 0 < d) by (unfold d; lia).
  rewrite fexp64.
  assert (HF : Z.max (d + 0 - 53) (-1074) = d - 53) by lia.
  rewrite HF.
  assert (Hfinish : forall (m : positive) (e : Z),
            Zpos (digits2_pos m) + e = d -> e <= d - 53 ->
            let R := binary_round_aux prec emax sx (Zpos m) e loc_Exact in
            valid_binary R = true
            /\ match R with
               | S754_infinity s | S754_finite s _ _ => s = sx
               | _ => False
               end).
  { intros m e Hm He.
    pose proof (binary_round_aux_spec sx m e) as Hspec. cbv zeta in Hspec.
    rewrite fexp64, Hm in Hspec.
    replace (Z.max (d - 53) (-1074)) with (d - 53) in Hspec by lia.
    destruct (Hspec He) as [Hv [Hsh [Hbig _]]].
    specialize (Hbig ltac:(lia)).
    assert (0 < 2 ^ 52) by reflexivity.
    cbv zeta. split; [exact Hv|].
    destruct (binary_round_aux prec emax sx (Zpos m) e loc_Exact) as [s|s| |s m' e'];
      cbn [SFshape] in Hsh.
    - destruct Hsh as [_ Hz]. lia.
    - exact Hsh.
    - exact Hsh.
    - apply Hsh. }
  destruct (d - 53 - 0) as [|k|k] eqn:Ek.
  - apply Hfinish; fold d; lia.
  - apply Hfinish; fold d; lia.
  - pose proof (iter_xO p k) as Hsh.
    pose proof (digits_shift p (Zpos k) (Pos.iter xO p k) ltac:(lia) Hsh) as Hdig.
    apply Hfinish; [rewrite Hdig; fold d; lia | lia].
Qed.

Lemma ofZ_positive (z : Z) : 0 < z -> (0 <? F64.ofZ z)%float = true.
Proof.
  intros Hz. destruct z as [|p|p]; try lia.
  rewrite ltb_spec. unfold F64.ofZ. cbn [binary_normalize].
  destruct (binary_round_int_shape false p) as [Hv Hsh]. cbv zeta in Hv, Hsh.
  rewrite Prim2SF_SF2Prim by exact Hv.
  change (Prim2SF 0) with (S754_zero false).
  destruct (binary_round prec emax false p 0) as [s|s| |s m e]; try contradiction;
    subst s; reflexivity.
Qed.

Lemma ofZ_not_positive (z : Z) : z <= 0 -> (0 <? F64.ofZ z)%float = false.
Proof.
  intros Hz. destruct z as [|p|p]; try lia; [reflexivity|].
  rewrite ltb_spec. unfold F64.ofZ. cbn [binary_normalize].
  destruct (binary_round_int_shape true p) as [Hv Hsh]. cbv zeta in Hv, Hsh.
  rewrite Prim2SF_SF2Prim by exact Hv.
  change (Prim2SF 0) with (S754_zero false).
  destruct (binary_round prec emax true p 0) as [s|s| |s m e]; try contradiction;
    subst s; reflexivity.
Qed.

(** *** Rounding in use *)

Lemma roundsTo_sign (v : Q) (R : spec_float) :
  roundsTo v R ->
  ((0 <= v)%Q -> (0 <= SFvalue R)%Q) /\ ((v <= 0)%Q -> (SFvalue R <= 0)%Q).
Proof.
  intros [_ [_ [[Hz Hr]|[s [a [L [m1 [Hv [[Hlo Hhi] [HL [Hs [Hval Hgrid]]]]]]]]]]]].
  - rewrite Hr. split; intros _; lra.
  - pose proof (pow2_pos (L - 1)) as HpL.
    assert (Ha : (0 <= a)%Q) by lra.
    pose proof (nearestOnGrid_nonneg a _ m1 Ha Hgrid) as Hm1.
    assert (Hm1q : (0 <= inject_Z m1)%Q)
      by (change 0%Q with (inject_Z 0); now rewrite <- Zle_Qle).
    pose proof (pow2_pos (Z.max (L - 53) (-1074))) as HpF.
    set (r := (inject_Z m1 * pow2 (Z.max (L - 53) (-1074)))%Q) in *.
    assert (Hr : (0 <= r)%Q) by (unfold r; nra).
    clearbody r. rewrite Hval.
    split; intros H; rewrite Hv in H; destruct s; cbn [sgn] in *; lra.
Qed.

(** The error of a rounding of a value of magnitude at most [B]. *)
Lemma roundsTo_err (v B : Q) (R : spec_float) :
  roundsTo v R -> (- B <= v <= B)%Q ->
  (2 * (SFvalue R - v) <= pow2 (-52) * B + pow2 (-1074))%Q
  /\ (2 * (v - SFvalue R) <= pow2 (-52) * B + pow2 (-1074))%Q.
Proof.
  intros Hr HB.
  destruct (roundsTo_mag v R Hr) as [s [a [r [Hv [Ha [Hval [Hr0 [He1 [He2 _]]]]]]]]].
  pose proof (pow2_pos (-52)) as Hp.
  rewrite Hval. rewrite Hv in HB |- *.
  assert (HaB : (a <= B)%Q) by (destruct s; cbn [sgn] in HB; lra).
  destruct s; cbn [sgn]; split; nra.
Qed.

(** A rounding does not cross a power of two. *)
Lemma roundsTo_bound (v : Q) (R : spec_float) (k : Z) :
  roundsTo v R -> -1074 <= k ->
  ((- pow2 k <= v)%Q -> (- pow2 k <= SFvalue R)%Q)
  /\ ((v <= pow2 k)%Q -> (SFvalue R <= pow2 k)%Q).
Proof.
  intros Hr Hk.
  destruct (roundsTo_mag v R Hr) as [s [a [r [Hv [Ha [Hval [Hr0 [_ [_ Hgrid]]]]]]]]].
  pose proof (pow2_pos k) as Hp. specialize (Hgrid k Hk).
  rewrite Hval. rewrite Hv.
  split; intros H; destruct s; cbn [sgn] in *; try lra.
  all: assert (H0 : (a <= pow2 k)%Q) by lra; specialize (Hgrid H0); lra.
Qed.

Lemma SFbinade_le (s : bool) (m : positive) (e k : Z) :
  (- pow2 k <= SFvalue (S754_finite s m e) <= pow2 k)%Q ->
  Zpos (digits2_pos m) + e <= k + 1.
Proof.
  intros Hb. pose proof (binade m e) as [Hlo _]. cbn zeta in Hlo.
  cbn [SFvalue] in Hb.
  assert (Hre : (sgn s * inject_Z (Zpos m) * pow2 e
                 == sgn s * (inject_Z (Zpos m) * pow2 e))%Q) by ring.
  rewrite Hre in Hb. clear Hre.
  set (v := (inject_Z (Zpos m) * pow2 e)%Q) in *. clearbody v.
  assert (Hle : (pow2 (Zpos (digits2_pos m) + e - 1) <= pow2 k)%Q)
    by (destruct s; cbn [sgn] in Hb; lra).
  destruct (Z.le_gt_cases (Zpos (digits2_pos m) + e - 1) k) as [H|H]; [lia|].
  pose proof (pow2_lt _ _ H). lra.
Qed.

Lemma mul_roundsTo (x y : float) (kx ky : Z) :
  F64.finite x = true -> F64.finite y = true ->
  (- pow2 kx <= F64.value x <= pow2 kx)%Q -> (- pow2 ky <= F64.value y <= pow2 ky)%Q ->
  kx + ky <= 1021 ->
  roundsTo (F64.value x * F64.value y) (Prim2SF (x * y)).
Proof.
  intros Hfx Hfy Hbx Hby Hk. rewrite mul_spec.
  apply SFmul_roundsTo; try apply Prim2SF_valid; try assumption.
  unfold F64.value in Hbx, Hby. unfold F64.finite in Hfx, Hfy.
  destruct (Prim2SF x) as [sx|sx| |sx mx ex]; try exact I;
    destruct (Prim2SF y) as [sy|sy| |sy my ey]; try exact I.
  pose proof (SFbinade_le _ _ _ _ Hbx). pose proof (SFbinade_le _ _ _ _ Hby). lia.
Qed.

(** *** Integers held by numbers *)

Lemma pow2_inv (e : Z) : (pow2 e * pow2 (- e) == 1)%Q.
Proof.
  rewrite <- pow2_add. replace (e + - e) with 0 by lia. reflexivity.
Qed.

Lemma toZ_value (x : float) (z : Z) :
  F64.finite x = true -> (F64.value x == inject_Z z)%Q -> F64.toZ x = z.
Proof.
  unfold F64.finite, F64.value, F64.toZ.
  destruct (Prim2SF x) as [s|s| |s m e]; cbn [SFfinite SFvalue]; try discriminate.
  - intros _ H. apply inject_Z_injective. exact H.
  - intros _ H. destruct (Z.le_gt_cases 0 e) as [He|He].
    + rewrite Z.shiftl_mul_pow2 by lia. apply inject_Z_injective.
      rewrite cond_Zopp_Q, inject_Z_mult, <- (pow2_Z e He), <- H. ring.
    + rewrite Z.shiftl_div_pow2 by lia.
      assert (Hm : Zpos m = cond_Zopp s z * 2 ^ (- e)).
      { apply inject_Z_injective.
        rewrite inject_Z_mult, cond_Zopp_Q, <- (pow2_Z (- e)) by lia.
        rewrite <- H.
        transitivity ((sgn s * sgn s) * inject_Z (Z.pos m) * (pow2 e * pow2 (- e)))%Q;
          [|ring].
        rewrite sgn_sq, pow2_inv. ring. }
      rewrite Hm, Z.div_mul by (apply Z.pow_nonzero; lia).
      destruct s; cbn [cond_Zopp]; lia.
Qed.

Lemma pow2_53 : (pow2 53 == inject_Z (2 ^ 53))%Q.
Proof. apply pow2_Z. lia. Qed.

Lemma small_of_int (x : float) (z : Z) :
  F64.finite x = true -> (F64.value x == inject_Z z)%Q -> Z.abs z < 2 ^ 53 ->
  F64.small x.
Proof.
  intros Hf Hv Hz. apply (small_of_bound x 53 Hf); [lia|].
  rewrite Hv, pow2_53, <- inject_Z_opp, <- !Zle_Qle. lia.
Qed.

(** A sum that is an integer below [2^53] in magnitude is not rounded. *)
Lemma add_exact (x y : float) (z : Z) :
  F64.small x -> F64.small y ->
  (F64.value x + F64.value y == inject_Z z)%Q -> Z.abs z < 2 ^ 53 ->
  F64.finite (x + y) = true /\ (F64.value (x + y) == inject_Z z)%Q.
Proof.
  intros Hx Hy Hv Hz. pose proof (add_roundsTo x y Hx Hy) as Hr.
  split; [exact (roundsTo_finite _ _ Hr)|].
  unfold F64.value at 1. rewrite <- Hv.
  apply (roundsTo_exact _ _ z 0 Hr); [|exact Hz|lia].
  rewrite Hv. change (pow2 0) with 1%Q. ring.
Qed.

(** The sum and the difference of two amounts, on integers binary64
    holds exactly. *)
Lemma addZ_exact (a b : Z) :
  Z.abs a < 2 ^ 53 -> Z.abs b < 2 ^ 53 -> Z.abs (a + b) < 2 ^ 53 ->
  F64.addZ a b = a + b.
Proof.
  intros Ha Hb Hsum. unfold F64.addZ.
  destruct (ofZ_exact a Ha) as [_ [Hva Hsa]].
  destruct (ofZ_exact b Hb) as [_ [Hvb Hsb]].
  destruct (add_exact (F64.ofZ a) (F64.ofZ b) (a + b) Hsa Hsb)
    as [Hfin Hval]; [rewrite Hva, Hvb, inject_Z_plus; reflexivity|exact Hsum|].
  exact (toZ_value _ _ Hfin Hval).
Qed.

Lemma subZ_exact (a b : Z) :
  Z.abs a < 2 ^ 53 -> Z.abs b < 2 ^ 53 -> Z.abs (a - b) < 2 ^ 53 ->
  F64.subZ a b = a - b.
Proof.
  intros Ha Hb Hdiff. unfold F64.subZ.
  destruct (ofZ_exact a Ha) as [_ [Hva Hsa]].
  destruct (ofZ_exact b Hb) as [_ [Hvb Hsb]].
  pose proof (sub_roundsTo (F64.ofZ a) (F64.ofZ b) Hsa Hsb) as Hr.
  assert (Hv : (F64.value (F64.ofZ a) - F64.value (F64.ofZ b)
                == inject_Z (a - b))%Q)
    by (rewrite Hva, Hvb, inject_Z_sub; reflexivity).
  apply (toZ_value _ _ (roundsTo_finite _ _ Hr)).
  unfold F64.value at 1. rewrite <- Hv.
  apply (roundsTo_exact _ _ (a - b) 0 Hr); [|exact Hdiff|lia].
  rewrite Hv. change (pow2 0) with 1%Q. ring.
Qed.

(** *** [Math.round] *)

Lemma signed_mantissa (s : bool) (m : positive) :
  (inject_Z (if s then Z.neg m else Z.pos m) == sgn s * inject_Z (Z.pos m))%Q.
Proof.
  destruct s; cbn [sgn]; [|ring].
  change (Z.neg m) with (- Z.pos m). rewrite inject_Z_opp. ring.
Qed.

(** The quotient [Math.round] takes below the binary point. *)
Lemma round_quotient (n k : Z) :
  0 < k ->
  let r := (2 * n + 2 ^ k) / 2 ^ (k + 1) in
  - 2 ^ k <= 2 * (n - r * 2 ^ k) < 2 ^ k.
Proof.
  intros Hk r.
  assert (Hpow : 2 ^ (k + 1) = 2 * 2 ^ k) by (rewrite Z.pow_add_r by lia; lia).
  assert (Hpos : 0 < 2 ^ k) by (apply Z.pow_pos_nonneg; lia).
  pose proof (Z.div_mod (2 * n + 2 ^ k) (2 ^ (k + 1)) ltac:(lia)) as Hdm.
  pose proof (Z.mod_pos_bound (2 * n + 2 ^ k) (2 ^ (k + 1)) ltac:(lia)) as Hb.
  fold r in Hdm. nia.
Qed.

(** [Math.round] of a finite number is the integer within a half of it,
    the upper one at a tie. *)
Lemma round_spec (x : float) :
  F64.finite x = true ->
  exists r : Z,
    F64.round x = RInt r
    /\ (- (1 # 2) <= F64.value x - inject_Z r < 1 # 2)%Q
    /\ exists K g : Z,
         (F64.value x - inject_Z r == inject_Z K * pow2 g)%Q
         /\ Z.abs K < 2 ^ 53 /\ -1074 <= g.
Proof.
  pose proof (Prim2SF_valid x) as Hvalid.
  unfold F64.finite, F64.value, F64.round.
  destruct (Prim2SF x) as [s|s| |s m e]; cbn [SFfinite SFvalue]; try discriminate;
    intros _.
  - exists 0. split; [reflexivity|]. change (inject_Z 0) with 0%Q.
    split; [split; lra|].
    exists 0, 0. split; [change (inject_Z 0) with 0%Q; ring|]. split; [cbn; lia|lia].
  - set (n := if s then Z.neg m else Z.pos m).
    assert (Hn : (sgn s * inject_Z (Z.pos m) == inject_Z n)%Q)
      by (symmetry; apply signed_mantissa).
    destruct (valid_canonical s m e Hvalid) as [Hcan Hemax].
    pose proof (digits2_bounds m) as [_ Hdig].
    assert (He : -1074 <= e) by lia.
    assert (Hd53 : Z.pos (digits2_pos m) <= 53 \/ e = -1074) by lia.
    destruct (Z.leb_spec 0 e) as [Hpos|Hneg].
    + exists (n * 2 ^ e). split; [reflexivity|].
      assert (Hval : (sgn s * inject_Z (Z.pos m) * pow2 e
                      - inject_Z (n * 2 ^ e) == 0)%Q).
      { rewrite inject_Z_mult, <- (pow2_Z e Hpos), Hn. ring. }
      split; [rewrite Hval; split; lra|].
      exists 0, 0. split; [rewrite Hval; ring|]. split; [cbn; lia|lia].
    + set (k := - e). assert (Hk : 0 < k) by (unfold k; lia).
      replace (1 - e) with (k + 1) by (unfold k; lia).
      replace (- e) with k by reflexivity.
      set (r := (2 * n + 2 ^ k) / 2 ^ (k + 1)).
      pose proof (round_quotient n k Hk) as Hq. cbv zeta in Hq. fold r in Hq.
      exists r. split; [reflexivity|].
      assert (Hpk : 0 < 2 ^ k) by (apply Z.pow_pos_nonneg; lia).
      assert (Hval : (sgn s * inject_Z (Z.pos m) * pow2 e - inject_Z r
                      == inject_Z (n - r * 2 ^ k) * pow2 e)%Q).
      { rewrite inject_Z_sub, inject_Z_mult, <- (pow2_Z k) by lia. rewrite Hn.
        unfold k.
        transitivity (inject_Z n * pow2 e - inject_Z r * (pow2 e * pow2 (- e)))%Q;
          [rewrite pow2_inv|]; ring. }
      assert (Hhalf : (2 * (inject_Z (2 ^ k) * pow2 e) == 2)%Q).
      { rewrite <- (pow2_Z k) by lia. unfold k.
        rewrite (Qmult_comm (pow2 (- e))), pow2_inv. ring. }
      split.
      * rewrite Hval. pose proof (pow2_pos e) as Hpe.
        destruct Hq as [Hlo Hhi].
        rewrite Zle_Qle in Hlo. rewrite Zlt_Qlt in Hhi.
        rewrite inject_Z_opp in Hlo. rewrite !inject_Z_mult in Hlo, Hhi.
        change (inject_Z 2) with 2%Q in *.
        set (K := inject_Z (n - r * 2 ^ k)) in *. clearbody K.
        set (P := inject_Z (2 ^ k)) in *. clearbody P.
        set (p := pow2 e) in *. clearbody p.
        split; nra.
      * exists (n - r * 2 ^ k), e. split; [exact Hval|]. split; [|exact He].
        destruct (Z.le_gt_cases k 53) as [Hle|Hgt].
        -- assert (2 ^ k <= 2 ^ 53) by (apply Z.pow_le_mono_r; lia). lia.
        -- assert (Hm : Z.pos (digits2_pos m) <= 53).
           { destruct Hd53 as [H|H]; [exact H|]. lia. }
           assert (Hm53 : Z.pos m < 2 ^ 53).
           { apply (Z.lt_le_trans _ _ _ Hdig). apply Z.pow_le_mono_r; lia. }
           assert (H54 : 2 ^ 54 <= 2 ^ k) by (apply Z.pow_le_mono_r; lia).
           assert (Habs : Z.abs n = Z.pos m) by (unfold n; destruct s; reflexivity).
           assert (Hr0 : r = 0).
           { unfold r. apply Z.div_small. rewrite Z.pow_add_r by lia. lia. }
           rewrite Hr0. replace (n - 0 * 2 ^ k) with n by lia. lia.
Qed.

(** The carry of the allocation, [x - Math.round(x)], is computed
    without rounding. *)
Lemma carry_exact (x : float) (r : Z) :
  F64.finite x = true -> (- pow2 52 <= F64.value x <= pow2 52)%Q ->
  F64.round x = RInt r ->
  F64.finite (x - F64.ofZ r) = true
  /\ (F64.value (x - F64.ofZ r) == F64.value x - inject_Z r)%Q
  /\ (- (1 # 2) <= F64.value x - inject_Z r < 1 # 2)%Q
  /\ ((- (1 # 2) <= F64.value x)%Q -> 0 <= r).
Proof.
  intros Hf Hb Hr.
  destruct (round_spec x Hf) as [r' [Hr' [Hres [K [g [Hrep [HK Hg]]]]]]].
  rewrite Hr in Hr'. injection Hr' as <-.
  assert (H52 : (pow2 52 == inject_Z (2 ^ 52))%Q) by (apply pow2_Z; lia).
  assert (Hrb : Z.abs r < 2 ^ 53).
  { rewrite H52 in Hb.
    assert (Hlo : (inject_Z (- 2 ^ 52 - 1) < inject_Z r)%Q).
    { rewrite inject_Z_sub, inject_Z_opp. change (inject_Z 1) with 1%Q. lra. }
    assert (Hhi : (inject_Z r < inject_Z (2 ^ 52 + 1))%Q).
    { rewrite inject_Z_plus. change (inject_Z 1) with 1%Q. lra. }
    rewrite <- Zlt_Qlt in Hlo, Hhi. lia. }
  destruct (ofZ_exact r Hrb) as [Hfr [Hvr Hsr]].
  assert (Hsx : F64.small x) by (apply (small_of_bound x 52 Hf); [lia|exact Hb]).
  pose proof (sub_roundsTo x (F64.ofZ r) Hsx Hsr) as Hsub.
  apply (roundsTo_eq _ (F64.value x - inject_Z r)) in Hsub;
    [|rewrite Hvr; reflexivity].
  split; [exact (roundsTo_finite _ _ Hsub)|].
  split; [exact (roundsTo_exact _ _ K g Hsub Hrep HK Hg)|].
  split; [exact Hres|].
  intros Hx.
  assert (Hlt : (inject_Z (-1) < inject_Z r)%Q).
  { change (inject_Z (-1)) with (-1)%Q. lra. }
  rewrite <- Zlt_Qlt in Hlt. lia.
Qed.

(** ** Sums *)

Lemma fold_left_add_shift (l : list Z) (a : Z) :
  fold_left Z.add l a = a + fold_left Z.add l 0.
Proof.
  revert a; induction l as [|x l IH]; intros a; simpl.
  - lia.
  - rewrite (IH (a + x)), (IH x). lia.
Qed.

Lemma sumZ_cons (x : Z) (l : list Z) : sumZ (x :: l) = x + sumZ l.
Proof. unfold sumZ; simpl. apply fold_left_add_shift. Qed.

Lemma sumZ_app (l1 l2 : list Z) : sumZ (l1 ++ l2) = sumZ l1 + sumZ l2.
Proof.
  induction l1 as [|x l1 IH]; simpl.
  - reflexivity.
  - rewrite !sumZ_cons, IH. lia.
Qed.

(** ** Keyset counters *)

Lemma findCounter_snoc_absent (id : string) (cs : list KeysetCounter) (c : KeysetCounter) :
  findCounter id cs = None ->
  findCounter id (cs ++ [c]) = if String.eqb (kc_id c) id then Some c else None.
Proof.
  unfold findCounter. induction cs as [|d cs IH]; simpl; intros H.
  - reflexivity.
  - destruct (String.eqb (kc_id d) id); [discriminate | auto].
Qed.

Lemma findCounter_bumpFirst (id : string) (by_ : Z) (cs : list KeysetCounter)
  (c : KeysetCounter) :
  findCounter id cs = Some c ->
  findCounter id (bumpFirst id by_ cs)
  = Some (mkKeysetCounter (kc_id c) (kc_counter c + by_)).
Proof.
  unfold findCounter. induction cs as [|d cs IH]; simpl; intros H.
  - discriminate.
  - destruct (String.eqb (kc_id d) id) eqn:E; simpl.
    + rewrite E. now inversion H.
    + rewrite E. auto.
Qed.

Lemma counterOf_increase_absent (id : string) (by_ : Z) (cs : list KeysetCounter) :
  counterOf id cs = None ->
  counterOf id (increaseKeysetCounterOn id by_ cs) = Some by_.
Proof.
  unfold counterOf, increaseKeysetCounterOn. intros H.
  destruct (findCounter id cs) eqn:E; [discriminate|].
  rewrite (findCounter_snoc_absent _ _ _ E). simpl. now rewrite String.eqb_refl.
Qed.

Lemma counterOf_increase_present (id : string) (by_ c : Z) (cs : list KeysetCounter) :
  counterOf id cs = Some c ->
  counterOf id (increaseKeysetCounterOn id by_ cs) = Some (c + by_).
Proof.
  unfold counterOf, increaseKeysetCounterOn. intros H.
  destruct (findCounter id cs) as [k|] eqn:E; [|discriminate].
  rewrite (findCounter_bumpFirst _ _ _ _ E). simpl in *. now inversion H.
Qed.

Lemma keysetCounterOn_present (id : string) (c : Z) (cs : list KeysetCounter) :
  counterOf id cs = Some c -> keysetCounterOn id cs = (c, cs).
Proof.
  unfold counterOf, keysetCounterOn. destruct (findCounter id cs); simpl; intros H.
  - now inversion H.
  - discriminate.
Qed.

Lemma keysetCounterOn_absent (id : string) (cs : list KeysetCounter) :
  counterOf id cs = None ->
  keysetCounterOn id cs = (1, cs ++ [mkKeysetCounter id 1])
  /\ counterOf id (cs ++ [mkKeysetCounter id 1]) = Some 1.
Proof.
  unfold counterOf, keysetCounterOn. intros H.
  destruct (findCounter id cs) eqn:E; [discriminate|]. split; [reflexivity|].
  rewrite (findCounter_snoc_absent _ _ _ E). simpl. now rewrite String.eqb_refl.
Qed.

(** C9. For a keyset id with no entry in the counter store,
    [increaseKeysetCounter(id, by)] creates an entry whose counter is the
    delta [by] itself, negative when [by] is; [keysetCounter(id)] then
    returns [by], whereas it returns [1 + by] when [keysetCounter(id)]
    touched the id first. *)
Theorem increaseKeysetCounter_absent_creates_delta
  (id : string) (by_ : Z) (st : WalletState) :
  counterOf id (keysetCounters st) = None ->
  let increased := snd (increaseKeysetCounter id by_ st) in
  let readFirst := snd (keysetCounter id st) in
  counterOf id (keysetCounters increased) = Some by_
  /\ (by_ < 0 -> exists c, counterOf id (keysetCounters increased) = Some c /\ c < 0)
  /\ fst (keysetCounter id increased) = Returned by_
  /\ fst (keysetCounter id (snd (increaseKeysetCounter id by_ readFirst)))
     = Returned (1 + by_).
Proof.
  intros Habs increased readFirst.
  assert (Hinc : counterOf id (keysetCounters increased) = Some by_).
  { subst increased. simpl. now apply counterOf_increase_absent. }
  split; [exact Hinc|]. split; [|split].
  - intros Hneg. exists by_. split; [exact Hinc | exact Hneg].
  - unfold keysetCounter. rewrite (keysetCounterOn_present _ _ _ Hinc). reflexivity.
  - subst readFirst. unfold keysetCounter at 2.
    destruct (keysetCounterOn_absent _ _ Habs) as [E1 E2]. rewrite E1. simpl.
    unfold keysetCounter. simpl.
    rewrite (keysetCounterOn_present id _ _
               (counterOf_increase_present id by_ 1 _ E2)).
    reflexivity.
Qed.

Lemma increaseKeysetCounter_absent_witness :
  let st := initialState [] "sat" "https://mint.example" [] in
  let increased := snd (increaseKeysetCounter "00ad268c4d1f5826" (-3) st) in
  let readFirst := snd (keysetCounter "00ad268c4d1f5826" st) in
  counterOf "00ad268c4d1f5826" (keysetCounters increased) = Some (-3)
  /\ (-3 < 0 -> exists c,
        counterOf "00ad268c4d1f5826" (keysetCounters increased) = Some c /\ c < 0)
  /\ fst (keysetCounter "00ad268c4d1f5826" increased) = Returned (-3)
  /\ fst (keysetCounter "00ad268c4d1f5826"
            (snd (increaseKeysetCounter "00ad268c4d1f5826" (-3) readFirst)))
     = Returned (1 + -3).
Proof.
  apply (increaseKeysetCounter_absent_creates_delta "00ad268c4d1f5826" (-3)
           (initialState [] "sat" "https://mint.example" [])).
  reflexivity.
Defined.

(** ** splitAmount *)

Lemma toInt32_range (v : Z) : - 2 ^ 31 <= toInt32 v < 2 ^ 31.
Proof.
  unfold toInt32.
  pose proof (Z.mod_pos_bound (v + 2 ^ 31) (2 ^ 32) ltac:(lia)). lia.
Qed.

Lemma toInt32_mod (v : Z) : toInt32 v mod 2 ^ 32 = v mod 2 ^ 32.
Proof.
  unfold toInt32. rewrite Zminus_mod_idemp_l. f_equal. lia.
Qed.

Lemma toInt32_testbit (v i : Z) :
  0 <= i < 32 -> Z.testbit (toInt32 v) i = Z.testbit v i.
Proof.
  intros Hi.
  rewrite <- (Z.mod_pow2_bits_low (toInt32 v) 32 i) by lia.
  rewrite <- (Z.mod_pow2_bits_low v 32 i) by lia.
  now rewrite toInt32_mod.
Qed.

Lemma toInt32_small (v : Z) : - 2 ^ 31 <= v < 2 ^ 31 -> toInt32 v = v.
Proof.
  intros H. unfold toInt32. rewrite Z.mod_small; lia.
Qed.

(** The mask [1 << i]: [2^i], and the negative [-2^31] at [i = 31]. *)
Lemma shl32_one (i : Z) :
  0 <= i < 32 -> shl32 1 i = if i =? 31 then - 2 ^ 31 else 2 ^ i.
Proof.
  intros Hi. unfold shl32.
  rewrite (toInt32_small 1) by lia.
  rewrite Z.mod_small by lia. rewrite Z.shiftl_1_l.
  destruct (Z.eqb_spec i 31) as [->|Hne].
  - reflexivity.
  - apply toInt32_small.
    assert (2 ^ i <= 2 ^ 30) by (apply Z.pow_le_mono_r; lia).
    pose proof (Z.pow_pos_nonneg 2 i). lia.
Qed.

Lemma land_pow2_eqb (x i : Z) :
  0 <= i -> (Z.land x (2 ^ i) =? 0) = negb (Z.testbit x i).
Proof.
  intros Hi. destruct (Z.testbit x i) eqn:E; simpl.
  - apply Z.eqb_neq. intros H0.
    assert (Hb : Z.testbit (Z.land x (2 ^ i)) i = true).
    { rewrite Z.land_spec, E, Z.pow2_bits_true by lia. reflexivity. }
    rewrite H0, Z.bits_0 in Hb. discriminate.
  - apply Z.eqb_eq. apply Z.bits_inj'. intros n Hn.
    rewrite Z.land_spec, Z.bits_0, Z.pow2_bits_eqb by lia.
    destruct (Z.eqb_spec i n) as [->|]; [now rewrite E | apply andb_false_r].
Qed.

Lemma int32_sign_bit (x : Z) :
  - 2 ^ 31 <= x < 2 ^ 31 -> Z.testbit x 31 = (x <? 0).
Proof.
  intros Hx. destruct (Z.ltb_spec x 0) as [Hneg|Hpos].
  - apply Z.testbit_true; [lia|].
    assert (x / 2 ^ 31 = -1) as ->; [|reflexivity].
    symmetry. apply (Z.div_unique x (2 ^ 31) (-1) (x + 2 ^ 31)); lia.
  - apply Z.testbit_false; [lia|].
    rewrite Z.div_small by lia. reflexivity.
Qed.

Lemma min_int32_low_bits (n : Z) : 0 <= n < 31 -> Z.testbit (- 2 ^ 31) n = false.
Proof.
  intros Hn. rewrite Z.bits_opp by lia.
  rewrite <- Z.ones_equiv, Z.ones_spec_low by lia. reflexivity.
Qed.

Lemma land_min_int32_eqb (x : Z) :
  - 2 ^ 31 <= x < 2 ^ 31 ->
  (Z.land x (- 2 ^ 31) =? 0) = negb (Z.testbit x 31).
Proof.
  intros Hx. rewrite (int32_sign_bit x Hx).
  destruct (Z.ltb_spec x 0) as [Hneg|Hpos]; cbn [negb].
  - apply Z.eqb_neq. intros H0.
    assert (Hb : Z.testbit (Z.land x (- 2 ^ 31)) 31 = true).
    { rewrite Z.land_spec, (int32_sign_bit x Hx).
      destruct (Z.ltb_spec x 0); [reflexivity | lia]. }
    rewrite H0, Z.bits_0 in Hb. discriminate.
  - apply Z.eqb_eq. apply Z.bits_inj'. intros n Hn.
    rewrite Z.land_spec, Z.bits_0.
    destruct (Z.lt_ge_cases n 31) as [Hlow|Hhigh].
    + rewrite min_int32_low_bits by lia. apply andb_false_r.
    + assert (Z.testbit x n = false) as ->; [|reflexivity].
      apply Z.testbit_false; [lia|].
      assert (2 ^ 31 <= 2 ^ n) by (apply Z.pow_le_mono_r; lia).
      rewrite Z.div_small by lia. reflexivity.
Qed.

(** The test of the loop reads bit [i] of the value. *)
Lemma splitAmount_test (value i : Z) :
  0 <= i < 32 ->
  negb (and32 value (shl32 1 i) =? 0) = Z.testbit value i.
Proof.
  intros Hi. unfold and32. rewrite (shl32_one i Hi).
  destruct (Z.eqb_spec i 31) as [->|Hne].
  - rewrite (toInt32_small (- 2 ^ 31)) by lia.
    rewrite land_min_int32_eqb by apply toInt32_range.
    rewrite negb_involutive. apply toInt32_testbit. lia.
  - assert (2 ^ i <= 2 ^ 30) by (apply Z.pow_le_mono_r; lia).
    pose proof (Z.pow_pos_nonneg 2 i ltac:(lia) ltac:(lia)).
    rewrite (toInt32_small (2 ^ i)) by lia.
    rewrite land_pow2_eqb by lia.
    rewrite negb_involutive. apply toInt32_testbit. lia.
Qed.

Lemma fold_splitStep (value : Z) (l : list Z) (acc : list Z) :
  fold_left (splitStep value) l acc
  = acc ++ map (Z.pow 2)
             (filter (fun i => negb (and32 value (shl32 1 i) =? 0)) l).
Proof.
  revert acc. induction l as [|i l IH]; intros acc; simpl.
  - now rewrite app_nil_r.
  - rewrite IH. unfold splitStep.
    destruct (negb (and32 value (shl32 1 i) =? 0)); simpl.
    + now rewrite <- app_assoc.
    + reflexivity.
Qed.

Lemma loop32_range (i : Z) : In i loop32 <-> 0 <= i < 32.
Proof.
  unfold loop32. rewrite in_map_iff. split.
  - intros [n [<- Hn]]. apply in_seq in Hn. lia.
  - intros Hi. exists (Z.to_nat i). split; [lia|]. apply in_seq. lia.
Qed.

(** [splitAmount] lists [2^i] for the set bits [i < 32], in rising order. *)
Lemma splitAmount_bits (value : Z) :
  splitAmount value = map (Z.pow 2) (filter (Z.testbit value) loop32).
Proof.
  unfold splitAmount. rewrite fold_splitStep, app_nil_l. f_equal.
  apply filter_ext_in. intros i Hi. apply splitAmount_test.
  now apply loop32_range.
Qed.

Lemma sum_bits_below (value : Z) (n : nat) :
  sumZ (map (Z.pow 2) (filter (Z.testbit value) (map Z.of_nat (seq 0 n))))
  = value mod 2 ^ Z.of_nat n.
Proof.
  induction n as [|n IH].
  - simpl. now rewrite Z.mod_1_r.
  - rewrite seq_S, map_app, filter_app, map_app, sumZ_app, IH. simpl plus.
    rewrite Nat2Z.inj_succ, Z.pow_succ_r by lia.
    rewrite (Z.mul_comm 2), Z.rem_mul_r by lia.
    rewrite <- Z.testbit_spec' by lia.
    simpl. destruct (Z.testbit value (Z.of_nat n)); simpl.
    + rewrite sumZ_cons. unfold sumZ. simpl. lia.
    + unfold sumZ. simpl. lia.
Qed.

(** The chunks always add up to the low 32 bits of the value. *)
Lemma splitAmount_sum_mod (value : Z) :
  sumZ (splitAmount value) = value mod 2 ^ 32.
Proof.
  rewrite splitAmount_bits. unfold loop32. apply (sum_bits_below value 32).
Qed.

Lemma splitAmount_In (value c : Z) :
  In c (splitAmount value)
  <-> exists i, 0 <= i < 32 /\ Z.testbit value i = true /\ c = 2 ^ i.
Proof.
  rewrite splitAmount_bits, in_map_iff. split.
  - intros [i [<- Hi]]. apply filter_In in Hi. destruct Hi as [Hi Hb].
    exists i. repeat split; auto; now apply loop32_range.
  - intros [i [Hi [Hb ->]]]. exists i. split; [reflexivity|].
    apply filter_In. split; [now apply loop32_range | exact Hb].
Qed.

Lemma splitAmount_NoDup (value : Z) : NoDup (splitAmount value).
Proof.
  rewrite splitAmount_bits. apply NoDup_map_NoDup_ForallPairs.
  - intros i j Hi Hj Heq.
    apply filter_In in Hi. apply filter_In in Hj.
    destruct Hi as [Hi _], Hj as [Hj _].
    apply loop32_range in Hi. apply loop32_range in Hj.
    apply (Z.pow_inj_r 2); lia.
  - apply NoDup_filter. unfold loop32.
    apply NoDup_map_NoDup_ForallPairs; [|apply seq_NoDup].
    intros a b _ _. apply Nat2Z.inj.
Qed.

(** C4, as the code has it. For every integer [0 <= v < 2^32], the chunks
    of [splitAmount(v)] add up to [v], each chunk is a power of two, no
    chunk appears twice, and the chunks are exactly the [2^i] with bit [i]
    of [v] set. (The loop reads 32 bits only: above that the chunks add up
    to [v mod 2^32], see [splitAmount_sum_mod].) *)
Theorem splitAmount_binary_decomposition (v : Z) :
  0 <= v < 2 ^ 32 ->
  sumZ (splitAmount v) = v
  /\ Forall (fun c => exists i, 0 <= i /\ c = 2 ^ i) (splitAmount v)
  /\ NoDup (splitAmount v)
  /\ (forall c, In c (splitAmount v)
                <-> exists i, 0 <= i /\ Z.testbit v i = true /\ c = 2 ^ i).
Proof.
  intros Hv. split; [|split; [|split]].
  - rewrite splitAmount_sum_mod. apply Z.mod_small. exact Hv.
  - apply Forall_forall. intros c Hc. apply splitAmount_In in Hc.
    destruct Hc as [i [Hi [_ ->]]]. exists i. split; [lia | reflexivity].
  - apply splitAmount_NoDup.
  - intros c. rewrite splitAmount_In. split.
    + intros [i [Hi [Hb ->]]]. exists i. repeat split; auto; lia.
    + intros [i [Hi [Hb ->]]]. exists i. repeat split; auto; try lia.
      destruct (Z.lt_ge_cases i 32) as [|Hbig]; [assumption|].
      exfalso.
      assert (Hfalse : Z.testbit v i = false).
      { apply Z.testbit_false; [lia|].
        assert (2 ^ 32 <= 2 ^ i) by (apply Z.pow_le_mono_r; lia).
        rewrite Z.div_small by lia. reflexivity. }
      congruence.
Qed.

Lemma splitAmount_binary_decomposition_witness :
  sumZ (splitAmount 100) = 100
  /\ Forall (fun c => exists i, 0 <= i /\ c = 2 ^ i) (splitAmount 100)
  /\ NoDup (splitAmount 100)
  /\ (forall c, In c (splitAmount 100)
                <-> exists i, 0 <= i /\ Z.testbit 100 i = true /\ c = 2 ^ i).
Proof.
  apply (splitAmount_binary_decomposition 100). lia.
Defined.

(** C4, as stated, fails at [v = 2^32]: a non-negative integer whose
    chunks are none, with sum 0. *)
Lemma splitAmount_sum_counterexample :
  0 <= 4294967296
  /\ splitAmount 4294967296 = []
  /\ sumZ (splitAmount 4294967296) <> 4294967296.
Proof.
  split; [lia|]. split; [reflexivity|]. vm_compute. discriminate.
Qed.

Example splitAmount_100 : splitAmount 100 = [4; 32; 64].
Proof. reflexivity. Qed.

(** ** Coin selection *)

Lemma sumAmounts_cons (p : WalletProof) (ps : list WalletProof) :
  sumAmounts (p :: ps) = p_amount p + sumAmounts ps.
Proof. unfold sumAmounts. cbn [map]. apply sumZ_cons. Qed.

Lemma sumAmounts_app (ps qs : list WalletProof) :
  sumAmounts (ps ++ qs) = sumAmounts ps + sumAmounts qs.
Proof. unfold sumAmounts. rewrite map_app. apply sumZ_app. Qed.

Lemma sumAmounts_nonneg (ps : list WalletProof) :
  Forall (fun p => 0 <= p_amount p) ps -> 0 <= sumAmounts ps.
Proof.
  induction 1 as [|p ps Hp _ IH]; [unfold sumAmounts, sumZ; cbn; lia|].
  rewrite sumAmounts_cons. lia.
Qed.

(** One addition of the running sum: below [2^53] nothing is rounded. *)
Lemma sum_step_exact (sum : float) (a b : Z) :
  F64.finite sum = true -> (F64.value sum == inject_Z a)%Q ->
  0 <= a -> 0 <= b -> a + b < 2 ^ 53 ->
  F64.finite (sum + F64.ofZ b) = true
  /\ (F64.value (sum + F64.ofZ b) == inject_Z (a + b))%Q.
Proof.
  intros Hf Hv Ha Hb Hab.
  destruct (ofZ_exact b ltac:(lia)) as [_ [Hvb Hsb]].
  apply add_exact; [apply (small_of_int sum a Hf Hv); lia|exact Hsb| |lia].
  rewrite Hv, Hvb, inject_Z_plus. reflexivity.
Qed.

(** The sum [reduce] computes, from any point of the fold on, is the sum
    of the integers while that stays below [2^53]. *)
Lemma reduce_exact (ps : list WalletProof) (sum : float) (a : Z) :
  F64.finite sum = true -> (F64.value sum == inject_Z a)%Q -> 0 <= a ->
  Forall (fun p => 0 <= p_amount p) ps -> a + sumAmounts ps < 2 ^ 53 ->
  let r := fold_left (fun s t => (s + F64.ofZ (p_amount t))%float) ps sum in
  F64.finite r = true /\ (F64.value r == inject_Z (a + sumAmounts ps))%Q.
Proof.
  revert sum a. induction ps as [|p ps IH]; intros sum a Hf Hv Ha Hps Hlt r.
  - subst r. cbn [fold_left]. split; [exact Hf|].
    change (sumAmounts []) with 0. rewrite Z.add_0_r. exact Hv.
  - inversion Hps as [|? ? Hp Hps']; subst.
    pose proof (sumAmounts_nonneg ps Hps') as Hrest.
    rewrite sumAmounts_cons in Hlt.
    destruct (sum_step_exact sum a (p_amount p) Hf Hv Ha Hp ltac:(lia)) as [Hf' Hv'].
    subst r. cbn [fold_left]. rewrite sumAmounts_cons, Z.add_assoc.
    apply IH; [exact Hf'|exact Hv'|lia|exact Hps'|lia].
Qed.

Lemma reduceAmounts_exact (ps : list WalletProof) :
  Forall (fun p => 0 <= p_amount p) ps -> sumAmounts ps < 2 ^ 53 ->
  F64.finite (reduceAmounts ps) = true
  /\ (F64.value (reduceAmounts ps) == inject_Z (sumAmounts ps))%Q.
Proof.
  intros Hps Hlt. unfold reduceAmounts.
  apply (reduce_exact ps 0%float 0); [reflexivity|reflexivity|lia|exact Hps|lia].
Qed.

(** The guard of [coinSelect] on amounts that binary64 holds exactly. *)
Lemma coinSelect_guard (ps : list WalletProof) (amount : Z) :
  Forall (fun p => 0 <= p_amount p) ps -> sumAmounts ps < 2 ^ 53 ->
  Z.abs amount < 2 ^ 53 ->
  (reduceAmounts ps <? F64.ofZ amount)%float = (sumAmounts ps <? amount).
Proof.
  intros Hps Hsum Hamount.
  destruct (reduceAmounts_exact ps Hps Hsum) as [Hf Hv].
  destruct (ofZ_exact amount Hamount) as [Hfa [Hva _]].
  pose proof (ltb_value (reduceAmounts ps) (F64.ofZ amount) Hf Hfa) as Hlt.
  rewrite Hv, Hva, <- Zlt_Qlt in Hlt.
  destruct (Z.ltb_spec (sumAmounts ps) amount) as [H|H].
  - apply Hlt. exact H.
  - destruct (reduceAmounts ps <? F64.ofZ amount)%float; [|reflexivity].
    assert (sumAmounts ps < amount) by (apply Hlt; reflexivity). lia.
Qed.

Lemma coinSelect_unreserved (env : Env) (ps : list WalletProof) (amount : Z)
  (includeFees : bool) :
  Forall (fun p => p_reserved p = false) (coinSelect env ps amount includeFees).
Proof.
  unfold coinSelect. destruct (reduceAmounts ps <? F64.ofZ amount)%float.
  - constructor.
  - apply Forall_forall. intros p Hp. apply in_map_iff in Hp.
    destruct Hp as [q [<- _]]. reflexivity.
Qed.

(** C5, within the integers binary64 holds exactly. For proofs of
    non-negative amounts and an amount below [2^53], [coinSelect] returns
    [[]] whenever the amounts add up to less than the amount. From an
    empty input it returns [[]] for every amount above zero; for an amount
    of zero or less the guard lets the call through, and the result is
    what the library's selector selects from nothing. Every proof of a
    result carries [reserved = false]. *)
Theorem coinSelect_insufficient_empty_unreserved
  (env : Env) (ps : list WalletProof) (amount : Z) (includeFees : bool) :
  (Forall (fun p => 0 <= p_amount p) ps -> amount < 2 ^ 53 ->
   sumAmounts ps < amount -> coinSelect env ps amount includeFees = [])
  /\ (0 < amount -> coinSelect env [] amount includeFees = [])
  /\ (amount <= 0 ->
      coinSelect env [] amount includeFees
      = map unreservedCopy (selectProofsToSend env [] amount includeFees))
  /\ Forall (fun p => p_reserved p = false) (coinSelect env ps amount includeFees).
Proof.
  split; [|split; [|split]].
  - intros Hps Hamount H. unfold coinSelect.
    pose proof (sumAmounts_nonneg ps Hps) as Hnonneg.
    rewrite (coinSelect_guard ps amount Hps) by lia.
    destruct (Z.ltb_spec (sumAmounts ps) amount); [reflexivity | lia].
  - intros H. unfold coinSelect. change (reduceAmounts []) with 0%float.
    now rewrite (ofZ_positive amount H).
  - intros H. unfold coinSelect. change (reduceAmounts []) with 0%float.
    now rewrite (ofZ_not_positive amount H).
  - apply coinSelect_unreserved.
Qed.

Lemma coinSelect_witness :
  let env := scriptedEnv offline in
  let ps := [mkProof 4 "s1" "c1" "00ad268c4d1f5826" true (Some "q1"); proofOf 8 "s2"] in
  coinSelect env ps 64 true = []
  /\ coinSelect env [] 1 false = []
  /\ coinSelect env [] 0 false = []
  /\ Forall (fun p => p_reserved p = false) (coinSelect env ps 10 false)
  /\ coinSelect env ps 10 false <> [].
Proof.
  pose proof (coinSelect_insufficient_empty_unreserved (scriptedEnv offline)
                [mkProof 4 "s1" "c1" "00ad268c4d1f5826" true (Some "q1"); proofOf 8 "s2"]
                64 true) as [H64 _].
  pose proof (coinSelect_insufficient_empty_unreserved (scriptedEnv offline)
                [mkProof 4 "s1" "c1" "00ad268c4d1f5826" true (Some "q1"); proofOf 8 "s2"]
                10 false) as [_ [_ [_ H10]]].
  pose proof (coinSelect_insufficient_empty_unreserved (scriptedEnv offline)
                [] 1 false) as [_ [H1 _]].
  pose proof (coinSelect_insufficient_empty_unreserved (scriptedEnv offline)
                [] 0 false) as [_ [_ [H0 _]]].
  cbv zeta. split; [apply H64; [repeat constructor; cbn; lia|lia|reflexivity]|].
  split; [apply H1; lia|]. split; [rewrite H0 by lia; reflexivity|].
  split; [exact H10 | discriminate].
Defined.

(** C5, as stated, fails where the sum is rounded: proofs of [2^53 + 2]
    and 1 add up to [2^53 + 3], less than the amount [2^53 + 4]; the sum
    the code computes is rounded to [2^53 + 4], the guard does not fire,
    and the selection is not empty. *)
Lemma coinSelect_rounded_sum_counterexample :
  let ps := [proofOf 9007199254740994 "s1"; proofOf 1 "s2"] in
  let amount := 9007199254740996 in
  sumAmounts ps < amount
  /\ (reduceAmounts ps <? F64.ofZ amount)%float = false
  /\ coinSelect (scriptedEnv offline) ps amount false = ps
  /\ coinSelect (scriptedEnv offline) ps amount false <> [].
Proof.
  cbv zeta. split; [reflexivity|]. split; [vm_compute; reflexivity|].
  split; [vm_compute; reflexivity|]. vm_compute. discriminate.
Qed.

(** ** Spendable proofs *)

(** C6. [spendableProofs(P, a)] throws "Balance too low" if and only if
    the unreserved proofs of [P] add up to less than [a]; it throws nothing
    else, and when it does not throw it returns exactly the unreserved
    proofs of [P]. *)
Theorem spendableProofs_balance_too_low_iff (P : list WalletProof) (a : Z) :
  (spendableProofs P a = Threw (JsError "Balance too low")
   <-> sumProofs (getUnreservedProofs P) < a)
  /\ ((exists e, spendableProofs P a = Threw e)
      <-> sumProofs (getUnreservedProofs P) < a)
  /\ ((~ exists e, spendableProofs P a = Threw e) ->
      spendableProofs P a = Returned (getUnreservedProofs P)
      /\ a <= sumProofs (getUnreservedProofs P)).
Proof.
  unfold spendableProofs.
  destruct (Z.ltb_spec (sumProofs (getUnreservedProofs P)) a) as [Hlt|Hge].
  - split; [|split].
    + split; [intros _; exact Hlt | reflexivity].
    + split; [intros _; exact Hlt | intros _; eexists; reflexivity].
    + intros Hno. exfalso. apply Hno. eexists; reflexivity.
  - split; [|split].
    + split; [discriminate | lia].
    + split; [intros [e He]; discriminate | lia].
    + intros _. split; [reflexivity | exact Hge].
Qed.

Lemma spendableProofs_witness :
  let P := [mkProof 4 "s1" "c1" "00ad268c4d1f5826" true (Some "q1"); proofOf 8 "s2"] in
  spendableProofs P 8 = Returned [proofOf 8 "s2"]
  /\ spendableProofs P 9 = Threw (JsError "Balance too low").
Proof.
  cbv zeta. split.
  - apply (spendableProofs_balance_too_low_iff
             [mkProof 4 "s1" "c1" "00ad268c4d1f5826" true (Some "q1"); proofOf 8 "s2"] 8).
    intros [e He]. vm_compute in He. discriminate.
  - apply (spendableProofs_balance_too_low_iff
             [mkProof 4 "s1" "c1" "00ad268c4d1f5826" true (Some "q1"); proofOf 8 "s2"] 9).
    vm_compute. reflexivity.
Defined.

(** ** The proof reconciler *)

(** C10. On the empty proof list [checkProofsSpendable] returns [undefined]
    (not an empty list), sends nothing to the mint, and leaves the whole
    state, the proof store and the token history with it, as it was,
    whatever [update_history] is. *)
Theorem checkProofsSpendable_empty (env : Env) (update_history : bool)
  (st : WalletState) :
  let '(r, st') := checkProofsSpendable env [] update_history st in
  r = Returned None
  /\ r <> Returned (Some [])
  /\ requests st' = requests st
  /\ proofs st' = proofs st
  /\ historyTokens st' = historyTokens st
  /\ st' = st.
Proof.
  simpl. repeat split. discriminate.
Qed.

(** ** The blocking latch of the quote actions *)

Ltac run_action :=
  repeat (cbv beta iota delta [bind ret throw get modify tryCatch tryFinally
                                liftOutcome call assertMintError]; cbn [fst snd]).

Lemma meltQuote_latch (env : Env) :
  latchContract (meltQuote env)
    (fun st => mqs_error (meltQuoteSlot (payInvoiceData st))).
Proof.
  intros st. split; intros Hb.
  - unfold meltQuote. run_action. now rewrite Hb.
  - unfold meltQuote. run_action. rewrite Hb. cbn.
    destruct (String.eqb _ ""); cbn.
    + split; [reflexivity|]. intros e He. now inversion He.
    + destruct (apiCreateMeltQuote env _ _) as [data|err]; cbn.
      * destruct (mq_error data); cbn.
        -- split; [reflexivity|]. intros e He. now inversion He.
        -- split; [reflexivity|]. intros e He. discriminate.
      * split; [reflexivity|]. intros e He. now inversion He.
Qed.

Lemma multiPathMeltQuotes_latch {N : Type} {num : JsNum N} (env : Env)
  (multiMintBalance : string -> string -> Z * list N) :
  latchContract (multiPathMeltQuotes env multiMintBalance)
    (fun st => mps_error (multiPartMeltQuotes (payInvoiceData st))).
Proof.
  intros st. split; intros Hb.
  - unfold multiPathMeltQuotes. run_action. now rewrite Hb.
  - unfold multiPathMeltQuotes. run_action. rewrite Hb. cbn.
    destruct (String.eqb _ ""); cbn.
    { split; [reflexivity|]. intros e He. now inversion He. }
    destruct (getMultiMints env "bolt11" (activeUnit st)) as [|m ms]; cbn.
    { split; [reflexivity|]. intros e He. now inversion He. }
    destruct (multiMintBalance "bolt11" (activeUnit st)) as [overall weights]; cbn.
    destruct (Z.eqb _ 0); cbn.
    { split; [reflexivity|]. intros e He. now inversion He. }
    destruct (Z.ltb overall _); cbn.
    { split; [reflexivity|]. intros e He. now inversion He. }
    match goal with
    | |- context [requestQuotes env ?ps ?rs ?s] =>
        destruct (requestQuotes env ps rs s) as [[responses|err] st1]
    end; cbn.
    + split; [reflexivity|]. intros e He. discriminate.
    + split; [reflexivity|]. intros e He. now inversion He.
Qed.

(** C7. [meltQuote], and likewise [multiPathMeltQuotes], throws "already
    processing" at once when the session's [blocking] latch is set: the
    state, the request log with it, is untouched. Every other run, whether
    it returns or throws, ends with the latch released, and the error of a
    run that throws is stored in the action's error slot of the session. *)
Theorem melt_quote_actions_respect_latch (env : Env) :
  latchContract (meltQuote env)
    (fun st => mqs_error (meltQuoteSlot (payInvoiceData st)))
  /\ forall (N : Type) (num : JsNum N)
            (multiMintBalance : string -> string -> Z * list N),
       latchContract (multiPathMeltQuotes env multiMintBalance)
         (fun st => mps_error (multiPartMeltQuotes (payInvoiceData st))).
Proof.
  split.
  - apply meltQuote_latch.
  - intros N num multiMintBalance. apply multiPathMeltQuotes_latch.
Qed.

Lemma melt_quote_latch_witness :
  let env := scriptedEnv offline in
  let idle :=
    set_payInvoiceData (set_input (fun _ => mkPayInput "lnbc1u1example" None "" ""))
      (initialState [satKeyset] "sat" "https://mint.example" []) in
  let busy := set_payInvoiceData (set_blocking true) idle in
  meltQuote env busy
  = (Threw (JsError "already processing an melt quote."), busy)
  /\ blocking (payInvoiceData (snd (meltQuote env idle))) = false
  /\ mqs_error (meltQuoteSlot (payInvoiceData (snd (meltQuote env idle))))
     = Some (JsError "Network Error")
  /\ requests (snd (meltQuote env idle))
     = [ReqCreateMeltQuote "https://mint.example" "lnbc1u1example"].
Proof.
  cbv zeta.
  destruct (melt_quote_actions_respect_latch (scriptedEnv offline)) as [Hcontract _].
  split; [|split; [|split]].
  - apply Hcontract. reflexivity.
  - reflexivity.
  - reflexivity.
  - reflexivity.
Defined.

(** ** LNURL pay, first step *)

Lemma splitGo_nonempty (sep s : string) (skip : nat) (cur : string) :
  Str.splitGo sep s skip cur <> [].
Proof.
  revert skip cur. induction s as [|c s IH]; intros skip cur; cbn [Str.splitGo].
  - discriminate.
  - destruct skip as [|k]; [|apply IH].
    destruct (String.prefix sep (String c s)); [discriminate | apply IH].
Qed.

(** A host that starts with ["https://"] has a domain. *)
Lemma lnurlDomain_https (rest : string) :
  exists d, lnurlDomain ("https://" ++ rest) = Returned d.
Proof.
  unfold lnurlDomain, Str.split.
  change ("https://" ++ rest)%string
    with (String "h" (String "t" (String "t" (String "p" (String "s"
           (String ":" (String "/" (String "/" rest)))))))).
  cbn.
  assert (String.prefix "" rest = true) as -> by (destruct rest; reflexivity).
  destruct (Str.splitGo "https://" rest 0 "") as [|piece pieces] eqn:E.
  - exfalso. exact (splitGo_nonempty _ _ _ _ E).
  - destruct (Str.splitGo "/" piece 0 "") as [|d ds]; eexists; reflexivity.
Qed.

(** C2, as the code has it. For a lightning address [user@host] whose
    LNURL endpoint answers with [tag == "payRequest"] and
    [minSendable == maxSendable], [lnurlPayFirst] returns with the response
    stored as [lnurlpay], and with the session's input reset: its amount is
    [null], not [maxSendable / 1000], because [payInvoiceData.input] is
    replaced after the amount was written into it. *)
Theorem lnurlPayFirst_resets_amount
  (env : Env) (address user lnaddresshost : string) (data : LnurlPay)
  (st : WalletState) :
  Str.split "@" address = [user; lnaddresshost] ->
  axiosGet env ("https://" ++ lnaddresshost ++ "/.well-known/lnurlp/" ++ user)
  = Returned data ->
  ln_tag data = "payRequest" ->
  ln_minSendable data = ln_maxSendable data ->
  exists st',
    lnurlPayFirst env address st = (Returned tt, st')
    /\ ln_maxSendable (lnurlpay (payInvoiceData st')) = ln_maxSendable data
    /\ input (payInvoiceData st') = mkPayInput "" None "" ""
    /\ in_amount (input (payInvoiceData st')) = None.
Proof.
  intros Hsplit Hget Htag Hminmax.
  unfold lnurlPayFirst. rewrite Hsplit. run_action. rewrite Hget.
  unfold lnurlPayStore. rewrite Htag. run_action. cbn [String.eqb Ascii.eqb Bool.eqb].
  destruct (lnurlDomain_https (lnaddresshost ++ "/.well-known/lnurlp/" ++ user))
    as [d Hd].
  rewrite Hd. cbn.
  rewrite Hminmax, Z.eqb_refl. cbn.
  eexists. repeat split.
Qed.

Lemma lnurlPayFirst_resets_amount_witness :
  let env :=
    scriptedEnv
      (mkScript networkDown networkDown networkDown networkDown networkDown
         networkDown networkDown
         (Returned (mkLnurlPay "" "https://example.com/lnurlp/alice/callback"
                      10000 10000 "payRequest"))) in
  let st := initialState [satKeyset] "sat" "https://mint.example" [] in
  exists st',
    lnurlPayFirst env "alice@example.com" st = (Returned tt, st')
    /\ ln_maxSendable (lnurlpay (payInvoiceData st')) = 10000
    /\ input (payInvoiceData st') = mkPayInput "" None "" ""
    /\ in_amount (input (payInvoiceData st')) = None.
Proof.
  cbv zeta.
  apply (lnurlPayFirst_resets_amount _ "alice@example.com" "alice" "example.com"
           (mkLnurlPay "" "https://example.com/lnurlp/alice/callback"
              10000 10000 "payRequest")); reflexivity.
Defined.

(** The run of scenario S7: the request goes to the well-known URL of the
    address, and the amount is [null] when the call returns. *)
Example lnurlPayFirst_alice :
  let env :=
    scriptedEnv
      (mkScript networkDown networkDown networkDown networkDown networkDown
         networkDown networkDown
         (Returned (mkLnurlPay "" "https://example.com/lnurlp/alice/callback"
                      10000 10000 "payRequest"))) in
  let st' :=
    snd (lnurlPayFirst env "alice@example.com"
           (initialState [satKeyset] "sat" "https://mint.example" [])) in
  requests st' = [ReqHttpGet "https://example.com/.well-known/lnurlp/alice"]
  /\ ln_domain (lnurlpay (payInvoiceData st')) = "example.com"
  /\ in_amount (input (payInvoiceData st')) = None.
Proof. repeat split. Qed.

(** ** Outputs already signed *)

Lemma getKeyset_run (st : WalletState) :
  (exists kid, getKeyset st = (Returned kid, st))
  \/ (exists e, getKeyset st = (Threw e, st) /\ isOutputsSignedError e = false).
Proof.
  unfold getKeyset. run_action.
  destruct (keysets st) as [|k ks]; [right; eexists; split; reflexivity|].
  cbv zeta.
  destruct (unitKeysets (activeUnit st) (k :: ks)) as [|u us];
    [right; eexists; split; reflexivity|].
  match goal with
  | |- context [match ?l with [] => _ | _ :: _ => _ end] => destruct l as [|a l']
  end.
  - right; eexists; split; reflexivity.
  - left; eexists; reflexivity.
Qed.

Lemma map_reserve_core (ps : list WalletProof) (r : bool) (q : option string)
  (store : list WalletProof) :
  map proofCore
    (map (fun p => if proofIn p ps then reserveProof r q p else p) store)
  = map proofCore store.
Proof.
  rewrite map_map. apply map_ext. intros p. now destruct (proofIn p ps).
Qed.

Lemma counterOf_keysetCounterOn (id : string) (cs : list KeysetCounter) :
  counterOf id (snd (keysetCounterOn id cs))
  = Some (match counterOf id cs with Some c => c | None => 1 end).
Proof.
  destruct (counterOf id cs) as [c|] eqn:E.
  - rewrite (keysetCounterOn_present id c cs E). exact E.
  - destruct (keysetCounterOn_absent id cs E) as [-> H]. exact H.
Qed.

Ltac unfold_action_in H :=
  cbv beta iota delta [bind ret throw get modify tryCatch tryFinally
                        liftOutcome call lockMutex setReserved removeProofs
                        addProofs increaseKeysetCounter keysetCounter
                        setInvoicePaid addPaidToken] in H.

(** A failing [send] whose error says the outputs were signed: the counter
    read by [keysetCounter] (created at 1 when absent) plus 10. *)
Lemma send_outputs_signed (env : Env) (ps : list WalletProof) (amount : Z)
  (invalidate includeFees : bool) (st st' : WalletState) (e : Thrown) :
  send env ps amount invalidate includeFees st = (Threw e, st') ->
  isOutputsSignedError e = true ->
  exists kid,
    getKeyset st = (Returned kid, st)
    /\ counterOf kid (keysetCounters st')
       = Some (match counterOf kid (keysetCounters st) with
               | Some c => c
               | None => 1
               end + 10)
    /\ storedProofs st' = storedProofs st.
Proof.
  intros Hrun Hsigned. unfold send in Hrun.
  destruct (getKeyset_run st) as [[kid Hk]|[e0 [Hk He0]]].
  2:{ unfold bind in Hrun at 1. rewrite Hk in Hrun. inversion Hrun; subst. congruence. }
  exists kid. split; [exact Hk|].
  unfold bind in Hrun at 1. rewrite Hk in Hrun.
  unfold sendCatch, handleOutputsHaveAlreadyBeenSignedError in Hrun.
  unfold_action_in Hrun.
  destruct (spendableProofs ps amount) as [spendable|e1] eqn:Hsp.
  2:{ unfold spendableProofs in Hsp.
      destruct (sumProofs (getUnreservedProofs ps) <? amount); [|discriminate].
      inversion Hsp; subst e1. cbn in Hrun. inversion Hrun; subst. discriminate. }
  set (fees := if includeFees
               then walletFees env (coinSelect env spendable amount includeFees)
               else 0) in *.
  set (targetNumber := (F64.ofZ amount + F64.ofZ fees)%float) in *.
  set (target := F64.toZ targetNumber) in *.
  destruct (negb (reduceAmounts (coinSelect env spendable amount includeFees)
                  =? targetNumber)%float).
  2:{ destruct invalidate; cbn in Hrun; inversion Hrun. }
  cbn [keysetCounters set_mutex] in Hrun.
  pose proof (counterOf_keysetCounterOn kid (keysetCounters st)) as Hc.
  destruct (keysetCounterOn kid (keysetCounters st)) as [c cs].
  cbn [snd] in Hc.
  destruct (walletSend env target (coinSelect env spendable target true) c spendable)
    as [[keepProofs sendProofs]|e1].
  { destruct invalidate; cbn in Hrun; inversion Hrun. }
  destruct e1 as [message|s].
  2:{ cbn in Hrun. inversion Hrun; subst. discriminate. }
  destruct (Str.includes outputsSignedMessage message) eqn:Hinc.
  2:{ cbn in Hrun. inversion Hrun; subst. cbn in Hsigned. congruence. }
  cbn in Hrun. inversion Hrun; subst e st'. clear Hrun.
  cbn. split.
  - rewrite (counterOf_increase_present kid 10 _ cs Hc). reflexivity.
  - unfold storedProofs. cbn. apply map_reserve_core.
Qed.

(** A failing [mint] whose error says the outputs were signed. With no
    entry for the keyset at the start, the counter ends at 11 when
    [wallet.mintProofs] threw (after [keysetCounter] created the entry) and
    at 10 when the quote check itself threw. *)
Lemma mint_outputs_signed (env : Env) (amount : Z) (hash : string)
  (st st' : WalletState) (e : Thrown) :
  mint env amount hash st = (Threw e, st') ->
  isOutputsSignedError e = true ->
  exists kid,
    getKeyset st = (Returned kid, st)
    /\ counterOf kid (keysetCounters st')
       = Some (match counterOf kid (keysetCounters st) with
               | Some c => c + 10
               | None => match apiCheckMintQuote env hash with
                         | Threw _ => 10
                         | Returned _ => 11
                         end
               end)
    /\ storedProofs st' = storedProofs st.
Proof.
  intros Hrun Hsigned. unfold mint in Hrun.
  destruct (getKeyset_run st) as [[kid Hk]|[e0 [Hk He0]]].
  2:{ unfold bind in Hrun at 1. rewrite Hk in Hrun. inversion Hrun; subst. congruence. }
  exists kid. split; [exact Hk|].
  unfold bind in Hrun at 1. rewrite Hk in Hrun.
  unfold mintCatch, handleOutputsHaveAlreadyBeenSignedError in Hrun.
  unfold_action_in Hrun.
  assert (Hpresent : forall cs c,
            counterOf kid cs = Some c ->
            counterOf kid (increaseKeysetCounterOn kid 10 cs) = Some (c + 10))
    by (intros cs c; apply counterOf_increase_present).
  destruct (apiCheckMintQuote env hash) as [mintQuote|e1].
  2:{ (* the quote check itself failed *)
      destruct e1 as [message|s]; [|cbn in Hrun; inversion Hrun; subst; discriminate].
      destruct (Str.includes outputsSignedMessage message) eqn:Hinc;
        [|cbn in Hrun; inversion Hrun; subst; cbn in Hsigned; congruence].
      cbn in Hrun. inversion Hrun; subst e st'. clear Hrun. cbn.
      split; [|reflexivity].
      destruct (counterOf kid (keysetCounters st)) as [c|] eqn:Ec.
      - now apply Hpresent.
      - now apply counterOf_increase_absent. }
  destruct (mintq_state mintQuote);
    try (cbn in Hrun; inversion Hrun; subst; discriminate).
  cbn [keysetCounters set_mutex log_request] in Hrun.
  pose proof (counterOf_keysetCounterOn kid (keysetCounters st)) as Hc.
  destruct (keysetCounterOn kid (keysetCounters st)) as [c0 cs].
  cbn [snd] in Hc.
  match type of Hrun with
  | context [walletMintProofs env amount hash kid c0 ?have] =>
      destruct (walletMintProofs env amount hash kid c0 have) as [minted|e1]
  end.
  { destruct minted as [|p minted'];
      [cbn in Hrun; inversion Hrun; subst; discriminate|].
    destruct (serializeProofs env (p :: minted'));
      cbn in Hrun; inversion Hrun; subst; discriminate. }
  destruct e1 as [message|s]; [|cbn in Hrun; inversion Hrun; subst; discriminate].
  destruct (Str.includes outputsSignedMessage message) eqn:Hinc;
    [|cbn in Hrun; inversion Hrun; subst; cbn in Hsigned; congruence].
  cbn in Hrun. inversion Hrun; subst e st'. clear Hrun. cbn.
  split; [|reflexivity].
  destruct (counterOf kid (keysetCounters st)) as [c|] eqn:Ec;
    rewrite (Hpresent cs _ Hc); reflexivity.
Qed.

(** C8, for every state of the counters. A [send] or a [mint] that fails
    with an error whose message contains "outputs have already been
    signed" leaves the store holding the same proofs as before (none
    added, none removed), and the counter of the keyset it used
    ([getKeyset]) 10 above the value stored at the start of the call when
    there is one. When the keyset has no counter yet, the counter ends at
    11 where the call had read it before the error (the read creates it
    at 1: every such [send], and a [mint] whose [wallet.mintProofs]
    threw) and at 10 where it had not (a [mint] whose quote check
    threw). *)
Theorem outputs_already_signed_counter_jump (env : Env) :
  (forall (ps : list WalletProof) (amount : Z) (invalidate includeFees : bool)
          (st st' : WalletState) (e : Thrown),
      send env ps amount invalidate includeFees st = (Threw e, st') ->
      isOutputsSignedError e = true ->
      exists kid,
        getKeyset st = (Returned kid, st)
        /\ counterOf kid (keysetCounters st')
           = Some (match counterOf kid (keysetCounters st) with
                   | Some c => c + 10
                   | None => 11
                   end)
        /\ storedProofs st' = storedProofs st)
  /\ (forall (amount : Z) (hash : string) (st st' : WalletState) (e : Thrown),
         mint env amount hash st = (Threw e, st') ->
         isOutputsSignedError e = true ->
         exists kid,
           getKeyset st = (Returned kid, st)
           /\ counterOf kid (keysetCounters st')
              = Some (match counterOf kid (keysetCounters st) with
                      | Some c => c + 10
                      | None => match apiCheckMintQuote env hash with
                                | Threw _ => 10
                                | Returned _ => 11
                                end
                      end)
           /\ storedProofs st' = storedProofs st).
Proof.
  split.
  - intros ps amount invalidate includeFees st st' e Hrun Hsigned.
    destruct (send_outputs_signed env ps amount invalidate includeFees st st' e
                Hrun Hsigned) as [kid [Hk [Hc Hp]]].
    exists kid. split; [exact Hk|]. split; [|exact Hp].
    rewrite Hc. now destruct (counterOf kid (keysetCounters st)).
  - intros amount hash st st' e Hrun Hsigned.
    exact (mint_outputs_signed env amount hash st st' e Hrun Hsigned).
Qed.

Lemma outputs_already_signed_witness :
  let env := scriptedEnv signedScript in
  let afterSend := snd (send env (proofs fundedState) 5 false false fundedState) in
  let afterMint := snd (mint env 100 "q1" fundedState) in
  let freshSend := snd (send env (proofs freshState) 5 false false freshState) in
  let freshMint := snd (mint env 100 "q1" freshState) in
  counterOf "00ad268c4d1f5826" (keysetCounters fundedState) = Some 5
  /\ counterOf "00ad268c4d1f5826" (keysetCounters afterSend) = Some (5 + 10)
  /\ storedProofs afterSend = storedProofs fundedState
  /\ counterOf "00ad268c4d1f5826" (keysetCounters afterMint) = Some (5 + 10)
  /\ storedProofs afterMint = storedProofs fundedState
  /\ counterOf "00ad268c4d1f5826" (keysetCounters freshState) = None
  /\ counterOf "00ad268c4d1f5826" (keysetCounters freshSend) = Some 11
  /\ storedProofs freshSend = storedProofs freshState
  /\ counterOf "00ad268c4d1f5826" (keysetCounters freshMint) = Some 11
  /\ storedProofs freshMint = storedProofs freshState.
Proof.
  cbv zeta.
  destruct (outputs_already_signed_counter_jump (scriptedEnv signedScript))
    as [Hsend Hmint].
  destruct (Hsend (proofs fundedState) 5 false false fundedState _ _
              eq_refl eq_refl) as [kid1 [Hk1 [Hc1 Hp1]]].
  destruct (Hmint 100 "q1" fundedState _ _ eq_refl eq_refl)
    as [kid2 [Hk2 [Hc2 Hp2]]].
  destruct (Hsend (proofs freshState) 5 false false freshState _ _
              eq_refl eq_refl) as [kid3 [Hk3 [Hc3 Hp3]]].
  destruct (Hmint 100 "q1" freshState _ _ eq_refl eq_refl)
    as [kid4 [Hk4 [Hc4 Hp4]]].
  vm_compute in Hk1. inversion Hk1; subst kid1.
  vm_compute in Hk2. inversion Hk2; subst kid2.
  vm_compute in Hk3. inversion Hk3; subst kid3.
  vm_compute in Hk4. inversion Hk4; subst kid4.
  split; [reflexivity|].
  split; [exact Hc1|]. split; [exact Hp1|].
  split; [exact Hc2|]. split; [exact Hp2|].
  split; [reflexivity|].
  split; [exact Hc3|]. split; [exact Hp3|].
  split; [exact Hc4 | exact Hp4].
Defined.

(** C8, as stated, fails for a keyset that has no counter yet: there is no
    value at the start of the call for the counter to be 10 above. A
    failing [send] leaves the new counter at 11, a [mint] whose quote
    check fails leaves it at 10: whatever value is read into the missing
    counter, one of the two is not 10 above it. *)
Lemma outputs_already_signed_counterexample :
  let afterSend :=
    send (scriptedEnv signedScript) (proofs freshState) 5 false false freshState in
  let afterMint := mint (scriptedEnv signedCheckScript) 100 "q1" freshState in
  getKeyset freshState = (Returned "00ad268c4d1f5826", freshState)
  /\ counterOf "00ad268c4d1f5826" (keysetCounters freshState) = None
  /\ (exists e, fst afterSend = Threw e /\ isOutputsSignedError e = true)
  /\ (exists e, fst afterMint = Threw e /\ isOutputsSignedError e = true)
  /\ counterOf "00ad268c4d1f5826" (keysetCounters (snd afterSend)) = Some 11
  /\ counterOf "00ad268c4d1f5826" (keysetCounters (snd afterMint)) = Some 10
  /\ forall v : Z,
       ~ (counterOf "00ad268c4d1f5826" (keysetCounters (snd afterSend)) = Some (v + 10)
          /\ counterOf "00ad268c4d1f5826" (keysetCounters (snd afterMint))
             = Some (v + 10)).
Proof.
  cbv zeta.
  assert (Hs : counterOf "00ad268c4d1f5826"
                 (keysetCounters
                    (snd (send (scriptedEnv signedScript) (proofs freshState) 5
                            false false freshState))) = Some 11)
    by (vm_compute; reflexivity).
  assert (Hm : counterOf "00ad268c4d1f5826"
                 (keysetCounters
                    (snd (mint (scriptedEnv signedCheckScript) 100 "q1" freshState)))
               = Some 10)
    by (vm_compute; reflexivity).
  split; [vm_compute; reflexivity|]. split; [reflexivity|].
  split; [eexists; split; vm_compute; reflexivity|].
  split; [eexists; split; vm_compute; reflexivity|].
  split; [exact Hs|]. split; [exact Hm|].
  intros v [H1 H2]. rewrite Hs in H1. rewrite Hm in H2.
  inversion H1. inversion H2. lia.
Qed.

(** ** Melt rollback *)

Lemma proofIn_reserve (ps : list WalletProof) (r : bool) (q : option string)
  (p : WalletProof) :
  proofIn (reserveProof r q p) ps = proofIn p ps.
Proof. reflexivity. Qed.

Lemma removeFirstInvoice_snoc_fresh (quote : string) (h : list InvoiceHistory)
  (i : InvoiceHistory) :
  existsb (hasQuote quote) h = false ->
  inv_quote i = quote ->
  removeFirstInvoice quote (h ++ [i]) = h.
Proof.
  intros Hfresh Hi. induction h as [|j h IH]; simpl.
  - now rewrite Hi, String.eqb_refl.
  - simpl in Hfresh. apply orb_false_iff in Hfresh. destruct Hfresh as [Hj Hh].
    unfold hasQuote in Hj. rewrite Hj. now rewrite IH.
Qed.

(** The proofs of a rolled-back melt: reserved under the quote, then
    released. *)
Lemma released_after_reserve (sendProofs store : list WalletProof)
  (quote : option string) (p : WalletProof) :
  In p (map (fun p => if proofIn p sendProofs then reserveProof false None p else p)
          (map (fun p => if proofIn p sendProofs then reserveProof true quote p else p)
             store)) ->
  proofIn p sendProofs = true ->
  p_reserved p = false /\ p_quote p = None.
Proof.
  intros Hin Hp. rewrite map_map in Hin. apply in_map_iff in Hin.
  destruct Hin as [p0 [<- _]].
  destruct (proofIn p0 sendProofs) eqn:E.
  - rewrite proofIn_reserve, E in *. split; reflexivity.
  - rewrite E in Hp. congruence.
Qed.

(** C1, as the code has it. A [melt] that reaches the payment with the
    proofs [send] returned, in which [wallet.meltProofs] throws, the
    unloading flag is not set and the re-queried quote is UNPAID, rolls
    back: the error is rethrown, no send proof is reserved any more, and
    the pending invoice of the quote is gone from the history. The
    keyset counter, though, is not back at its value [c]: only the bump for
    the change outputs is reversed ([keysetCounterIncrease] never receives
    [sendProofs.length]), so the counter stays at [c + |sendProofs|]. *)
Theorem melt_rollback_counter_stays_ahead
  (env : Env) (quote : MeltQuoteResponse) (amount : Z) (keysetId : string)
  (sendProofs : list WalletProof) (st : WalletState) (c : Z) (message : string)
  (requeried : MeltQuoteResponse) :
  counterOf keysetId (keysetCounters st) = Some c ->
  isUnloading st = false ->
  walletMeltProofs env quote sendProofs keysetId c = Threw (JsError message) ->
  Str.includes outputsSignedMessage message = false ->
  apiCheckMeltQuote env (mq_quote quote) = Returned requeried ->
  mq_state requeried = MELT_UNPAID ->
  existsb (hasQuote (mq_quote quote)) (invoiceHistory st) = false ->
  exists st',
    meltPay env quote amount keysetId sendProofs st = (Threw (JsError message), st')
    /\ counterOf keysetId (keysetCounters st')
       = Some (c + Z.of_nat (List.length sendProofs))
    /\ (forall p, In p (proofs st') -> proofIn p sendProofs = true ->
                  p_reserved p = false /\ reservedUnder (mq_quote quote) p = false)
    /\ invoiceHistory st' = invoiceHistory st
    /\ storedProofs st' = storedProofs st.
Proof.
  intros Hc Hunload Hmelt Hmsg Hcheck Hunpaid Hfresh.
  unfold meltPay, meltTry, meltCatch, addOutgoingPendingInvoiceToHistory,
    removeOutgoingInvoiceFromHistory, handleOutputsHaveAlreadyBeenSignedError.
  cbv beta iota delta [bind ret throw get modify tryCatch tryFinally
                        liftOutcome call lockMutex setReserved removeProofs
                        addProofs increaseKeysetCounter keysetCounter].
  cbn [keysetCounters set_mutex set_proofs set_invoiceHistory].
  rewrite (keysetCounterOn_present keysetId c _ Hc), Hmelt.
  assert (Hbump : forall by1 by2 cs,
            counterOf keysetId cs = Some c ->
            counterOf keysetId
              (increaseKeysetCounterOn keysetId (- by2)
                 (increaseKeysetCounterOn keysetId by2
                    (increaseKeysetCounterOn keysetId by1 cs)))
            = Some (c + by1)).
  { intros by1 by2 cs H.
    rewrite (counterOf_increase_present keysetId (- by2) (c + by1 + by2));
      [f_equal; lia|].
    apply counterOf_increase_present. now apply counterOf_increase_present. }
  destruct (0 <? mq_fee_reserve quote);
    cbn - [increaseKeysetCounterOn changeOutputs removeFirstInvoice Z.add Z.opp
           Str.includes];
    rewrite Hunload, Hcheck, Hunpaid;
    cbn - [increaseKeysetCounterOn changeOutputs removeFirstInvoice Z.add Z.opp
           Str.includes];
    rewrite Hmsg;
    cbn - [increaseKeysetCounterOn changeOutputs removeFirstInvoice Z.add Z.opp
           Str.includes];
    (eexists; split; [reflexivity|]);
    cbn - [increaseKeysetCounterOn changeOutputs removeFirstInvoice Z.add Z.opp
           Str.includes].
  - split; [rewrite Z.add_0_l; now apply Hbump|].
    split; [|split].
    + intros p Hin Hp.
      destruct (released_after_reserve sendProofs (proofs st)
                  (Some (mq_quote quote)) p Hin Hp) as [Hr Hq].
      split; [exact Hr|]. unfold reservedUnder. now rewrite Hr.
    + now apply removeFirstInvoice_snoc_fresh.
    + rewrite !map_reserve_core. reflexivity.
  - split.
    { rewrite (counterOf_increase_present keysetId (- 0)
                 (c + Z.of_nat (List.length sendProofs)));
        [f_equal; lia | now apply counterOf_increase_present]. }
    split; [|split].
    + intros p Hin Hp.
      destruct (released_after_reserve sendProofs (proofs st)
                  (Some (mq_quote quote)) p Hin Hp) as [Hr Hq].
      split; [exact Hr|]. unfold reservedUnder. now rewrite Hr.
    + now apply removeFirstInvoice_snoc_fresh.
    + rewrite !map_reserve_core. reflexivity.
Qed.


Lemma melt_rollback_witness :
  exists st',
    meltPay (scriptedEnv unpaidScript) quoteOf8 8 "00ad268c4d1f5826"
      [proofOf 8 "s1"] payingState
    = (Threw (JsError "Lightning payment failed"), st')
    /\ counterOf "00ad268c4d1f5826" (keysetCounters st') = Some (5 + 1)
    /\ (forall p, In p (proofs st') -> proofIn p [proofOf 8 "s1"] = true ->
                  p_reserved p = false /\ reservedUnder "q1" p = false)
    /\ invoiceHistory st' = invoiceHistory payingState
    /\ storedProofs st' = storedProofs payingState.
Proof.
  apply (melt_rollback_counter_stays_ahead (scriptedEnv unpaidScript) quoteOf8 8
           "00ad268c4d1f5826" [proofOf 8 "s1"] payingState 5
           "Lightning payment failed" quoteOf8); reflexivity.
Defined.

(** The whole of [melt] on the failing input: 8 sat in one proof, a quote
    of 8 sat without fee reserve, [wallet.meltProofs] throws and the quote
    is UNPAID. [send] takes the proof as it is (no split, no counter
    bump); after the rollback the counter stands at 6, not 5. With a fee
    reserve of 2 the bump for the one change output is reversed and the
    counter ends at 6 all the same. *)
Example melt_rollback_run :
  let final := melt (scriptedEnv unpaidScript) payingState in
  let finalFee := melt (scriptedEnv unpaidScript) payingStateWithFee in
  fst final = Threw (JsError "Lightning payment failed")
  /\ counterOf "00ad268c4d1f5826" (keysetCounters payingState) = Some 5
  /\ counterOf "00ad268c4d1f5826" (keysetCounters (snd final)) = Some 6
  /\ proofs (snd final) = [proofOf 8 "s1"]
  /\ invoiceHistory (snd final) = []
  /\ requests (snd final) = [ReqMelt "q1"; ReqCheckMeltQuote "q1"]
  /\ mutex (snd final) = false
  /\ fst finalFee = Threw (JsError "Lightning payment failed")
  /\ counterOf "00ad268c4d1f5826" (keysetCounters (snd finalFee)) = Some 6.
Proof. vm_compute. repeat split. Qed.

(** ** The multi-path allocation *)

Lemma snd_combine (mints : list Mint) (ws : list float) :
  List.length mints = List.length ws -> map snd (combine mints ws) = ws.
Proof.
  revert ws. induction mints as [|m mints IH]; intros [|w ws] H; try discriminate.
  - reflexivity.
  - cbn. f_equal. apply IH. now inversion H.
Qed.

Lemma integer_within_one (k : Z) : (-1 < inject_Z k < 1)%Q -> k = 0.
Proof.
  change (-1)%Q with (inject_Z (-1)). change 1%Q with (inject_Z 1).
  rewrite <- !Zlt_Qlt. lia.
Qed.

Lemma pow2_52_53 : (pow2 (-52) == 2 * pow2 (-53))%Q.
Proof. exact (pow2_succ (-53)). Qed.

Lemma pow2_1074_53 : (pow2 (-1074) <= pow2 (-53))%Q.
Proof. apply pow2_le. lia. Qed.

Lemma pow2_51_53 : (pow2 51 * pow2 (-53) == 1 # 4)%Q.
Proof. rewrite <- pow2_add. reflexivity. Qed.

(** What the product and the sum of one iteration are, to within the
    rounding of each: for an invoice below [2^51], a weight in [0, 1] and
    a carry in [-1/2, 1/2), the number [invoice * w + carry] the engine
    computes is finite, at least [-1/2], at most [2^52], and within
    [stepError] of the exact one. *)
Lemma partialAmountFloat_error (invoiceAmount : Z) (w carry : float) :
  0 < invoiceAmount < 2 ^ 51 ->
  F64.finite w = true -> (0 <= F64.value w <= 1)%Q ->
  F64.finite carry = true -> (- (1 # 2) <= F64.value carry < 1 # 2)%Q ->
  let x := (F64.ofZ invoiceAmount * w + carry)%float in
  let exact := (inject_Z invoiceAmount * F64.value w + F64.value carry)%Q in
  F64.finite x = true
  /\ (- (1 # 2) <= F64.value x <= pow2 52)%Q
  /\ (F64.value x - exact <= stepError invoiceAmount)%Q
  /\ (exact - F64.value x <= stepError invoiceAmount)%Q.
Proof.
  intros [Hpos Hlt] Hfw Hw Hfc Hc x exact.
  destruct (ofZ_exact invoiceAmount ltac:(lia)) as [HfN [HvN _]].
  assert (H51 : (pow2 51 == inject_Z (2 ^ 51))%Q) by (apply pow2_Z; lia).
  assert (H52 : (pow2 52 == 2 * pow2 51)%Q) by exact (pow2_succ 51).
  assert (HN1 : (1 <= inject_Z invoiceAmount)%Q).
  { change 1%Q with (inject_Z 1). rewrite <- Zle_Qle. lia. }
  assert (HN51 : (inject_Z invoiceAmount <= pow2 51)%Q).
  { rewrite H51, <- Zle_Qle. lia. }
  pose proof pow2_52_53 as He52. pose proof pow2_1074_53 as He1074.
  pose proof pow2_51_53 as He51. pose proof (pow2_pos (-53)) as He53.
  pose proof (pow2_pos (-1074)) as Hetiny.
  (* the product *)
  assert (Hmul : roundsTo (inject_Z invoiceAmount * F64.value w)
                   (Prim2SF (F64.ofZ invoiceAmount * w))).
  { apply (roundsTo_eq (F64.value (F64.ofZ invoiceAmount) * F64.value w));
      [rewrite HvN; reflexivity|].
    apply (mul_roundsTo (F64.ofZ invoiceAmount) w 51 0 HfN Hfw); [| |lia].
    - rewrite HvN. split; lra.
    - change (pow2 0) with 1%Q. split; lra. }
  set (p := (F64.ofZ invoiceAmount * w)%float) in *.
  assert (Hprod : (0 <= inject_Z invoiceAmount * F64.value w
                   <= inject_Z invoiceAmount)%Q).
  { split; [apply Qmult_le_0_compat; lra|].
    rewrite <- (Qmult_1_r (inject_Z invoiceAmount)) at 2.
    apply Qmult_le_l; lra. }
  destruct (roundsTo_err _ (inject_Z invoiceAmount) _ Hmul ltac:(split; lra))
    as [Hperr1 Hperr2].
  destruct (roundsTo_sign _ _ Hmul) as [Hpsign _].
  specialize (Hpsign (proj1 Hprod)).
  destruct (roundsTo_bound _ _ 51 Hmul ltac:(lia)) as [_ Hpb].
  specialize (Hpb ltac:(lra)).
  fold (F64.value p) in Hperr1, Hperr2, Hpsign, Hpb.
  assert (Hfp : F64.finite p = true) by exact (roundsTo_finite _ _ Hmul).
  assert (Hsp : F64.small p) by (apply (small_of_bound p 51 Hfp); [lia|split; lra]).
  assert (Hsc : F64.small carry).
  { apply (small_of_bound carry 0 Hfc); [lia|]. change (pow2 0) with 1%Q. split; lra. }
  (* the sum *)
  pose proof (add_roundsTo p carry Hsp Hsc) as Hadd. fold x in Hadd.
  set (N := inject_Z invoiceAmount) in *.
  set (vw := F64.value w) in *. set (vc := F64.value carry) in *.
  set (vp := F64.value p) in *.
  set (e53 := pow2 (-53)) in *. set (e52 := pow2 (-52)) in *.
  set (tiny := pow2 (-1074)) in *. set (P51 := pow2 51) in *.
  set (Nw := (N * vw)%Q) in *.
  assert (HNe : (N * e53 <= 1 # 4)%Q).
  { rewrite <- He51. apply Qmult_le_compat_r; [exact HN51|lra]. }
  assert (He53b : (e53 <= 1 # 4)%Q).
  { change (1 # 4)%Q with (pow2 (-2)). apply pow2_le. lia. }
  assert (He52N : (e52 * N == 2 * (N * e53))%Q) by (rewrite He52; ring).
  assert (Hsumb : (- (N + 1) <= vp + vc <= N + 1)%Q) by (split; lra).
  destruct (roundsTo_err _ (N + 1)%Q _ Hadd Hsumb) as [Hxerr1 Hxerr2].
  fold e52 tiny in Hxerr1, Hxerr2.
  destruct (roundsTo_bound _ _ (-1) Hadd ltac:(lia)) as [Hxlo _].
  assert (Hhalf : (pow2 (-1) == 1 # 2)%Q) by reflexivity.
  specialize (Hxlo ltac:(rewrite Hhalf; lra)). rewrite Hhalf in Hxlo.
  destruct (roundsTo_bound _ _ 52 Hadd ltac:(lia)) as [_ Hxhi].
  specialize (Hxhi ltac:(rewrite H52; fold P51; lra)).
  fold (F64.value x) in Hxerr1, Hxerr2, Hxlo, Hxhi.
  assert (He52N1 : (e52 * (N + 1) == 2 * (N * e53) + 2 * e53)%Q)
    by (rewrite He52; ring).
  assert (HSE : (stepError invoiceAmount == 2 * (N * e53) + 2 * e53)%Q).
  { unfold stepError. rewrite inject_Z_plus, inject_Z_mult. fold N e53.
    change (inject_Z 2) with 2%Q. ring. }
  split; [exact (roundsTo_finite _ _ Hadd)|].
  split; [split; [exact Hxlo|exact Hxhi]|].
  subst exact. fold N vw vc Nw. rewrite HSE.
  set (vx := F64.value x) in *. set (Ne := (N * e53)%Q) in *.
  split; lra.
Qed.

(** One iteration keeps the invariant. *)
Lemma mppStep_allocated (u r : string) (invoiceAmount : Z) (W : Q) (steps : nat)
  (w : float) (m : Mint) (acc : list (Mint * MeltQuotePayload) * float) :
  0 < invoiceAmount < 2 ^ 51 ->
  F64.finite w = true -> (0 <= F64.value w <= 1)%Q ->
  allocated invoiceAmount W steps acc ->
  allocated invoiceAmount (W + F64.value w) (S steps)
    (mppStep (num := F64.num) u r invoiceAmount acc (m, w)).
Proof.
  intros Hinv Hfw Hw [Hfc [Hc [Hup [Hdown Hall]]]].
  destruct acc as [payloads carry]. cbn [fst snd] in *.
  destruct (partialAmountFloat_error invoiceAmount w carry Hinv Hfw Hw Hfc Hc)
    as [Hfx [Hxb [Herr1 Herr2]]].
  unfold mppStep. cbn [ofZ nmul nadd nsub nround ofRounded F64.num].
  set (x := (F64.ofZ invoiceAmount * w + carry)%float) in *.
  destruct (round_spec x Hfx) as [z [Hz _]].
  assert (Hxb' : (- pow2 52 <= F64.value x <= pow2 52)%Q).
  { assert (H : (1 # 2 <= pow2 52)%Q)
      by (change (1 # 2)%Q with (pow2 (-1)); apply pow2_le; lia).
    split; [lra|apply Hxb]. }
  destruct (carry_exact x z Hfx Hxb' Hz) as [Hfc' [Hvc' [Hres Hnonneg]]].
  specialize (Hnonneg (proj1 Hxb)).
  rewrite Hz. cbn [F64.ofRounded roundedPositive].
  assert (Hsteps : (inject_Z (Z.of_nat (S steps)) * stepError invoiceAmount
                    == inject_Z (Z.of_nat steps) * stepError invoiceAmount
                       + stepError invoiceAmount)%Q).
  { rewrite Nat2Z.inj_succ. unfold Z.succ. rewrite inject_Z_plus.
    change (inject_Z 1) with 1%Q. ring. }
  assert (Hdist : (inject_Z invoiceAmount * (W + F64.value w)
                   == inject_Z invoiceAmount * W
                      + inject_Z invoiceAmount * F64.value w)%Q) by ring.
  assert (Htot : total (payloads ++ [(m, mkMeltQuotePayload u r (Some (RInt z)))])
                 = total payloads + z).
  { unfold total. rewrite map_app, sumZ_app.
    cbn [map amountOf snd mqp_mpp_amount roundedZ].
    rewrite sumZ_cons. change (sumZ []) with 0. lia. }
  assert (Hgoal :
    (inject_Z (total payloads + z) + F64.value (x - F64.ofZ z)
       - inject_Z invoiceAmount * (W + F64.value w)
     <= inject_Z (Z.of_nat (S steps)) * stepError invoiceAmount)%Q
    /\ (inject_Z invoiceAmount * (W + F64.value w)
          - (inject_Z (total payloads + z) + F64.value (x - F64.ofZ z))
        <= inject_Z (Z.of_nat (S steps)) * stepError invoiceAmount)%Q).
  { rewrite inject_Z_plus.
    set (SE := stepError invoiceAmount) in *.
    set (budget := (inject_Z (Z.of_nat steps) * SE)%Q) in *.
    set (budget' := (inject_Z (Z.of_nat (S steps)) * SE)%Q) in *.
    set (NW' := (inject_Z invoiceAmount * (W + F64.value w))%Q) in *.
    set (NW := (inject_Z invoiceAmount * W)%Q) in *.
    set (Nw := (inject_Z invoiceAmount * F64.value w)%Q) in *.
    set (c' := F64.value (x - F64.ofZ z)) in *.
    split; lra. }
  destruct (Z.ltb_spec 0 z) as [Hgt|Hle].
  - unfold allocated. cbn [fst snd]. rewrite Htot.
    split; [exact Hfc'|]. split; [rewrite Hvc'; exact Hres|].
    split; [apply Hgoal|]. split; [apply Hgoal|].
    apply Forall_app. split; [exact Hall|].
    constructor; [|constructor]. exists z. split; [reflexivity|exact Hgt].
  - assert (Hzero : z = 0) by lia. subst z.
    rewrite Z.add_0_r in Hgoal.
    unfold allocated. cbn [fst snd].
    split; [exact Hfc'|]. split; [rewrite Hvc'; exact Hres|].
    split; [apply Hgoal|]. split; [apply Hgoal|]. exact Hall.
Qed.

Lemma fold_mppStep_allocated (u r : string) (invoiceAmount : Z)
  (l : list (Mint * float)) (W : Q) (steps : nat)
  (acc : list (Mint * MeltQuotePayload) * float) :
  0 < invoiceAmount < 2 ^ 51 ->
  Forall (fun mw => F64.finite (snd mw) = true
                    /\ (0 <= F64.value (snd mw) <= 1)%Q) l ->
  allocated invoiceAmount W steps acc ->
  exists W',
    (W' == W + sumQ (map F64.value (map snd l)))%Q
    /\ allocated invoiceAmount W' (steps + List.length l)
         (fold_left (mppStep (num := F64.num) u r invoiceAmount) l acc).
Proof.
  intros Hinv. revert W steps acc.
  induction l as [|[m w] l IH]; intros W steps acc Hl Hacc.
  - exists W. cbn [map sumQ fold_right fold_left List.length].
    rewrite Nat.add_0_r. split; [ring|exact Hacc].
  - inversion Hl as [|? ? [Hfw Hw] Hl']; subst. cbn [snd] in Hfw, Hw.
    pose proof (mppStep_allocated u r invoiceAmount W steps w m acc Hinv Hfw Hw Hacc)
      as Hstep.
    destruct (IH _ _ _ Hl' Hstep) as [W' [HW' Hfold]].
    exists W'. cbn [map sumQ fold_right fold_left List.length snd].
    rewrite Nat.add_succ_r. split; [|exact Hfold].
    rewrite HW'. fold (sumQ (map F64.value (map snd l))). ring.
Qed.

(** C3, within what binary64 holds. With one weight per mint, the weights
    finite numbers in [0, 1] whose values add up to 1 to within [n * 2^-53]
    ([n] the number of weights: each is a ratio rounded once), and a
    positive integer invoice amount with [n * (3 * amount + 2) < 2^52],
    the multi-path allocation the engine computes retains partials that
    are positive integers and add up to the invoice amount exactly. *)
Theorem mpp_allocation_sums_to_invoice
  (invoiceAmount : Z) (multiMints : list Mint) (weights : list float) :
  0 < invoiceAmount ->
  List.length multiMints = List.length weights ->
  Forall (fun w => F64.finite w = true /\ (0 <= F64.value w <= 1)%Q) weights ->
  (1 - inject_Z (Z.of_nat (List.length weights)) * pow2 (-53)
   <= sumQ (map F64.value weights)
   <= 1 + inject_Z (Z.of_nat (List.length weights)) * pow2 (-53))%Q ->
  Z.of_nat (List.length weights) * (3 * invoiceAmount + 2) < 2 ^ 52 ->
  let partials := mppPartials (num := F64.num) invoiceAmount multiMints weights in
  Forall (fun r => exists z, r = RInt z /\ 0 < z) partials
  /\ sumZ (map roundedZ partials) = invoiceAmount.
Proof.
  intros Hinv Hlen Hw Hsum Hsize partials.
  set (n := Z.of_nat (List.length weights)) in *.
  assert (Hn : 1 <= n).
  { destruct weights as [|w ws]; [|unfold n; cbn [List.length]; lia].
    exfalso. unfold n in Hsum. cbn in Hsum. destruct Hsum as [H _].
    revert H. unfold Qle. cbn. lia. }
  assert (Hinv51 : 0 < invoiceAmount < 2 ^ 51) by nia.
  assert (Hstart : allocated invoiceAmount 0 0
                     (@nil (Mint * MeltQuotePayload), 0%float)).
  { unfold allocated. cbn [fst snd Z.of_nat]. change (total []) with 0.
    change (F64.value 0%float) with 0%Q. change (inject_Z 0) with 0%Q.
    split; [reflexivity|]. split; [split; lra|].
    split; [lra|]. split; [lra|constructor]. }
  assert (Hws : Forall (fun mw : Mint * float =>
                          F64.finite (snd mw) = true
                          /\ (0 <= F64.value (snd mw) <= 1)%Q)
                  (combine multiMints weights)).
  { apply Forall_forall. intros [m w] Hin. apply in_combine_r in Hin.
    rewrite Forall_forall in Hw. apply (Hw w Hin). }
  destruct (fold_mppStep_allocated "" "" invoiceAmount
              (combine multiMints weights) 0 0 ([], 0%float) Hinv51 Hws Hstart)
    as [W [HW [_ [Hcarry [Hup [Hdown Hpos]]]]]].
  rewrite (snd_combine multiMints weights Hlen) in HW.
  assert (Hsteps : Z.of_nat (0 + List.length (combine multiMints weights)) = n).
  { rewrite length_combine, Hlen, Nat.min_id. reflexivity. }
  rewrite Hsteps in Hup, Hdown.
  subst partials. unfold mppPartials, mppPayloads.
  cbn [ofZ F64.num]. change (F64.ofZ 0) with 0%float.
  set (final := fold_left (mppStep (num := F64.num) "" "" invoiceAmount)
                  (combine multiMints weights) ([], 0%float)) in *.
  split.
  - apply Forall_forall. intros r Hr. apply in_map_iff in Hr.
    destruct Hr as [mp [<- Hmp]]. rewrite Forall_forall in Hpos.
    destruct (Hpos mp Hmp) as [z [-> Hz]]. exists z. split; [reflexivity | exact Hz].
  - assert (Hmap : map roundedZ
                     (map (fun mp : Mint * MeltQuotePayload =>
                             match mqp_mpp_amount (snd mp) with
                             | Some r => r
                             | None => RNaN
                             end) (fst final))
                   = map amountOf (fst final)).
    { rewrite map_map. apply map_ext. intros mp. unfold amountOf.
      now destruct (mqp_mpp_amount (snd mp)). }
    rewrite Hmap. fold (total (fst final)).
    pose proof (pow2_pos (-53)) as He53.
    assert (Hsize' : (inject_Z (n * (3 * invoiceAmount + 2)) * pow2 (-53) < 1 # 2)%Q).
    { assert (H52 : (inject_Z (2 ^ 52) * pow2 (-53) == 1 # 2)%Q).
      { rewrite <- (pow2_Z 52) by lia. rewrite <- pow2_add. reflexivity. }
      rewrite <- H52. apply Qmult_lt_compat_r; [exact He53|].
      rewrite <- Zlt_Qlt. exact Hsize. }
    rewrite inject_Z_mult, inject_Z_plus, inject_Z_mult in Hsize'.
    change (inject_Z 3) with 3%Q in Hsize'. change (inject_Z 2) with 2%Q in Hsize'.
    unfold stepError in Hup, Hdown.
    rewrite inject_Z_plus, inject_Z_mult in Hup, Hdown.
    change (inject_Z 2) with 2%Q in Hup, Hdown.
    rewrite Qplus_0_l in HW. rewrite HW in Hup, Hdown.
    set (N := inject_Z invoiceAmount) in *.
    assert (HN : (0 <= N)%Q).
    { unfold N. change 0%Q with (inject_Z 0). rewrite <- Zle_Qle. lia. }
    set (S := sumQ (map F64.value weights)) in *.
    set (e53 := pow2 (-53)) in *. set (nq := inject_Z n) in *.
    set (T := inject_Z (total (fst final))) in *.
    set (c := F64.value (snd final)) in *.
    assert (HNS1 : (N * S - N <= N * (nq * e53))%Q).
    { setoid_replace (N * S - N)%Q with ((S - 1) * N)%Q by ring.
      rewrite (Qmult_comm N). apply Qmult_le_compat_r; [lra|exact HN]. }
    assert (HNS2 : (N - N * S <= N * (nq * e53))%Q).
    { setoid_replace (N - N * S)%Q with ((1 - S) * N)%Q by ring.
      rewrite (Qmult_comm N). apply Qmult_le_compat_r; [lra|exact HN]. }
    assert (Hexp : (nq * (3 * N + 2) * e53
                    == nq * ((2 * N + 2) * e53) + N * (nq * e53))%Q) by ring.
    rewrite Hexp in Hsize'.
    set (A := (nq * ((2 * N + 2) * e53))%Q) in *.
    set (B := (N * (nq * e53))%Q) in *. set (NS := (N * S)%Q) in *.
    assert (Hzero : total (fst final) - invoiceAmount = 0).
    { apply integer_within_one. rewrite inject_Z_sub. fold T N. split; lra. }
    lia.
Qed.

Lemma mpp_allocation_witness :
  let weights :=
    [0x1.5555555555555p-2; 0x1.5555555555555p-2; 0x1.5555555555555p-2]%float in
  let partials := mppPartials (num := F64.num) 100 threeMints weights in
  partials = [RInt 33; RInt 34; RInt 33]
  /\ Forall (fun r => exists z, r = RInt z /\ 0 < z) partials
  /\ sumZ (map roundedZ partials) = 100.
Proof.
  cbv zeta. split; [vm_compute; reflexivity|].
  apply (mpp_allocation_sums_to_invoice 100 threeMints
           [0x1.5555555555555p-2; 0x1.5555555555555p-2; 0x1.5555555555555p-2]%float).
  - lia.
  - reflexivity.
  - repeat constructor; vm_compute; discriminate.
  - split; vm_compute; discriminate.
  - vm_compute. reflexivity.
Defined.

(** C3, as stated, fails on the numbers the code computes with. In
    binary64 the weights [0.25] and [0.75] are exact, lie in [0, 1] and add
    up to 1; for the invoice amount [2^53 - 6] the products are rounded,
    and the two partials add up to one more than the invoice amount. *)
Lemma mpp_binary64_counterexample :
  let weights := [0.25; 0.75]%float in
  let partials :=
    mppPartials (num := F64.num) 9007199254740986 twoMints weights in
  Forall2 (fun w q => F64.finite w = true /\ (F64.value w == q)%Q) weights
    [1 # 4; 3 # 4]%Q
  /\ Forall (fun w => (0 <= F64.value w <= 1)%Q) weights
  /\ (sumQ (map F64.value weights) == 1)%Q
  /\ 0 < 9007199254740986
  /\ partials = [RInt 2251799813685247; RInt 6755399441055740]
  /\ sumZ (map roundedZ partials) = 9007199254740986 + 1
  /\ sumZ (map roundedZ partials) <> 9007199254740986.
Proof.
  cbv zeta.
  split; [repeat constructor; vm_compute; reflexivity|].
  split; [repeat constructor; vm_compute; discriminate|].
  split; [vm_compute; reflexivity|]. split; [lia|].
  split; [vm_compute; reflexivity|]. split; vm_compute; [reflexivity | discriminate].
Qed.

(** The allocation of 333 sat over weights 0.5, 0.3 and 0.2 as the engine
    computes it. *)
Example mpp_binary64_333 :
  mppPartials (num := F64.num) 333 threeMints
    [0x1p-1; 0x1.3333333333333p-2; 0x1.999999999999ap-3]%float
  = [RInt 167; RInt 99; RInt 67].
Proof. vm_compute. reflexivity. Qed.

(** * Further properties of the wallet store *)

(** ** Keyset counters: ids and rollback *)

Lemma findCounter_none_iff (id : string) (cs : list KeysetCounter) :
  findCounter id cs = None <-> ~ In id (map kc_id cs).
Proof.
  unfold findCounter. induction cs as [|c cs IH]; simpl.
  - split; [intros _ [] | reflexivity].
  - destruct (String.eqb_spec (kc_id c) id) as [E|E].
    + split; [discriminate | intros H; exfalso; apply H; now left].
    + rewrite IH. split; [intros H [H1|H1]; [congruence | now apply H] | tauto].
Qed.

Lemma bumpFirst_ids (id : string) (by_ : Z) (cs : list KeysetCounter) :
  map kc_id (bumpFirst id by_ cs) = map kc_id cs.
Proof.
  induction cs as [|c cs IH]; simpl; [reflexivity|].
  destruct (String.eqb (kc_id c) id); simpl; [reflexivity | now rewrite IH].
Qed.

Lemma counterOf_bumpFirst_other (id other : string) (by_ : Z) (cs : list KeysetCounter) :
  other <> id -> counterOf other (bumpFirst id by_ cs) = counterOf other cs.
Proof.
  intros Hne. unfold counterOf, findCounter.
  induction cs as [|c cs IH]; simpl; [reflexivity|].
  destruct (String.eqb_spec (kc_id c) id) as [E|E]; simpl.
  - destruct (String.eqb_spec (kc_id c) other) as [E'|E']; [congruence | reflexivity].
  - destruct (String.eqb (kc_id c) other); [reflexivity | exact IH].
Qed.

Lemma counterOf_snoc_other (id other : string) (v : Z) (cs : list KeysetCounter) :
  other <> id -> counterOf other (cs ++ [mkKeysetCounter id v]) = counterOf other cs.
Proof.
  intros Hne. unfold counterOf, findCounter.
  induction cs as [|c cs IH]; simpl.
  - destruct (String.eqb_spec id other) as [E|E]; [congruence | reflexivity].
  - destruct (String.eqb (kc_id c) other); [reflexivity | exact IH].
Qed.

Lemma increaseKeysetCounterOn_other (id other : string) (by_ : Z)
  (cs : list KeysetCounter) :
  other <> id ->
  counterOf other (increaseKeysetCounterOn id by_ cs) = counterOf other cs.
Proof.
  intros Hne. unfold increaseKeysetCounterOn.
  destruct (findCounter id cs).
  - now apply counterOf_bumpFirst_other.
  - now apply counterOf_snoc_other.
Qed.

Lemma keysetCounterOn_other (id other : string) (cs : list KeysetCounter) :
  other <> id ->
  counterOf other (snd (keysetCounterOn id cs)) = counterOf other cs.
Proof.
  intros Hne. unfold keysetCounterOn.
  destruct (findCounter id cs); simpl; [reflexivity|].
  now apply counterOf_snoc_other.
Qed.

Lemma NoDup_snoc_ids (id : string) (v : Z) (cs : list KeysetCounter) :
  NoDup (map kc_id cs) -> findCounter id cs = None ->
  NoDup (map kc_id (cs ++ [mkKeysetCounter id v])).
Proof.
  intros Hnd Habs. rewrite map_app. simpl.
  apply NoDup_app; [exact Hnd | repeat constructor; intros [] |].
  intros x Hx [Hx'|[]]. subst x. now apply findCounter_none_iff in Habs.
Qed.

Lemma increaseKeysetCounterOn_NoDup (id : string) (by_ : Z) (cs : list KeysetCounter) :
  NoDup (map kc_id cs) -> NoDup (map kc_id (increaseKeysetCounterOn id by_ cs)).
Proof.
  intros Hnd. unfold increaseKeysetCounterOn.
  destruct (findCounter id cs) eqn:E.
  - now rewrite bumpFirst_ids.
  - now apply NoDup_snoc_ids.
Qed.

Lemma keysetCounterOn_NoDup (id : string) (cs : list KeysetCounter) :
  NoDup (map kc_id cs) -> NoDup (map kc_id (snd (keysetCounterOn id cs))).
Proof.
  intros Hnd. unfold keysetCounterOn.
  destruct (findCounter id cs) eqn:E; cbn [snd].
  - exact Hnd.
  - now apply NoDup_snoc_ids.
Qed.

Lemma keysetCounter_counters (id : string) (st : WalletState) :
  keysetCounters (snd (keysetCounter id st))
  = snd (keysetCounterOn id (keysetCounters st)).
Proof.
  unfold keysetCounter. now destruct (keysetCounterOn id (keysetCounters st)).
Qed.

(** X1. [keysetCounter] and [increaseKeysetCounter] keep the counter array
    free of duplicate ids, and neither changes the counter stored for any
    other id. *)
Theorem keyset_counter_ops_keep_ids_unique
  (id : string) (by_ : Z) (st : WalletState) :
  NoDup (map kc_id (keysetCounters st)) ->
  let read := snd (keysetCounter id st) in
  let bumped := snd (increaseKeysetCounter id by_ st) in
  NoDup (map kc_id (keysetCounters read))
  /\ NoDup (map kc_id (keysetCounters bumped))
  /\ (forall other, other <> id ->
        counterOf other (keysetCounters read) = counterOf other (keysetCounters st)
        /\ counterOf other (keysetCounters bumped)
           = counterOf other (keysetCounters st)).
Proof.
  intros Hnd read bumped. subst read bumped.
  rewrite keysetCounter_counters.
  unfold increaseKeysetCounter, modify. cbn [snd keysetCounters set_keysetCounters].
  split; [now apply keysetCounterOn_NoDup|].
  split; [now apply increaseKeysetCounterOn_NoDup|].
  intros other Hne. split.
  - now apply keysetCounterOn_other.
  - now apply increaseKeysetCounterOn_other.
Qed.

Lemma keyset_counter_ops_witness :
  let st := fundedState in
  NoDup (map kc_id (keysetCounters (snd (keysetCounter "I2yN+iRYfkzT" st))))
  /\ NoDup (map kc_id (keysetCounters (snd (increaseKeysetCounter "I2yN+iRYfkzT" 3 st))))
  /\ counterOf "00ad268c4d1f5826"
       (keysetCounters (snd (increaseKeysetCounter "I2yN+iRYfkzT" 3 st))) = Some 5.
Proof.
  cbv zeta.
  destruct (keyset_counter_ops_keep_ids_unique "I2yN+iRYfkzT" 3 fundedState)
    as [Hread [Hbump Hother]].
  - repeat constructor. intros [].
  - split; [exact Hread|]. split; [exact Hbump|].
    destruct (Hother "00ad268c4d1f5826") as [_ H]; [discriminate|].
    rewrite H. reflexivity.
Defined.

(** X2. A bump by [by] followed by the opposite bump restores the counter
    of a keyset that had an entry. For a keyset without one the pair
    leaves an entry at 0, so [keysetCounter] then returns 0 where it
    returns 1 on the untouched store. *)
Theorem bump_then_opposite_bump (id : string) (by_ : Z) (st : WalletState) :
  let rolledBack :=
    snd (increaseKeysetCounter id (- by_) (snd (increaseKeysetCounter id by_ st))) in
  (forall c, counterOf id (keysetCounters st) = Some c ->
             counterOf id (keysetCounters rolledBack) = Some c)
  /\ (counterOf id (keysetCounters st) = None ->
      counterOf id (keysetCounters rolledBack) = Some 0
      /\ fst (keysetCounter id rolledBack) = Returned 0
      /\ fst (keysetCounter id st) = Returned 1).
Proof.
  cbv zeta. unfold increaseKeysetCounter, modify. cbn [snd keysetCounters set_keysetCounters].
  split.
  - intros c Hc.
    rewrite (counterOf_increase_present id (- by_) (c + by_));
      [f_equal; lia | now apply counterOf_increase_present].
  - intros Habs.
    assert (H0 : counterOf id
                   (increaseKeysetCounterOn id (- by_)
                      (increaseKeysetCounterOn id by_ (keysetCounters st)))
                 = Some 0).
    { rewrite (counterOf_increase_present id (- by_) by_);
        [f_equal; lia | now apply counterOf_increase_absent]. }
    split; [exact H0|]. split.
    + unfold keysetCounter. cbn [keysetCounters set_keysetCounters].
      rewrite (keysetCounterOn_present id 0 _ H0). reflexivity.
    + unfold keysetCounter.
      destruct (keysetCounterOn_absent id _ Habs) as [-> _]. reflexivity.
Qed.

Lemma bump_then_opposite_bump_witness :
  let st := initialState [satKeyset] "sat" "https://mint.example" [] in
  let rolledBack :=
    snd (increaseKeysetCounter "00ad268c4d1f5826" (- 4)
           (snd (increaseKeysetCounter "00ad268c4d1f5826" 4 st))) in
  counterOf "00ad268c4d1f5826" (keysetCounters rolledBack) = Some 0
  /\ fst (keysetCounter "00ad268c4d1f5826" rolledBack) = Returned 0
  /\ fst (keysetCounter "00ad268c4d1f5826" st) = Returned 1.
Proof.
  cbv zeta.
  apply (bump_then_opposite_bump "00ad268c4d1f5826" 4
           (initialState [satKeyset] "sat" "https://mint.example" [])).
  reflexivity.
Defined.

(** ** Keyset selection *)

Lemma filter_nil_forall {A : Type} (f : A -> bool) (l : list A) :
  filter f l = [] -> forall x, In x l -> f x = false.
Proof.
  intros H x Hx. destruct (f x) eqn:E; [|reflexivity].
  assert (Hin : In x (filter f l)) by (apply filter_In; auto).
  rewrite H in Hin. destruct Hin.
Qed.

(** X3. [getKeyset] never changes the state. It throws exactly when the
    active unit has no active keyset. Otherwise it returns the id of an
    active keyset of the active unit: the first one, in the mint's order,
    whose id starts with "00" when there is one, and the first active one
    when there is none. *)
Theorem getKeyset_prefers_hex_keysets (st : WalletState) :
  let active := filter ks_active (unitKeysets (activeUnit st) (keysets st)) in
  let isHex := fun k => Str.startsWith "00" (ks_id k) in
  snd (getKeyset st) = st
  /\ match fst (getKeyset st) with
     | Threw _ => active = []
     | Returned id =>
         active <> []
         /\ match filter isHex active with
            | k :: _ => id = ks_id k
            | [] => match active with
                    | k :: _ => id = ks_id k
                    | [] => False
                    end
            end
     end.
Proof.
  cbv zeta. unfold getKeyset, bind, get, throw, ret. cbn [fst snd].
  destruct (keysets st) as [|k0 ks0] eqn:Eks; cbn [fst snd].
  - split; [reflexivity|]. reflexivity.
  - set (units := unitKeysets (activeUnit st) (k0 :: ks0)).
    destruct units as [|u us] eqn:Eu; cbn [fst snd].
    + split; [reflexivity|]. reflexivity.
    + set (active := filter ks_active (u :: us)).
      destruct (filter (fun k => Str.startsWith "00" (ks_id k)) active)
        as [|h hs] eqn:Eh; cbn [app fst snd].
      * assert (Hall : filter (fun k => negb (Str.startsWith "00" (ks_id k))) active
                       = active).
        { apply forallb_filter_id. apply forallb_forall. intros x Hx.
          now rewrite (filter_nil_forall _ _ Eh x Hx). }
        rewrite Hall.
        destruct active as [|a as_]; cbn [fst snd].
        -- split; reflexivity.
        -- split; [reflexivity|]. split; [discriminate | reflexivity].
      * split; [reflexivity|]. split; [|reflexivity].
        intros Hnil. rewrite Hnil in Eh. discriminate.
Qed.

Example getKeyset_hex_before_base64 :
  fst (getKeyset
         (initialState
            [mkKeyset "I2yN+iRYfkzT" "sat" true; mkKeyset "00aa" "usd" true;
             mkKeyset "00bb" "sat" false; mkKeyset "00ad268c4d1f5826" "sat" true]
            "sat" "https://mint.example" []))
  = Returned "00ad268c4d1f5826".
Proof. reflexivity. Qed.

(** ** The legacy-keyset selector *)

Lemma sumProofs_shift (l : list WalletProof) (a : Z) :
  fold_left (fun s t => s + p_amount t) l a
  = a + fold_left (fun s t => s + p_amount t) l 0.
Proof.
  revert a. induction l as [|p l IH]; intros a; simpl.
  - lia.
  - rewrite (IH (a + p_amount p)), (IH (p_amount p)). lia.
Qed.

Lemma sumProofs_cons (p : WalletProof) (l : list WalletProof) :
  sumProofs (p :: l) = p_amount p + sumProofs l.
Proof. unfold sumProofs. simpl. apply sumProofs_shift. Qed.

Lemma sumProofs_app (l1 l2 : list WalletProof) :
  sumProofs (l1 ++ l2) = sumProofs l1 + sumProofs l2.
Proof.
  induction l1 as [|p l1 IH]; simpl.
  - reflexivity.
  - rewrite !sumProofs_cons, IH. lia.
Qed.

Lemma sumProofs_perm (l1 l2 : list WalletProof) :
  Permutation l1 l2 -> sumProofs l1 = sumProofs l2.
Proof.
  induction 1; rewrite ?sumProofs_cons; lia.
Qed.

Lemma sumProofs_nonneg (l : list WalletProof) :
  Forall (fun p => 0 <= p_amount p) l -> 0 <= sumProofs l.
Proof.
  induction 1 as [|p l Hp _ IH].
  - reflexivity.
  - rewrite sumProofs_cons. lia.
Qed.

Lemma insertByAmount_perm (p : WalletProof) (l : list WalletProof) :
  Permutation (insertByAmount p l) (p :: l).
Proof.
  induction l as [|q l IH]; simpl.
  - reflexivity.
  - destruct (p_amount q <=? p_amount p).
    + reflexivity.
    + rewrite IH. apply perm_swap.
Qed.

Lemma sortByAmountDesc_perm (l : list WalletProof) :
  Permutation (sortByAmountDesc l) l.
Proof.
  induction l as [|p l IH]; simpl.
  - reflexivity.
  - rewrite insertByAmount_perm. now constructor.
Qed.

Lemma insertByAmount_falling (p : WalletProof) (l : list WalletProof) :
  fallingAmounts l -> fallingAmounts (insertByAmount p l).
Proof.
  unfold fallingAmounts. induction 1 as [|q l Hl IH Hq]; simpl.
  - repeat constructor.
  - destruct (Z.leb_spec (p_amount q) (p_amount p)) as [Hle|Hgt].
    + constructor; [now constructor|].
      constructor; [exact Hle|].
      rewrite Forall_forall in *. intros x Hx. specialize (Hq x Hx). lia.
    + constructor; [exact IH|].
      rewrite Forall_forall in *. intros x Hx.
      apply (Permutation_in _ (insertByAmount_perm p l)) in Hx.
      destruct Hx as [<-|Hx]; [lia | now apply Hq].
Qed.

Lemma sortByAmountDesc_falling (l : list WalletProof) :
  fallingAmounts (sortByAmountDesc l).
Proof.
  induction l as [|p l IH]; simpl.
  - constructor.
  - now apply insertByAmount_falling.
Qed.

(** What the loop returns: nothing, or the proofs so far with a front
    part of the rest. Where the sums are integers binary64 holds exactly
    (a running sum that is the integer [a], amounts that are not negative
    and stay below [2^53] in sum, an amount below [2^53] in magnitude):
    nothing when every non-empty prefix falls short of the amount,
    otherwise the shortest prefix that reaches it. *)
Lemma selectUntil_cases (amount : Z) (rest : list WalletProof) :
  forall (sum : float) (a : Z) (sel : list WalletProof),
    (selectUntil amount sum sel rest = []
     /\ (F64.finite sum = true -> (F64.value sum == inject_Z a)%Q -> 0 <= a ->
         Forall (fun p => 0 <= p_amount p) rest ->
         a + sumProofs rest < 2 ^ 53 -> Z.abs amount < 2 ^ 53 ->
         forall pre post, rest = pre ++ post -> pre <> [] ->
                          a + sumProofs pre < amount))
    \/ (exists pre last post,
          rest = pre ++ last :: post
          /\ selectUntil amount sum sel rest = sel ++ pre ++ [last]
          /\ (F64.finite sum = true -> (F64.value sum == inject_Z a)%Q -> 0 <= a ->
              Forall (fun p => 0 <= p_amount p) rest ->
              a + sumProofs rest < 2 ^ 53 -> Z.abs amount < 2 ^ 53 ->
              amount <= a + sumProofs (pre ++ [last])
              /\ (pre = [] \/ a + sumProofs pre < amount))).
Proof.
  induction rest as [|p rest IH]; intros sum a sel; cbn [selectUntil].
  - left. split; [reflexivity|].
    intros _ _ _ _ _ _ pre post Hsplit Hne. destruct pre; [congruence | discriminate].
  - assert (Hstep : F64.finite sum = true -> (F64.value sum == inject_Z a)%Q ->
                    0 <= a -> Forall (fun p => 0 <= p_amount p) (p :: rest) ->
                    a + sumProofs (p :: rest) < 2 ^ 53 -> Z.abs amount < 2 ^ 53 ->
                    (F64.finite (sum + F64.ofZ (p_amount p)) = true
                     /\ (F64.value (sum + F64.ofZ (p_amount p))
                         == inject_Z (a + p_amount p))%Q
                     /\ 0 <= a + p_amount p
                     /\ Forall (fun p => 0 <= p_amount p) rest
                     /\ a + p_amount p + sumProofs rest < 2 ^ 53)
                    /\ ((F64.ofZ amount <=? sum + F64.ofZ (p_amount p))%float = true
                        <-> amount <= a + p_amount p)).
    { intros Hf Hv Ha Hps Hlt Hamount.
      inversion Hps as [|? ? Hp Hps']; subst.
      pose proof (sumProofs_nonneg rest Hps') as Hrest.
      rewrite sumProofs_cons in Hlt.
      destruct (sum_step_exact sum a (p_amount p) Hf Hv Ha Hp ltac:(lia))
        as [Hf' Hv'].
      split; [repeat split; try assumption; lia|].
      destruct (ofZ_exact amount Hamount) as [Hfa [Hva _]].
      rewrite (leb_value _ _ Hfa Hf'), Hva, Hv', <- Zle_Qle. reflexivity. }
    destruct (F64.ofZ amount <=? sum + F64.ofZ (p_amount p))%float eqn:Hcmp.
    + right. exists [], p, rest.
      split; [reflexivity|]. split; [reflexivity|].
      intros Hf Hv Ha Hps Hlt Hamount.
      destruct (Hstep Hf Hv Ha Hps Hlt Hamount) as [_ Hiff].
      split; [|now left].
      cbn [app]. rewrite sumProofs_cons. change (sumProofs []) with 0.
      assert (amount <= a + p_amount p) by (apply Hiff; reflexivity). lia.
    + destruct (IH (sum + F64.ofZ (p_amount p))%float (a + p_amount p) (sel ++ [p]))
        as [[Hnil Hshort]|[pre [last [post [Hrest [Hres Hfacts]]]]]].
      * left. split; [exact Hnil|].
        intros Hf Hv Ha Hps Hlt Hamount pre post Hsplit Hne.
        destruct (Hstep Hf Hv Ha Hps Hlt Hamount)
          as [[Hf' [Hv' [Ha' [Hps' Hlt']]]] Hiff].
        assert (Hgt : a + p_amount p < amount).
        { destruct (Z.lt_ge_cases (a + p_amount p) amount) as [H|H]; [exact H|].
          apply Hiff in H. congruence. }
        destruct pre as [|q pre]; [congruence|].
        inversion Hsplit; subst q rest. rewrite sumProofs_cons.
        destruct pre as [|q' pre'].
        -- change (sumProofs []) with 0. lia.
        -- specialize (Hshort Hf' Hv' Ha' Hps' Hlt' Hamount
                         (q' :: pre') post eq_refl ltac:(discriminate)). lia.
      * right. exists (p :: pre), last, post. subst rest.
        split; [reflexivity|]. split; [rewrite Hres, <- app_assoc; reflexivity|].
        intros Hf Hv Ha Hps Hlt Hamount.
        destruct (Hstep Hf Hv Ha Hps Hlt Hamount)
          as [[Hf' [Hv' [Ha' [Hps' Hlt']]]] Hiff].
        assert (Hgt : a + p_amount p < amount).
        { destruct (Z.lt_ge_cases (a + p_amount p) amount) as [H|H]; [exact H|].
          apply Hiff in H. congruence. }
        destruct (Hfacts Hf' Hv' Ha' Hps' Hlt' Hamount) as [Hreach Hmin].
        split.
        -- cbn [app]. rewrite sumProofs_cons. lia.
        -- right. rewrite sumProofs_cons.
           destruct Hmin as [->|Hmin]; [change (sumProofs []) with 0|]; lia.
Qed.

Lemma filter_base64_In (ps : list WalletProof) (p : WalletProof) :
  In p (sortByAmountDesc (filter isBase64Proof ps)) ->
  In p ps /\ isBase64Proof p = true.
Proof.
  intros H. apply (Permutation_in _ (sortByAmountDesc_perm _)) in H.
  now apply filter_In in H.
Qed.

(** X4. [coinSelectSpendBase64] selects legacy proofs only (ids without the
    "00" prefix), all taken from its input. Where the sums are integers
    binary64 holds exactly (legacy proofs of amounts that are not negative
    and add up to less than [2^53], an amount below [2^53] in magnitude):
    a selection that is not empty covers the amount; there is one whenever
    the legacy proofs together cover the amount, and there is none when
    they fall short. *)
Theorem coinSelectSpendBase64_covers_amount (ps : list WalletProof) (amount : Z) :
  let selected := coinSelectSpendBase64 ps amount in
  let base64Proofs := filter isBase64Proof ps in
  Forall (fun p => In p ps /\ isBase64Proof p = true) selected
  /\ (Forall (fun p => 0 <= p_amount p) base64Proofs ->
      sumProofs base64Proofs < 2 ^ 53 -> Z.abs amount < 2 ^ 53 ->
      (selected = [] \/ amount <= sumProofs selected)
      /\ (base64Proofs <> [] /\ amount <= sumProofs base64Proofs -> selected <> [])
      /\ (sumProofs base64Proofs < amount -> selected = [])).
Proof.
  cbv zeta. unfold coinSelectSpendBase64.
  destruct (filter isBase64Proof ps) as [|b bs] eqn:Eb.
  - split; [constructor|]. intros _ _ _. split; [now left|].
    split; [intros [H _]; congruence | reflexivity].
  - rewrite <- Eb.
    set (sorted := sortByAmountDesc (filter isBase64Proof ps)).
    assert (Hperm : Permutation sorted (filter isBase64Proof ps))
      by apply sortByAmountDesc_perm.
    assert (Hsum : sumProofs sorted = sumProofs (filter isBase64Proof ps))
      by (apply sumProofs_perm, Hperm).
    assert (Hbounds : Forall (fun p => 0 <= p_amount p) (filter isBase64Proof ps) ->
                      Forall (fun p => 0 <= p_amount p) sorted).
    { intros H. rewrite Forall_forall in *. intros p Hp. apply H.
      apply (Permutation_in _ Hperm Hp). }
    destruct (selectUntil_cases amount sorted 0%float 0 [])
      as [[Hnil Hshort]|[pre [last [post [Hsorted [Hres Hfacts]]]]]].
    + rewrite Hnil. split; [constructor|]. intros Hnonneg Hlt Hamount.
      specialize (Hshort eq_refl ltac:(reflexivity) ltac:(lia)
                    (Hbounds Hnonneg) ltac:(lia) Hamount).
      split; [now left|]. split; [|reflexivity].
      intros [_ Hcover]. exfalso.
      assert (Hne : sorted <> []).
      { intros E. rewrite E in Hperm. apply Permutation_nil in Hperm. congruence. }
      specialize (Hshort sorted [] (eq_sym (app_nil_r _)) Hne). lia.
    + rewrite Hres. cbn [app]. split.
      * apply Forall_forall. intros p Hp. apply filter_base64_In.
        fold sorted. rewrite Hsorted.
        replace (pre ++ last :: post) with ((pre ++ [last]) ++ post)
          by (rewrite <- app_assoc; reflexivity).
        apply in_or_app. now left.
      * intros Hnonneg Hlt Hamount.
        pose proof (Hbounds Hnonneg) as Hsortedpos.
        destruct (Hfacts eq_refl ltac:(reflexivity) ltac:(lia)
                    Hsortedpos ltac:(lia) Hamount) as [Hreach Hmin].
        split; [right; lia|]. split; [intros _ E; destruct pre; discriminate|].
        intros Hshort. exfalso.
        assert (Hpost : 0 <= sumProofs post).
        { apply sumProofs_nonneg. apply Forall_forall. intros p Hp.
          rewrite Forall_forall in Hsortedpos. apply Hsortedpos.
          rewrite Hsorted. apply in_or_app. right. now right. }
        rewrite <- Hsum, Hsorted in Hshort.
        replace (pre ++ last :: post) with ((pre ++ [last]) ++ post) in Hshort
          by (rewrite <- app_assoc; reflexivity).
        rewrite sumProofs_app in Hshort. lia.
Qed.

Lemma coinSelectSpendBase64_witness :
  let legacy := fun a s => mkProof a s "02c0ffee" "I2yN+iRYfkzT" false None in
  let ps := [proofOf 64 "h"; legacy 3 "a"; legacy 7 "b"; legacy 3 "c"; legacy 7 "d"] in
  coinSelectSpendBase64 ps 11 = [legacy 7 "b"; legacy 7 "d"]
  /\ coinSelectSpendBase64 ps 11 <> []
  /\ coinSelectSpendBase64 ps 21 = [].
Proof.
  cbv zeta. split; [vm_compute; reflexivity|].
  set (legacy := fun a s => mkProof a s "02c0ffee" "I2yN+iRYfkzT" false None).
  set (ps := [proofOf 64 "h"; legacy 3 "a"; legacy 7 "b"; legacy 3 "c"; legacy 7 "d"]).
  destruct (coinSelectSpendBase64_covers_amount ps 11) as [_ H11].
  destruct (coinSelectSpendBase64_covers_amount ps 21) as [_ H21].
  destruct H11 as [_ [Hsome _]];
    [repeat constructor; discriminate | reflexivity | reflexivity |].
  destruct H21 as [_ [_ Hnone]];
    [repeat constructor; discriminate | reflexivity | reflexivity |].
  split.
  - apply Hsome. split; [discriminate | vm_compute; discriminate].
  - apply Hnone. reflexivity.
Defined.

(** The sums of X4 are those of binary64: of the legacy proofs [2^53], 2
    and 1, in this order after the sort, the loop selects all three for
    the amount [2^53 + 4], which their amounts, [2^53 + 3] together, do
    not cover. *)
Example coinSelectSpendBase64_rounded_sum :
  let legacy := fun a s => mkProof a s "02c0ffee" "I2yN+iRYfkzT" false None in
  let ps := [legacy 9007199254740992 "a"; legacy 2 "b"; legacy 1 "c"] in
  coinSelectSpendBase64 ps 9007199254740996 = ps
  /\ sumProofs ps < 9007199254740996.
Proof. cbv zeta. split; [vm_compute; reflexivity | reflexivity]. Qed.

(** X5. The selection of [coinSelectSpendBase64] is greedy: it is a front
    part of the legacy proofs in falling order of amount, so no proof left
    out is larger than a selected one. Where the sums are integers
    binary64 holds exactly (legacy proofs of amounts that are not negative
    and add up to less than [2^53], an amount below [2^53] in magnitude)
    it is minimal: without its last proof the selection falls short of the
    amount. *)
Theorem coinSelectSpendBase64_greedy_minimal (ps : list WalletProof) (amount : Z) :
  let selected := coinSelectSpendBase64 ps amount in
  selected <> [] ->
  exists leftOut,
    sortByAmountDesc (filter isBase64Proof ps) = selected ++ leftOut
    /\ Permutation (selected ++ leftOut) (filter isBase64Proof ps)
    /\ (forall a b, In a selected -> In b leftOut -> p_amount b <= p_amount a)
    /\ (Forall (fun p => 0 <= p_amount p) (filter isBase64Proof ps) ->
        sumProofs (filter isBase64Proof ps) < 2 ^ 53 -> Z.abs amount < 2 ^ 53 ->
        removelast selected = [] \/ sumProofs (removelast selected) < amount).
Proof.
  cbv zeta. unfold coinSelectSpendBase64.
  destruct (filter isBase64Proof ps) as [|b bs] eqn:Eb; [congruence|].
  rewrite <- Eb. set (sorted := sortByAmountDesc (filter isBase64Proof ps)).
  assert (Hperm : Permutation sorted (filter isBase64Proof ps))
    by apply sortByAmountDesc_perm.
  destruct (selectUntil_cases amount sorted 0%float 0 [])
    as [[Hnil _]|[pre [last [post [Hsorted [Hres Hfacts]]]]]];
    [congruence|].
  rewrite Hres. cbn [app]. intros _. exists post.
  assert (Hsplit : sorted = (pre ++ [last]) ++ post)
    by (rewrite Hsorted, <- app_assoc; reflexivity).
  split; [exact Hsplit|]. split; [rewrite <- Hsplit; exact Hperm|].
  split.
  - intros a c Ha Hc.
    pose proof (sortByAmountDesc_falling (filter isBase64Proof ps)) as Hfall.
    fold sorted in Hfall. rewrite Hsplit in Hfall. unfold fallingAmounts in Hfall.
    clear - Ha Hc Hfall. induction (pre ++ [last]) as [|x l IH]; [destruct Ha|].
    cbn [app] in Hfall. inversion Hfall as [|? ? Hl Hx]; subst.
    destruct Ha as [<-|Ha].
    + rewrite Forall_forall in Hx. apply Hx. apply in_or_app. now right.
    + now apply IH.
  - intros Hnonneg Hlt Hamount.
    assert (Hsortedpos : Forall (fun p => 0 <= p_amount p) sorted).
    { rewrite Forall_forall in *. intros p Hp. apply Hnonneg.
      apply (Permutation_in _ Hperm Hp). }
    assert (Hsum : sumProofs sorted = sumProofs (filter isBase64Proof ps))
      by (apply sumProofs_perm, Hperm).
    destruct (Hfacts eq_refl ltac:(reflexivity) ltac:(lia)
                Hsortedpos ltac:(lia) Hamount) as [_ Hmin].
    rewrite removelast_last. destruct Hmin as [->|Hmin]; [now left | right; lia].
Qed.

Lemma coinSelectSpendBase64_greedy_witness :
  let legacy := fun a s => mkProof a s "02c0ffee" "I2yN+iRYfkzT" false None in
  let ps := [proofOf 64 "h"; legacy 3 "a"; legacy 7 "b"; legacy 3 "c"; legacy 7 "d"] in
  exists leftOut,
    sortByAmountDesc (filter isBase64Proof ps) = coinSelectSpendBase64 ps 11 ++ leftOut
    /\ Permutation (coinSelectSpendBase64 ps 11 ++ leftOut) (filter isBase64Proof ps)
    /\ (forall a b, In a (coinSelectSpendBase64 ps 11) -> In b leftOut ->
                    p_amount b <= p_amount a)
    /\ (removelast (coinSelectSpendBase64 ps 11) = []
        \/ sumProofs (removelast (coinSelectSpendBase64 ps 11)) < 11).
Proof.
  cbv zeta.
  destruct (coinSelectSpendBase64_greedy_minimal
           [proofOf 64 "h"; mkProof 3 "a" "02c0ffee" "I2yN+iRYfkzT" false None;
            mkProof 7 "b" "02c0ffee" "I2yN+iRYfkzT" false None;
            mkProof 3 "c" "02c0ffee" "I2yN+iRYfkzT" false None;
            mkProof 7 "d" "02c0ffee" "I2yN+iRYfkzT" false None] 11)
    as [leftOut [Hsorted [Hperm [Hgreedy Hminimal]]]];
    [vm_compute; discriminate|].
  exists leftOut. split; [exact Hsorted|]. split; [exact Hperm|].
  split; [exact Hgreedy|].
  apply Hminimal; [repeat constructor; discriminate | reflexivity | reflexivity].
Defined.

(** ** Send *)

Lemma map_reserve_none (r : bool) (q : option string) (store : list WalletProof) :
  map (fun p => if proofIn p [] then reserveProof r q p else p) store = store.
Proof.
  rewrite <- (map_id store) at 2. apply map_ext. reflexivity.
Qed.

Lemma set_proofs_same (f : list WalletProof -> list WalletProof) (st : WalletState) :
  f (proofs st) = proofs st -> set_proofs f st = st.
Proof.
  intros H. unfold set_proofs. rewrite H. now destruct st.
Qed.

(** X6. A [send] that fails before it reaches the mint leaves the wallet
    as it was. When [getKeyset] throws, the state is untouched. When the
    unreserved proofs do not cover the amount, [send] throws "Balance too
    low" with the mutex released and nothing else changed: no request, no
    counter, no proof, no reservation. *)
Theorem send_failing_early_changes_nothing
  (env : Env) (ps : list WalletProof) (amount : Z) (invalidate includeFees : bool)
  (st : WalletState) :
  (forall e, getKeyset st = (Threw e, st) ->
             send env ps amount invalidate includeFees st = (Threw e, st))
  /\ (forall kid, getKeyset st = (Returned kid, st) ->
                  sumProofs (getUnreservedProofs ps) < amount ->
                  send env ps amount invalidate includeFees st
                  = (Threw (JsError "Balance too low"), set_mutex false st)).
Proof.
  split.
  - intros e Hk. unfold send. unfold bind at 1. now rewrite Hk.
  - intros kid Hk Hlow. unfold send. unfold bind at 1. rewrite Hk.
    unfold spendableProofs.
    destruct (Z.ltb_spec (sumProofs (getUnreservedProofs ps)) amount); [|lia].
    unfold sendCatch, handleOutputsHaveAlreadyBeenSignedError.
    cbv beta iota delta [bind ret throw get modify tryCatch tryFinally
                          liftOutcome call lockMutex setReserved].
    cbn [Str.includes outputsSignedMessage].
    replace (Str.includes "outputs have already been signed" "Balance too low")
      with false by reflexivity.
    cbn [fst snd]. rewrite (set_proofs_same _ (set_mutex true st))
      by apply map_reserve_none.
    reflexivity.
Qed.

Lemma send_failing_early_witness :
  send (scriptedEnv offline) (proofs fundedState) 13 false true fundedState
  = (Threw (JsError "Balance too low"), set_mutex false fundedState)
  /\ send (scriptedEnv offline) [] 1 false false
       (initialState [] "sat" "https://mint.example" [])
     = (Threw (JsError "no keysets found."),
        initialState [] "sat" "https://mint.example" []).
Proof.
  split.
  - apply (send_failing_early_changes_nothing (scriptedEnv offline)
             (proofs fundedState) 13 false true fundedState)
      with (kid := "00ad268c4d1f5826"); reflexivity.
  - apply (send_failing_early_changes_nothing (scriptedEnv offline) [] 1 false false
             (initialState [] "sat" "https://mint.example" [])).
    reflexivity.
Defined.

(** ** The engine mutex *)

Lemma tryFinally_unlocks {A : Type} (body : M A) (st : WalletState) :
  mutex (snd (tryFinally body unlockMutex st)) = false.
Proof.
  unfold tryFinally. now destruct (body st).
Qed.

(** X7. Once [getKeyset] has answered, [send] and [mint] end with the
    engine mutex released, whatever they return or throw; so does the
    payment part of [melt]. *)
Theorem engine_mutex_released_on_every_path (env : Env) (st : WalletState) :
  (forall kid ps amount invalidate includeFees,
      getKeyset st = (Returned kid, st) ->
      mutex (snd (send env ps amount invalidate includeFees st)) = false)
  /\ (forall kid amount hash,
         getKeyset st = (Returned kid, st) ->
         mutex (snd (mint env amount hash st)) = false)
  /\ (forall quote amount keysetId sendProofs,
         mutex (snd (meltPay env quote amount keysetId sendProofs st)) = false).
Proof.
  split; [|split].
  - intros kid ps amount invalidate includeFees Hk.
    unfold send. unfold bind at 1. rewrite Hk. unfold bind at 1.
    apply tryFinally_unlocks.
  - intros kid amount hash Hk.
    unfold mint. unfold bind at 1. rewrite Hk. unfold bind at 1.
    apply tryFinally_unlocks.
  - intros quote amount keysetId sendProofs.
    unfold meltPay. unfold bind at 1. apply tryFinally_unlocks.
Qed.

Lemma engine_mutex_released_witness :
  mutex (snd (send (scriptedEnv signedScript) (proofs fundedState) 5 false false
                (set_mutex true fundedState))) = false
  /\ mutex (snd (mint (scriptedEnv offline) 100 "q1" fundedState)) = false.
Proof.
  destruct (engine_mutex_released_on_every_path (scriptedEnv signedScript)
              (set_mutex true fundedState)) as [Hsend _].
  destruct (engine_mutex_released_on_every_path (scriptedEnv offline) fundedState)
    as [_ [Hmint _]].
  split.
  - apply (Hsend "00ad268c4d1f5826"). reflexivity.
  - apply (Hmint "00ad268c4d1f5826"). reflexivity.
Defined.

(** ** Counters never go down *)

Lemma countersGrow_refl (cs : list KeysetCounter) : countersGrow cs cs.
Proof. intros id c H. exists c. split; [exact H | lia]. Qed.

Lemma countersGrow_trans (a b c : list KeysetCounter) :
  countersGrow a b -> countersGrow b c -> countersGrow a c.
Proof.
  intros Hab Hbc id x Hx.
  destruct (Hab id x Hx) as [y [Hy Hxy]].
  destruct (Hbc id y Hy) as [z [Hz Hyz]].
  exists z. split; [exact Hz | lia].
Qed.

Lemma countersGrow_read (id : string) (cs : list KeysetCounter) :
  countersGrow cs (snd (keysetCounterOn id cs)).
Proof.
  intros id' c H. exists c. split; [|lia].
  destruct (String.eqb_spec id' id) as [->|Hne].
  - now rewrite (keysetCounterOn_present id c cs H).
  - now rewrite keysetCounterOn_other.
Qed.

Lemma countersGrow_increase (id : string) (by_ : Z) (cs : list KeysetCounter) :
  0 <= by_ -> countersGrow cs (increaseKeysetCounterOn id by_ cs).
Proof.
  intros Hby id' c H.
  destruct (String.eqb_spec id' id) as [->|Hne].
  - exists (c + by_). split; [now apply counterOf_increase_present | lia].
  - exists c. split; [now rewrite increaseKeysetCounterOn_other | lia].
Qed.

(** A bump that is taken back, on top of a bump that stays. *)
Lemma countersGrow_rollback (id : string) (kept undone : Z) (cs : list KeysetCounter) :
  0 <= kept ->
  countersGrow cs
    (increaseKeysetCounterOn id (- undone)
       (increaseKeysetCounterOn id undone (increaseKeysetCounterOn id kept cs))).
Proof.
  intros Hk id' c H.
  destruct (String.eqb_spec id' id) as [->|Hne].
  - exists (c + kept). split; [|lia].
    rewrite (counterOf_increase_present id (- undone) (c + kept + undone));
      [f_equal; lia|].
    apply counterOf_increase_present. now apply counterOf_increase_present.
  - exists c. split; [|lia]. now rewrite !increaseKeysetCounterOn_other.
Qed.

Lemma getKeyset_state (st : WalletState) : snd (getKeyset st) = st.
Proof.
  destruct (getKeyset_run st) as [[kid H]|[e [H _]]]; now rewrite H.
Qed.

Ltac grow :=
  cbn [keysetCounters set_keysetCounters set_proofs set_mutex log_request
       set_invoiceHistory set_historyTokens set_payInvoiceData unlockMutex snd fst];
  repeat first
    [ assumption
    | apply countersGrow_refl
    | apply countersGrow_increase; lia
    | eapply countersGrow_trans; [eassumption|] ].

Lemma send_countersGrow (env : Env) (ps : list WalletProof) (amount : Z)
  (invalidate includeFees : bool) (st : WalletState) :
  countersGrow (keysetCounters st)
    (keysetCounters (snd (send env ps amount invalidate includeFees st))).
Proof.
  unfold send. unfold bind at 1.
  destruct (getKeyset_run st) as [[kid Hk]|[e0 [Hk _]]]; rewrite Hk;
    [|apply countersGrow_refl].
  unfold sendCatch, handleOutputsHaveAlreadyBeenSignedError.
  cbv beta iota delta [bind ret throw get modify tryCatch tryFinally
                        liftOutcome call lockMutex setReserved removeProofs
                        addProofs increaseKeysetCounter keysetCounter].
  destruct (spendableProofs ps amount) as [spendable|e1] eqn:Hsp.
  2:{ destruct e1 as [message|s]; [|grow].
      destruct (Str.includes outputsSignedMessage message); grow. }
  set (fees := if includeFees
               then walletFees env (coinSelect env spendable amount includeFees)
               else 0) in *.
  set (targetNumber := (F64.ofZ amount + F64.ofZ fees)%float) in *.
  set (target := F64.toZ targetNumber) in *.
  destruct (negb (reduceAmounts (coinSelect env spendable amount includeFees)
                  =? targetNumber)%float).
  2:{ destruct invalidate; grow. }
  cbn [keysetCounters set_mutex].
  pose proof (countersGrow_read kid (keysetCounters st)) as Hread.
  destruct (keysetCounterOn kid (keysetCounters st)) as [c cs].
  cbn [snd] in Hread.
  destruct (walletSend env target (coinSelect env spendable target true) c spendable)
    as [[keepProofs sendProofs]|e1].
  { destruct invalidate; grow. }
  destruct e1 as [message|s]; [|grow].
  destruct (Str.includes outputsSignedMessage message); grow.
Qed.

Lemma mint_countersGrow (env : Env) (amount : Z) (hash : string) (st : WalletState) :
  countersGrow (keysetCounters st) (keysetCounters (snd (mint env amount hash st))).
Proof.
  unfold mint. unfold bind at 1.
  destruct (getKeyset_run st) as [[kid Hk]|[e0 [Hk _]]]; rewrite Hk;
    [|apply countersGrow_refl].
  unfold mintCatch, handleOutputsHaveAlreadyBeenSignedError.
  cbv beta iota delta [bind ret throw get modify tryCatch tryFinally
                        liftOutcome call lockMutex setReserved removeProofs
                        addProofs increaseKeysetCounter keysetCounter
                        setInvoicePaid addPaidToken].
  destruct (apiCheckMintQuote env hash) as [mintQuote|e1].
  2:{ destruct e1 as [message|s]; [|grow].
      destruct (Str.includes outputsSignedMessage message); grow. }
  destruct (mintq_state mintQuote); try grow.
  cbn [keysetCounters set_mutex log_request].
  pose proof (countersGrow_read kid (keysetCounters st)) as Hread.
  destruct (keysetCounterOn kid (keysetCounters st)) as [c cs].
  cbn [snd] in Hread.
  match goal with
  | |- context [walletMintProofs env amount hash kid c ?have] =>
      destruct (walletMintProofs env amount hash kid c have) as [minted|e1]
  end.
  { destruct minted as [|p minted']; [grow|].
    destruct (serializeProofs env (p :: minted')); grow. }
  destruct e1 as [message|s]; [|grow].
  destruct (Str.includes outputsSignedMessage message); grow.
Qed.

Lemma counterOf_increase_eq (id : string) (by_ : Z) (cs : list KeysetCounter) :
  counterOf id (increaseKeysetCounterOn id by_ cs)
  = Some (match counterOf id cs with Some c => c + by_ | None => by_ end).
Proof.
  destruct (counterOf id cs) as [c|] eqn:E.
  - now apply counterOf_increase_present.
  - now apply counterOf_increase_absent.
Qed.

Lemma changeOutputs_nonneg (env : Env) (fee_reserve : Z) :
  0 <= changeOutputs env fee_reserve.
Proof.
  unfold changeOutputs. cbv zeta.
  destruct (Z.of_N (ceilLog2 env fee_reserve) =? 0); lia.
Qed.

Lemma meltPay_countersGrow (env : Env) (quote : MeltQuoteResponse) (amount : Z)
  (keysetId : string) (sendProofs : list WalletProof) (st : WalletState) :
  countersGrow (keysetCounters st)
    (keysetCounters (snd (meltPay env quote amount keysetId sendProofs st))).
Proof.
  unfold meltPay, meltTry, meltCatch, addOutgoingPendingInvoiceToHistory,
    removeOutgoingInvoiceFromHistory, updateInvoiceInHistory,
    handleOutputsHaveAlreadyBeenSignedError.
  cbv beta iota delta [bind ret throw get modify tryCatch tryFinally
                        liftOutcome call lockMutex setReserved removeProofs
                        addProofs increaseKeysetCounter keysetCounter addPaidToken].
  cbn [keysetCounters set_mutex set_proofs set_invoiceHistory].
  pose proof (countersGrow_read keysetId (keysetCounters st)) as Hread.
  destruct (keysetCounterOn keysetId (keysetCounters st)) as [c cs].
  cbn [snd] in Hread.
  assert (Hlen : 0 <= Z.of_nat (List.length sendProofs)) by lia.
  pose proof (changeOutputs_nonneg env (mq_fee_reserve quote)) as Hch.
  destruct (0 <? mq_fee_reserve quote);
    cbn [fst snd keysetCounters set_keysetCounters];
    destruct (walletMeltProofs env quote sendProofs keysetId c) as [data|e1].
  all: repeat match goal with
       | |- context [match mq_state ?x with _ => _ end] => destruct (mq_state x)
       | |- context [if isUnloading ?s then _ else _] =>
           cbn [isUnloading set_keysetCounters set_proofs set_mutex log_request
                set_invoiceHistory set_historyTokens set_payInvoiceData];
           destruct (isUnloading st)
       | |- context [match apiCheckMeltQuote ?e ?q with _ => _ end] =>
           destruct (apiCheckMeltQuote e q)
       | |- context [match ?e with JsError _ => _ | JsThrownString _ => _ end] =>
           destruct e
       | |- context [if Str.includes ?a ?b then _ else _] =>
           destruct (Str.includes a b)
       end.
  all: cbn [keysetCounters set_keysetCounters set_proofs set_mutex log_request
            set_invoiceHistory set_historyTokens set_payInvoiceData unlockMutex
            snd fst].
  all: intros id x Hx; destruct (Hread id x Hx) as [y [Hy Hxy]];
       destruct (String.eqb_spec id keysetId) as [->|Hne];
       [ rewrite ?counterOf_increase_eq, ?Hy; eexists; split; [reflexivity | lia]
       | rewrite ?increaseKeysetCounterOn_other by assumption;
         eexists; split; [exact Hy | lia] ].
Qed.

(** X8. No run of [send], of [mint] or of the payment part of [melt],
    whether it returns or throws, loses a keyset counter or leaves one
    lower than it found it: every bump is by a count of proofs or by 10,
    and the one negative bump (the rollback of [melt]) only takes back a
    bump of the same run. *)
Theorem counters_never_decrease (env : Env) (st : WalletState) :
  (forall ps amount invalidate includeFees,
      countersGrow (keysetCounters st)
        (keysetCounters (snd (send env ps amount invalidate includeFees st))))
  /\ (forall amount hash,
         countersGrow (keysetCounters st)
           (keysetCounters (snd (mint env amount hash st))))
  /\ (forall quote amount keysetId sendProofs,
         countersGrow (keysetCounters st)
           (keysetCounters (snd (meltPay env quote amount keysetId sendProofs st)))).
Proof.
  split; [|split].
  - intros. apply send_countersGrow.
  - intros. apply mint_countersGrow.
  - intros. apply meltPay_countersGrow.
Qed.

Lemma counters_never_decrease_witness :
  exists c',
    counterOf "00ad268c4d1f5826"
      (keysetCounters
         (snd (meltPay (scriptedEnv unpaidScript) quoteOf6Fee2 8 "00ad268c4d1f5826"
                 [proofOf 8 "s1"] payingStateWithFee))) = Some c'
    /\ 5 <= c'.
Proof.
  destruct (counters_never_decrease (scriptedEnv unpaidScript) payingStateWithFee)
    as [_ [_ Hmelt]].
  apply (Hmelt quoteOf6Fee2 8 "00ad268c4d1f5826" [proofOf 8 "s1"]
           "00ad268c4d1f5826" 5).
  reflexivity.
Defined.


(** ** What a successful send leaves in the store *)

Lemma reserved_after_setReserved (sendProofs store : list WalletProof)
  (q : option string) (p : WalletProof) :
  In p (map (fun p => if proofIn p sendProofs then reserveProof true q p else p) store) ->
  proofIn p sendProofs = true -> p_reserved p = true.
Proof.
  intros Hin Hp. apply in_map_iff in Hin. destruct Hin as [p0 [<- _]].
  destruct (proofIn p0 sendProofs) eqn:E; [reflexivity|].
  rewrite E in Hp. discriminate.
Qed.

Lemma absent_after_removeProofs (sendProofs store : list WalletProof)
  (q : option string) (p : WalletProof) :
  In p (map (fun p => if proofIn p sendProofs then reserveProof true q p else p)
          (filter (fun p => negb (proofIn p sendProofs)) store)) ->
  proofIn p sendProofs = false.
Proof.
  intros Hin. apply in_map_iff in Hin. destruct Hin as [p0 [<- Hp0]].
  apply filter_In in Hp0. destruct Hp0 as [_ Hp0].
  apply negb_true_iff in Hp0. now rewrite Hp0.
Qed.

(** X9. After a [send] that returns, the proofs to send are accounted for
    in the store: without [invalidate], every stored proof with the secret
    of a returned send proof is reserved; with [invalidate], no stored
    proof has such a secret. *)
Theorem send_success_reserves_or_burns
  (env : Env) (ps : list WalletProof) (amount : Z) (invalidate includeFees : bool)
  (st st' : WalletState) (keepProofs sendProofs : list WalletProof) :
  send env ps amount invalidate includeFees st
  = (Returned (keepProofs, sendProofs), st') ->
  forall p, In p (proofs st') ->
            if invalidate then proofIn p sendProofs = false
            else proofIn p sendProofs = true -> p_reserved p = true.
Proof.
  intros Hrun. unfold send in Hrun. unfold bind at 1 in Hrun.
  destruct (getKeyset_run st) as [[kid Hk]|[e0 [Hk _]]]; rewrite Hk in Hrun;
    [|discriminate].
  unfold sendCatch, handleOutputsHaveAlreadyBeenSignedError in Hrun.
  unfold_action_in Hrun.
  destruct (spendableProofs ps amount) as [spendable|e1] eqn:Hsp.
  2:{ destruct e1 as [message|s]; [|discriminate].
      destruct (Str.includes outputsSignedMessage message); discriminate. }
  set (fees := if includeFees
               then walletFees env (coinSelect env spendable amount includeFees)
               else 0) in *.
  set (targetNumber := (F64.ofZ amount + F64.ofZ fees)%float) in *.
  set (target := F64.toZ targetNumber) in *.
  destruct (negb (reduceAmounts (coinSelect env spendable amount includeFees)
                  =? targetNumber)%float).
  - cbn [keysetCounters set_mutex] in Hrun.
    destruct (keysetCounterOn kid (keysetCounters st)) as [c cs].
    destruct (walletSend env target (coinSelect env spendable target true) c spendable)
      as [[keep snd_]|e1].
    + destruct invalidate; cbn in Hrun; inversion Hrun; subst; cbn; intros p Hp.
      * exact (absent_after_removeProofs _ _ _ _ Hp).
      * exact (reserved_after_setReserved _ _ _ _ Hp).
    + destruct e1 as [message|s]; [|discriminate].
      destruct (Str.includes outputsSignedMessage message); discriminate.
  - destruct invalidate; cbn in Hrun; inversion Hrun; subst; cbn; intros p Hp.
    + exact (absent_after_removeProofs _ _ _ _ Hp).
    + exact (reserved_after_setReserved _ _ _ _ Hp).
Qed.

Lemma send_success_witness :
  In (reserveProof true None (proofOf 1 "n1"))
     (proofs (snd (send (scriptedEnv swapScript) (proofs fundedState) 5 false false
                     fundedState)))
  /\ p_reserved (reserveProof true None (proofOf 1 "n1")) = true.
Proof.
  assert (Hin : In (reserveProof true None (proofOf 1 "n1"))
                   (proofs (snd (send (scriptedEnv swapScript) (proofs fundedState) 5
                                   false false fundedState)))).
  { vm_compute. right. left. reflexivity. }
  split; [exact Hin|].
  exact (send_success_reserves_or_burns (scriptedEnv swapScript)
           (proofs fundedState) 5 false false fundedState
           (snd (send (scriptedEnv swapScript) (proofs fundedState) 5 false false
                   fundedState))
           [proofOf 7 "k1"] [proofOf 1 "n1"; proofOf 4 "n2"] eq_refl
           (reserveProof true None (proofOf 1 "n1")) Hin eq_refl).
Defined.

(** The number [amount + fees] of [send] and the comparison with the
    sum of the selected proofs, on integers binary64 holds exactly. *)
Lemma send_target_exact (amount fees : Z) :
  Z.abs amount < 2 ^ 53 -> Z.abs fees < 2 ^ 53 -> Z.abs (amount + fees) < 2 ^ 53 ->
  let targetNumber := (F64.ofZ amount + F64.ofZ fees)%float in
  F64.finite targetNumber = true
  /\ (F64.value targetNumber == inject_Z (amount + fees))%Q
  /\ F64.toZ targetNumber = amount + fees.
Proof.
  intros Ha Hf Hsum targetNumber.
  destruct (ofZ_exact amount Ha) as [_ [Hva Hsa]].
  destruct (ofZ_exact fees Hf) as [_ [Hvf Hsf]].
  destruct (add_exact (F64.ofZ amount) (F64.ofZ fees) (amount + fees) Hsa Hsf)
    as [Hfin Hval]; [rewrite Hva, Hvf, inject_Z_plus; reflexivity|exact Hsum|].
  split; [exact Hfin|]. split; [exact Hval|].
  exact (toZ_value _ _ Hfin Hval).
Qed.

Lemma send_comparison_exact (selected : list WalletProof) (amount fees : Z) :
  Forall (fun p => 0 <= p_amount p) selected -> sumAmounts selected < 2 ^ 53 ->
  Z.abs amount < 2 ^ 53 -> Z.abs fees < 2 ^ 53 -> Z.abs (amount + fees) < 2 ^ 53 ->
  (reduceAmounts selected =? F64.ofZ amount + F64.ofZ fees)%float
  = (sumAmounts selected =? amount + fees).
Proof.
  intros Hps Hsum Ha Hf Ht.
  destruct (reduceAmounts_exact selected Hps Hsum) as [Hfs Hvs].
  destruct (send_target_exact amount fees Ha Hf Ht) as [Hft [Hvt _]].
  pose proof (eqb_value _ _ Hfs Hft) as Heq.
  rewrite Hvs, Hvt, inject_Z_injective in Heq.
  destruct (Z.eqb_spec (sumAmounts selected) (amount + fees)) as [E|E].
  - apply Heq. exact E.
  - destruct (reduceAmounts selected =? F64.ofZ amount + F64.ofZ fees)%float;
      [|reflexivity].
    exfalso. apply E. apply Heq. reflexivity.
Qed.

(** X10. [send] asks the mint for a swap at most once, and only when the
    sum of the proofs it selected and the amount plus fees, both as the
    numbers the engine computes, are not equal: then, and only then, a
    [send] that returns has bumped the counter of its keyset, by the
    number of proofs the swap returned. Otherwise it returns the selected
    proofs themselves, keeps nothing, and touches no counter. On integers
    binary64 holds exactly (selected amounts that are not negative and add
    up to less than [2^53], an amount, fees and their sum below [2^53] in
    magnitude) the numbers are equal exactly when the selected proofs add
    up to the amount plus fees. *)
Theorem send_swaps_only_for_change
  (env : Env) (ps : list WalletProof) (amount : Z) (invalidate includeFees : bool)
  (st st' : WalletState) (keepProofs sendProofs : list WalletProof) :
  send env ps amount invalidate includeFees st
  = (Returned (keepProofs, sendProofs), st') ->
  let selected := coinSelect env (getUnreservedProofs ps) amount includeFees in
  let fees := if includeFees then walletFees env selected else 0 in
  let equalNumbers :=
    (reduceAmounts selected =? F64.ofZ amount + F64.ofZ fees)%float in
  (if equalNumbers then
     keepProofs = [] /\ sendProofs = selected
     /\ requests st' = requests st
     /\ keysetCounters st' = keysetCounters st
   else
     requests st' = requests st ++ [ReqSwap]
     /\ exists kid,
          getKeyset st = (Returned kid, st)
          /\ counterOf kid (keysetCounters st')
             = Some (match counterOf kid (keysetCounters st) with
                     | Some c => c
                     | None => 1
                     end
                     + (Z.of_nat (List.length keepProofs)
                        + Z.of_nat (List.length sendProofs))))
  /\ (Forall (fun p => 0 <= p_amount p) selected -> sumAmounts selected < 2 ^ 53 ->
      Z.abs amount < 2 ^ 53 -> Z.abs fees < 2 ^ 53 ->
      Z.abs (amount + fees) < 2 ^ 53 ->
      equalNumbers = (sumAmounts selected =? amount + fees)).
Proof.
  intros Hrun selected fees equalNumbers.
  split; [|apply send_comparison_exact].
  unfold send in Hrun. unfold bind at 1 in Hrun.
  destruct (getKeyset_run st) as [[kid Hk]|[e0 [Hk _]]]; rewrite Hk in Hrun;
    [|discriminate].
  unfold sendCatch, handleOutputsHaveAlreadyBeenSignedError in Hrun.
  unfold_action_in Hrun.
  unfold spendableProofs in Hrun.
  destruct (sumProofs (getUnreservedProofs ps) <? amount); [discriminate|].
  fold selected in Hrun. fold fees in Hrun.
  set (targetNumber := (F64.ofZ amount + F64.ofZ fees)%float) in *.
  set (target := F64.toZ targetNumber) in *.
  fold equalNumbers in Hrun.
  destruct equalNumbers; cbn [negb] in Hrun.
  - destruct invalidate; cbn in Hrun; inversion Hrun; subst; repeat split.
  - cbn [keysetCounters set_mutex] in Hrun.
    pose proof (counterOf_keysetCounterOn kid (keysetCounters st)) as Hc.
    destruct (keysetCounterOn kid (keysetCounters st)) as [c cs]. cbn [snd] in Hc.
    destruct (walletSend env target (coinSelect env (getUnreservedProofs ps) target true)
                c (getUnreservedProofs ps)) as [[keep snd_]|e1].
    + destruct invalidate; cbn in Hrun; inversion Hrun; subst; cbn;
        (split; [reflexivity|]); exists kid; (split; [exact Hk|]);
        now rewrite (counterOf_increase_present kid _ _ cs Hc).
    + destruct e1 as [message|s]; [|discriminate].
      destruct (Str.includes outputsSignedMessage message); discriminate.
Qed.

Lemma send_swaps_witness :
  let env := scriptedEnv swapScript in
  let split_ := send env (proofs fundedState) 5 false false fundedState in
  let exact_ := send env (proofs fundedState) 12 false false fundedState in
  requests (snd split_) = [ReqSwap]
  /\ counterOf "00ad268c4d1f5826" (keysetCounters (snd split_)) = Some 8
  /\ requests (snd exact_) = []
  /\ keysetCounters (snd exact_) = keysetCounters fundedState.
Proof.
  cbv zeta.
  pose proof (send_swaps_only_for_change
                (scriptedEnv swapScript)
                (proofs fundedState) 5 false false fundedState _ _ _ eq_refl)
    as [Hsplit _].
  pose proof (send_swaps_only_for_change
                (scriptedEnv swapScript)
                (proofs fundedState) 12 false false fundedState _ _ _ eq_refl)
    as [Hexact _].
  vm_compute in Hsplit. vm_compute in Hexact.
  destruct Hsplit as [Hreq [kid [Hk Hc]]].
  destruct Hexact as [_ [_ [Hreq' Hcs']]].
  inversion Hk; subst kid.
  split; [exact Hreq|]. split; [exact Hc|]. split; [exact Hreq' | exact Hcs'].
Defined.

(** The comparison of X10 is the one of binary64: from proofs of [2^53]
    and 1 the selection for the amount [2^53] is both, its sum is rounded
    to [2^53], and [send] hands out both proofs, [2^53 + 1] together,
    without a swap. *)
Example send_rounded_sum_no_swap :
  let ps := [proofOf 9007199254740992 "s1"; proofOf 1 "s2"] in
  let st := initialState [satKeyset] "sat" "https://mint.example" ps in
  let run := send (scriptedEnv swapScript) ps 9007199254740992 false false st in
  fst run = Returned ([], ps)
  /\ requests (snd run) = []
  /\ sumAmounts ps <> 9007199254740992.
Proof. cbv zeta. split; [|split]; vm_compute; [reflexivity|reflexivity|discriminate]. Qed.

(** ** Locked sends *)

(** X11. [sendToLock] takes no mutex and touches no keyset counter and no
    invoice, on any path. When it fails (balance too low, or the swap
    throws) the proof store is as before, and a balance too low costs no
    request. When it returns, the selected proofs are gone from the store
    and the proofs to keep are in it; the locked proofs are returned
    only. *)
Theorem sendToLock_effects
  (env : Env)
  (walletSendTo : Z -> list WalletProof -> string
                  -> Outcome (list WalletProof * list WalletProof))
  (ps : list WalletProof) (amount : Z) (receiverPubkey : string) (st : WalletState) :
  let '(r, st') := sendToLock env walletSendTo ps amount receiverPubkey st in
  keysetCounters st' = keysetCounters st
  /\ invoiceHistory st' = invoiceHistory st
  /\ mutex st' = mutex st
  /\ match r with
     | Threw e =>
         proofs st' = proofs st
         /\ (sumProofs (getUnreservedProofs ps) < amount ->
             e = JsError "Balance too low" /\ requests st' = requests st)
     | Returned (keepProofs, sendProofs) =>
         let proofsToSend := coinSelect env (getUnreservedProofs ps) amount true in
         walletSendTo amount proofsToSend receiverPubkey
         = Returned (keepProofs, sendProofs)
         /\ proofs st'
            = filter (fun p => negb (proofIn p proofsToSend)) (proofs st ++ keepProofs)
         /\ requests st' = requests st ++ [ReqSwap]
     end.
Proof.
  unfold sendToLock, spendableProofs.
  cbv beta iota delta [bind ret throw get modify liftOutcome call removeProofs addProofs].
  destruct (Z.ltb_spec (sumProofs (getUnreservedProofs ps)) amount) as [Hlt|Hge].
  - repeat split.
  - destruct (walletSendTo amount
                (coinSelect env (getUnreservedProofs ps) amount true) receiverPubkey)
      as [[keepProofs sendProofs]|e] eqn:Hsend; cbn.
    + repeat split.
    + repeat split; lia.
Qed.

(** ** Mint *)

(** X12. A [mint] for a quote the mint does not report as PAID throws
    "invoice not paid yet." after the one quote check: no proof is minted
    or stored, no counter and no invoice is touched, and the mutex is
    released. *)
Theorem mint_unpaid_quote_changes_nothing
  (env : Env) (amount : Z) (hash kid : string) (st : WalletState)
  (mintQuote : MintQuoteResponse) :
  getKeyset st = (Returned kid, st) ->
  apiCheckMintQuote env hash = Returned mintQuote ->
  mintq_state mintQuote <> MINT_PAID ->
  mint env amount hash st
  = (Threw (JsError "invoice not paid yet."),
     set_mutex false (log_request (ReqCheckMintQuote hash) st)).
Proof.
  intros Hk Hcheck Hstate. unfold mint. unfold bind at 1. rewrite Hk.
  unfold mintCatch, handleOutputsHaveAlreadyBeenSignedError.
  cbv beta iota delta [bind ret throw get modify tryCatch tryFinally
                        liftOutcome call lockMutex].
  rewrite Hcheck.
  destruct (mintq_state mintQuote); [reflexivity | congruence | reflexivity].
Qed.

Lemma mint_unpaid_quote_witness :
  mint (scriptedEnv
          (mkScript networkDown networkDown networkDown networkDown networkDown
             networkDown (Returned (mkMintQuoteResponse "q1" "lnbc1u1example" MINT_UNPAID))
             networkDown))
    100 "q1" fundedState
  = (Threw (JsError "invoice not paid yet."),
     set_mutex false (log_request (ReqCheckMintQuote "q1") fundedState)).
Proof.
  apply (mint_unpaid_quote_changes_nothing _ 100 "q1" "00ad268c4d1f5826" fundedState
           (mkMintQuoteResponse "q1" "lnbc1u1example" MINT_UNPAID)).
  - reflexivity.
  - reflexivity.
  - discriminate.
Defined.

(** X13. When the quote is PAID but [wallet.mintProofs] returns no proof,
    [mint] does not fail with "could not mint": that value is thrown as a
    bare string, the [catch] block reads [error.message.includes] of it,
    and the call ends in a [TypeError]. The counter entry of the keyset
    exists afterwards with the value [keysetCounter] read; no proof is
    stored and no invoice is marked paid. *)
Theorem mint_without_proofs_ends_in_type_error
  (env : Env) (amount : Z) (hash kid : string) (st : WalletState)
  (mintQuote : MintQuoteResponse) :
  getKeyset st = (Returned kid, st) ->
  apiCheckMintQuote env hash = Returned mintQuote ->
  mintq_state mintQuote = MINT_PAID ->
  walletMintProofs env amount hash kid
    (fst (keysetCounterOn kid (keysetCounters st))) (activeProofs st) = Returned [] ->
  exists st',
    mint env amount hash st
    = (Threw (JsError "Cannot read properties of undefined (reading 'includes')"), st')
    /\ counterOf kid (keysetCounters st')
       = Some (fst (keysetCounterOn kid (keysetCounters st)))
    /\ proofs st' = proofs st
    /\ invoiceHistory st' = invoiceHistory st
    /\ historyTokens st' = historyTokens st.
Proof.
  intros Hk Hcheck Hstate Hmint. unfold mint. unfold bind at 1. rewrite Hk.
  unfold mintCatch, handleOutputsHaveAlreadyBeenSignedError.
  cbv beta iota delta [bind ret throw get modify tryCatch tryFinally
                        liftOutcome call lockMutex increaseKeysetCounter keysetCounter].
  rewrite Hcheck, Hstate.
  cbn [keysetCounters set_mutex log_request].
  pose proof (counterOf_keysetCounterOn kid (keysetCounters st)) as Hc.
  assert (Hfst : fst (keysetCounterOn kid (keysetCounters st))
                 = match counterOf kid (keysetCounters st) with
                   | Some c => c
                   | None => 1
                   end).
  { destruct (counterOf kid (keysetCounters st)) as [c|] eqn:E.
    - now rewrite (keysetCounterOn_present kid c _ E).
    - now destruct (keysetCounterOn_absent kid _ E) as [-> _]. }
  destruct (keysetCounterOn kid (keysetCounters st)) as [c cs].
  cbn [fst snd] in *.
  change (activeProofs
            (set_keysetCounters (fun _ => cs)
               (log_request (ReqCheckMintQuote hash) (set_mutex true st))))
    with (activeProofs st).
  rewrite Hmint. cbn.
  eexists. split; [reflexivity|]. cbn.
  split; [|repeat split].
  rewrite (counterOf_increase_present kid 0 c cs); [f_equal; lia|].
  now rewrite Hc, Hfst.
Qed.

Lemma mint_without_proofs_witness :
  exists st',
    mint (scriptedEnv
            (mkScript networkDown (Returned []) networkDown networkDown networkDown
               networkDown (Returned (mkMintQuoteResponse "q1" "lnbc1u1example" MINT_PAID))
               networkDown))
      100 "q1" fundedState
    = (Threw (JsError "Cannot read properties of undefined (reading 'includes')"), st')
    /\ counterOf "00ad268c4d1f5826" (keysetCounters st')
       = Some (fst (keysetCounterOn "00ad268c4d1f5826" (keysetCounters fundedState)))
    /\ proofs st' = proofs fundedState
    /\ invoiceHistory st' = invoiceHistory fundedState
    /\ historyTokens st' = historyTokens fundedState.
Proof.
  apply (mint_without_proofs_ends_in_type_error _ 100 "q1" "00ad268c4d1f5826"
           fundedState (mkMintQuoteResponse "q1" "lnbc1u1example" MINT_PAID));
    reflexivity.
Defined.

(** X14. A [mint] that succeeds stores exactly the minted proofs behind
    the ones held, bumps the counter of the keyset by their number, marks
    the first invoice of the quote paid, and records one paid token of the
    amount. It sent two requests: the quote check and the mint. *)
Theorem mint_success_effects
  (env : Env) (amount : Z) (hash kid : string) (st : WalletState)
  (mintQuote : MintQuoteResponse) (minted : list WalletProof) (serialized : string) :
  getKeyset st = (Returned kid, st) ->
  apiCheckMintQuote env hash = Returned mintQuote ->
  mintq_state mintQuote = MINT_PAID ->
  walletMintProofs env amount hash kid
    (fst (keysetCounterOn kid (keysetCounters st))) (activeProofs st) = Returned minted ->
  minted <> [] ->
  serializeProofs env minted = Some serialized ->
  exists st',
    mint env amount hash st = (Returned minted, st')
    /\ proofs st' = proofs st ++ minted
    /\ counterOf kid (keysetCounters st')
       = Some (fst (keysetCounterOn kid (keysetCounters st))
               + Z.of_nat (List.length minted))
    /\ invoiceHistory st'
       = updateFirstInvoice hash (withStatus paid) (invoiceHistory st)
    /\ historyTokens st'
       = historyTokens st
         ++ [mkHistoryToken paid amount (Some serialized) (activeMintUrl st)
               (activeUnit st)]
    /\ requests st' = requests st ++ [ReqCheckMintQuote hash; ReqMint hash].
Proof.
  intros Hk Hcheck Hstate Hmint Hne Hser. unfold mint. unfold bind at 1. rewrite Hk.
  unfold mintCatch, handleOutputsHaveAlreadyBeenSignedError.
  cbv beta iota delta [bind ret throw get modify tryCatch tryFinally
                        liftOutcome call lockMutex increaseKeysetCounter keysetCounter
                        addProofs setInvoicePaid addPaidToken].
  rewrite Hcheck, Hstate.
  cbn [keysetCounters set_mutex log_request].
  pose proof (counterOf_keysetCounterOn kid (keysetCounters st)) as Hc.
  assert (Hfst : fst (keysetCounterOn kid (keysetCounters st))
                 = match counterOf kid (keysetCounters st) with
                   | Some c => c
                   | None => 1
                   end).
  { destruct (counterOf kid (keysetCounters st)) as [c|] eqn:E.
    - now rewrite (keysetCounterOn_present kid c _ E).
    - now destruct (keysetCounterOn_absent kid _ E) as [-> _]. }
  destruct (keysetCounterOn kid (keysetCounters st)) as [c cs].
  cbn [fst snd] in *.
  change (activeProofs
            (set_keysetCounters (fun _ => cs)
               (log_request (ReqCheckMintQuote hash) (set_mutex true st))))
    with (activeProofs st).
  rewrite Hmint. destruct minted as [|p minted']; [congruence|].
  rewrite Hser. cbn.
  eexists. split; [reflexivity|]. cbn.
  split; [reflexivity|]. split; [|split; [reflexivity|split;[reflexivity|]]].
  - rewrite (counterOf_increase_present kid _ c cs); [reflexivity|].
    now rewrite Hc, Hfst.
  - now rewrite <- app_assoc.
Qed.

Lemma mint_success_witness :
  exists st',
    mint (scriptedEnv
            (mkScript networkDown
               (Returned [proofOf 4 "m1"; proofOf 32 "m2"; proofOf 64 "m3"])
               networkDown networkDown networkDown networkDown
               (Returned (mkMintQuoteResponse "q1" "lnbc1u1example" MINT_PAID))
               networkDown))
      100 "q1" fundedState
    = (Returned [proofOf 4 "m1"; proofOf 32 "m2"; proofOf 64 "m3"], st')
    /\ proofs st'
       = proofs fundedState ++ [proofOf 4 "m1"; proofOf 32 "m2"; proofOf 64 "m3"]
    /\ counterOf "00ad268c4d1f5826" (keysetCounters st') = Some (5 + 3).
Proof.
  destruct (mint_success_effects
              (scriptedEnv
                 (mkScript networkDown
                    (Returned [proofOf 4 "m1"; proofOf 32 "m2"; proofOf 64 "m3"])
                    networkDown networkDown networkDown networkDown
                    (Returned (mkMintQuoteResponse "q1" "lnbc1u1example" MINT_PAID))
                    networkDown))
              100 "q1" "00ad268c4d1f5826" fundedState
              (mkMintQuoteResponse "q1" "lnbc1u1example" MINT_PAID)
              [proofOf 4 "m1"; proofOf 32 "m2"; proofOf 64 "m3"] "cashuB")
    as [st' [Hrun [Hp [Hc _]]]]; try reflexivity; try discriminate.
  exists st'. split; [exact Hrun|]. split; [exact Hp | exact Hc].
Defined.

(** ** Melt: when nothing is rolled back *)

(** X15. When [wallet.meltProofs] throws and either the app is unloading
    or the re-queried quote is PAID or PENDING, [melt] rethrows the error
    and rolls nothing back: the pending invoice of the quote stays in the
    history (its amount the negated number [amount + fee_reserve]), every
    stored proof with the secret of a send proof stays reserved under the
    quote, and the counter keeps both bumps: the number of send proofs
    and, for a fee reserve above 0, the change outputs counted with the
    logarithm the host answers. The quote is asked for again only when
    the app is not unloading. *)
Theorem melt_keeps_state_when_payment_may_succeed
  (env : Env) (quote : MeltQuoteResponse) (amount : Z) (keysetId : string)
  (sendProofs : list WalletProof) (st : WalletState) (c : Z) (e : Thrown) :
  counterOf keysetId (keysetCounters st) = Some c ->
  walletMeltProofs env quote sendProofs keysetId c = Threw e ->
  (isUnloading st = true
   \/ exists requeried,
        apiCheckMeltQuote env (mq_quote quote) = Returned requeried
        /\ mq_state requeried <> MELT_UNPAID) ->
  exists st',
    meltPay env quote amount keysetId sendProofs st = (Threw e, st')
    /\ counterOf keysetId (keysetCounters st')
       = Some (c + Z.of_nat (List.length sendProofs)
               + (if 0 <? mq_fee_reserve quote
                  then changeOutputs env (mq_fee_reserve quote) else 0))
    /\ (forall p, In p (proofs st') -> proofIn p sendProofs = true ->
                  reservedUnder (mq_quote quote) p = true)
    /\ (exists pendingInvoice,
          invoiceHistory st' = invoiceHistory st ++ [pendingInvoice]
          /\ inv_quote pendingInvoice = mq_quote quote
          /\ inv_status pendingInvoice = pending
          /\ inv_amount pendingInvoice
             = - F64.addZ (mq_amount quote) (mq_fee_reserve quote))
    /\ requests st'
       = requests st ++ ReqMelt (mq_quote quote)
                        :: (if isUnloading st then []
                            else [ReqCheckMeltQuote (mq_quote quote)])
    /\ mutex st' = false.
Proof.
  intros Hc Hmelt Hcase.
  unfold meltPay, meltTry, meltCatch, addOutgoingPendingInvoiceToHistory,
    removeOutgoingInvoiceFromHistory, handleOutputsHaveAlreadyBeenSignedError.
  cbv beta iota delta [bind ret throw get modify tryCatch tryFinally
                        liftOutcome call lockMutex setReserved removeProofs
                        addProofs increaseKeysetCounter keysetCounter].
  cbn [keysetCounters set_mutex set_proofs set_invoiceHistory].
  rewrite (keysetCounterOn_present keysetId c _ Hc), Hmelt.
  assert (Hres : forall p,
            In p (map (fun p => if proofIn p sendProofs
                                then reserveProof true (Some (mq_quote quote)) p
                                else p) (proofs st)) ->
            proofIn p sendProofs = true -> reservedUnder (mq_quote quote) p = true).
  { intros p Hin Hp. apply in_map_iff in Hin. destruct Hin as [p0 [<- _]].
    destruct (proofIn p0 sendProofs) eqn:E.
    - unfold reservedUnder. cbn. now rewrite String.eqb_refl.
    - rewrite E in Hp. discriminate. }
  destruct (0 <? mq_fee_reserve quote);
    cbn - [increaseKeysetCounterOn changeOutputs Z.add Z.opp Str.includes];
    (destruct Hcase as [Hun|[requeried [Hcheck Hstate]]];
     [ rewrite Hun
     | destruct (isUnloading st);
       [|rewrite Hcheck; destruct (mq_state requeried); [congruence| |]] ]);
    cbn - [increaseKeysetCounterOn changeOutputs Z.add Z.opp Str.includes];
    (eexists; split; [reflexivity|]);
    cbn - [increaseKeysetCounterOn changeOutputs Z.add Z.opp Str.includes];
    (split; [rewrite ?counterOf_increase_eq, Hc; f_equal; lia|]);
    (split; [exact Hres|]);
    (split; [eexists; repeat split|]);
    (split; [rewrite <- ?app_assoc; reflexivity | reflexivity]).
Qed.

Lemma melt_keeps_state_witness :
  exists st',
    meltPay (scriptedEnv unpaidScript) quoteOf6Fee2 8 "00ad268c4d1f5826"
      [proofOf 8 "s1"]
      (mkWalletState (keysetCounters payingStateWithFee) [] (payInvoiceData payingStateWithFee)
         true (proofs payingStateWithFee) [] [satKeyset] "sat" "https://mint.example"
         false [])
    = (Threw (JsError "Lightning payment failed"), st')
    /\ counterOf "00ad268c4d1f5826" (keysetCounters st') = Some (5 + 1 + 1)
    /\ (forall p, In p (proofs st') -> proofIn p [proofOf 8 "s1"] = true ->
                  reservedUnder "q1" p = true)
    /\ requests st' = [ReqMelt "q1"].
Proof.
  destruct (melt_keeps_state_when_payment_may_succeed (scriptedEnv unpaidScript)
              quoteOf6Fee2 8 "00ad268c4d1f5826" [proofOf 8 "s1"]
              (mkWalletState (keysetCounters payingStateWithFee) []
                 (payInvoiceData payingStateWithFee) true (proofs payingStateWithFee)
                 [] [satKeyset] "sat" "https://mint.example" false [])
              5 (JsError "Lightning payment failed"))
    as [st' [Hrun [Hc [Hres [_ [Hreq _]]]]]].
  - reflexivity.
  - reflexivity.
  - left. reflexivity.
  - exists st'. split; [exact Hrun|]. split; [exact Hc|]. split; [exact Hres | exact Hreq].
Defined.

(** ** Melt: a payment that goes through *)

(** X16. When [wallet.meltProofs] returns a PAID quote, the payment part
    of [melt] returns it with: the send proofs gone from the store and the
    change proofs added behind the rest; the counter up by the number of
    send proofs and, for a fee reserve above 0, of the change outputs
    counted with the logarithm the host answers; one paid token of
    [-(amount - change)], the difference as the number the engine
    computes, recorded; the session's invoice cleared and its dialog
    closed. The amount paid replaces the amount of the quote's invoices
    only when it is not 0. *)
Theorem melt_success_effects
  (env : Env) (quote : MeltQuoteResponse) (amount : Z) (keysetId : string)
  (sendProofs : list WalletProof) (st : WalletState) (c : Z)
  (data : MeltProofsResponse) :
  counterOf keysetId (keysetCounters st) = Some c ->
  walletMeltProofs env quote sendProofs keysetId c = Returned data ->
  mq_state (mp_quote data) = MELT_PAID ->
  let amount_paid := F64.subZ amount (sumProofs (mp_change data)) in
  exists st',
    meltPay env quote amount keysetId sendProofs st = (Returned data, st')
    /\ (forall p, In p (proofs st') -> proofIn p sendProofs = true ->
                  In p (mp_change data))
    /\ (exists kept, proofs st' = kept ++ mp_change data
                     /\ map proofCore kept
                        = map proofCore
                            (filter (fun p => negb (proofIn p sendProofs)) (proofs st)))
    /\ counterOf keysetId (keysetCounters st')
       = Some (c + Z.of_nat (List.length sendProofs)
               + (if 0 <? mq_fee_reserve quote
                  then changeOutputs env (mq_fee_reserve quote) else 0))
    /\ historyTokens st'
       = historyTokens st
         ++ [mkHistoryToken paid (- amount_paid) (serializeProofs env sendProofs)
               (activeMintUrl st) (activeUnit st)]
    /\ (exists entry,
          invoiceHistory st'
          = map (fun i => if String.eqb (inv_quote i) (mq_quote quote)
                          then if - amount_paid =? 0 then withStatus paid i
                               else withAmount (- amount_paid) (withStatus paid i)
                          else i)
              (invoiceHistory st ++ [entry])
          /\ inv_quote entry = mq_quote quote)
    /\ invoice (payInvoiceData st') = Some (mkCleanInvoice 0 "" "")
    /\ show (payInvoiceData st') = false
    /\ mutex st' = false.
Proof.
  intros Hc Hmelt Hpaid amount_paid. subst amount_paid.
  unfold meltPay, meltTry, meltCatch, addOutgoingPendingInvoiceToHistory,
    updateInvoiceInHistory.
  cbv beta iota delta [bind ret throw get modify tryCatch tryFinally
                        liftOutcome call lockMutex setReserved removeProofs
                        addProofs increaseKeysetCounter keysetCounter addPaidToken].
  cbn [keysetCounters set_mutex set_proofs set_invoiceHistory].
  rewrite (keysetCounterOn_present keysetId c _ Hc), Hmelt.
  set (reserve := fun p : WalletProof =>
                    if proofIn p sendProofs
                    then reserveProof true (Some (mq_quote quote)) p else p).
  assert (Hkept : map proofCore
                    (filter (fun p => negb (proofIn p sendProofs))
                       (map reserve (proofs st)))
                  = map proofCore
                      (filter (fun p => negb (proofIn p sendProofs)) (proofs st))).
  { induction (proofs st) as [|p l IH]; [reflexivity|].
    cbn [map filter]. unfold reserve at 1.
    destruct (proofIn p sendProofs) eqn:E.
    - rewrite proofIn_reserve, E. cbn [negb]. exact IH.
    - cbv iota. rewrite E. cbn [negb map]. unfold reserve at 1. rewrite E.
      now rewrite IH. }
  assert (Hgone : forall p,
            In p (filter (fun p => negb (proofIn p sendProofs))
                    (map reserve (proofs st)) ++ mp_change data) ->
            proofIn p sendProofs = true -> In p (mp_change data)).
  { intros p Hin Hp. apply in_app_or in Hin. destruct Hin as [Hin|Hin]; [|exact Hin].
    apply filter_In in Hin. destruct Hin as [_ Hn]. rewrite Hp in Hn. discriminate. }
  destruct (0 <? mq_fee_reserve quote);
    cbn - [increaseKeysetCounterOn changeOutputs Z.add Z.opp Z.sub Z.eqb];
    rewrite Hpaid;
    cbn - [increaseKeysetCounterOn changeOutputs Z.add Z.opp Z.sub Z.eqb];
    (eexists; split; [reflexivity|]);
    cbn - [increaseKeysetCounterOn changeOutputs Z.add Z.opp Z.sub Z.eqb];
    (split; [exact Hgone|]);
    (split; [eexists; split; [reflexivity | exact Hkept]|]);
    (split; [rewrite ?counterOf_increase_eq, Hc; f_equal; lia|]);
    (split; [reflexivity|]);
    (split; [eexists; split; reflexivity|]);
    repeat split.
Qed.

Lemma melt_success_witness :
  exists st',
    meltPay (scriptedEnv paidScript) quoteOf6Fee2 8 "00ad268c4d1f5826"
      [proofOf 8 "s1"] payingStateWithFee
    = (Returned paidWithChange, st')
    /\ proofs st' = [proofOf 1 "c1"]
    /\ counterOf "00ad268c4d1f5826" (keysetCounters st') = Some (5 + 1 + 1)
    /\ map inv_amount (invoiceHistory st') = [-7]
    /\ map inv_status (invoiceHistory st') = [paid].
Proof.
  destruct (melt_success_effects (scriptedEnv paidScript) quoteOf6Fee2 8
              "00ad268c4d1f5826" [proofOf 8 "s1"] payingStateWithFee 5
              paidWithChange eq_refl eq_refl eq_refl)
    as [st' [Hrun [_ [_ [Hc _]]]]].
  exists st'. split; [exact Hrun|].
  assert (Hst : st' = snd (meltPay (scriptedEnv paidScript) quoteOf6Fee2 8
                             "00ad268c4d1f5826" [proofOf 8 "s1"] payingStateWithFee))
    by now rewrite Hrun.
  split; [rewrite Hst; reflexivity|]. split; [exact Hc|].
  split; rewrite Hst; reflexivity.
Defined.



(** ** The proof reconciler on a non-empty list *)

(** What a run of [checkProofsSpendable] on a non-empty list does once the
    mint has answered. *)
Lemma checkProofsSpendable_answered
  (env : Env) (proofs_ : list WalletProof) (update_history : bool)
  (st : WalletState) (proofStates : list ProofState) :
  proofs_ <> [] ->
  walletCheckProofsStates env proofs_ = Returned proofStates ->
  let spentProofs :=
    filter (fun p => existsb (fun s => isSpent s
                                && String.eqb (ps_Y s) (hashToCurveHex env (p_secret p)))
                       proofStates) proofs_ in
  exists r st',
    checkProofsSpendable env proofs_ update_history st = (r, st')
    /\ requests st' = requests st ++ [ReqCheckState]
    /\ (forall p, In p (proofs st') <-> In p (proofs st) /\ proofIn p spentProofs = false)
    /\ match spentProofs, serializeProofs env spentProofs with
       | [], _ =>
           r = Returned (Some []) /\ historyTokens st' = historyTokens st
       | _ :: _, None =>
           r = Threw (JsError "could not serialize proofs.")
           /\ historyTokens st' = historyTokens st
       | _ :: _, Some serialized =>
           r = Returned (Some spentProofs)
           /\ historyTokens st'
              = historyTokens st
                ++ (if update_history
                    then [mkHistoryToken paid (- sumProofs spentProofs) (Some serialized)
                            (activeMintUrl st) (activeUnit st)]
                    else [])
       end.
Proof.
  intros Hne Hcheck spentProofs.
  assert (Hspent : filter (fun p =>
                     existsb (fun s => String.eqb (ps_Y s)
                                         (hashToCurveHex env (p_secret p)))
                             (filter isSpent proofStates)) proofs_ = spentProofs).
  { apply filter_ext. intros p. clear.
    induction proofStates as [|s l IH]; [reflexivity|].
    cbn [filter existsb]. destruct (isSpent s); cbn [existsb andb orb]; now rewrite IH. }
  unfold checkProofsSpendable.
  destruct proofs_ as [|p0 ps]; [contradiction|].
  set (proofs_ := p0 :: ps) in *.
  cbv beta iota delta [bind ret throw get modify tryCatch liftOutcome call
                        removeProofs addPaidToken].
  rewrite Hcheck. cbv zeta. rewrite Hspent.
  assert (Hkeep : forall p, In p (proofs st) <-> In p (proofs st) /\ proofIn p [] = false).
  { intros p. cbn. tauto. }
  assert (Hrem : forall p,
            In p (filter (fun q => negb (proofIn q spentProofs)) (proofs st))
            <-> In p (proofs st) /\ proofIn p spentProofs = false).
  { intros p. rewrite filter_In, negb_true_iff. tauto. }
  destruct spentProofs as [|s0 ss] eqn:Es.
  - cbn. eexists _, _. split; [reflexivity|]. cbn.
    split; [reflexivity|]. split; [exact Hkeep|]. split; reflexivity.
  - destruct (serializeProofs env (s0 :: ss)) as [serialized|] eqn:Eser.
    + destruct update_history; cbn - [sumProofs proofIn];
        (eexists _, _; split; [reflexivity|]); cbn - [sumProofs proofIn];
        (split; [reflexivity|]); (split; [exact Hrem|]); split;
        rewrite ?app_nil_r; reflexivity.
    + cbn - [sumProofs proofIn].
      eexists _, _. split; [reflexivity|]. cbn - [sumProofs proofIn].
      split; [reflexivity|]. split; [exact Hrem|]. split; reflexivity.
Qed.

(** X18. On a non-empty list and an answer of the mint,
    [checkProofsSpendable] asks the mint once; the proofs it calls spent
    are those of the list whose curve point a SPENT state names; it removes
    exactly the stored proofs with one of their secrets, also when the
    serialization then fails and the call throws; the history gets one
    entry of minus their sum only when [update_history] is set, some proof
    is spent and the serialization succeeded. *)
Theorem checkProofsSpendable_removes_spent
  (env : Env) (proofs_ : list WalletProof) (update_history : bool)
  (st : WalletState) (proofStates : list ProofState) :
  proofs_ <> [] ->
  walletCheckProofsStates env proofs_ = Returned proofStates ->
  let spentProofs :=
    filter (fun p => existsb (fun s => isSpent s
                                && String.eqb (ps_Y s) (hashToCurveHex env (p_secret p)))
                       proofStates) proofs_ in
  exists r st',
    checkProofsSpendable env proofs_ update_history st = (r, st')
    /\ requests st' = requests st ++ [ReqCheckState]
    /\ (forall p, In p (proofs st') <-> In p (proofs st) /\ proofIn p spentProofs = false)
    /\ match spentProofs, serializeProofs env spentProofs with
       | [], _ =>
           r = Returned (Some []) /\ historyTokens st' = historyTokens st
       | _ :: _, None =>
           r = Threw (JsError "could not serialize proofs.")
           /\ historyTokens st' = historyTokens st
       | _ :: _, Some serialized =>
           r = Returned (Some spentProofs)
           /\ historyTokens st'
              = historyTokens st
                ++ (if update_history
                    then [mkHistoryToken paid (- sumProofs spentProofs) (Some serialized)
                            (activeMintUrl st) (activeUnit st)]
                    else [])
       end.
Proof.
  intros Hne Hcheck.
  exact (checkProofsSpendable_answered env proofs_ update_history st proofStates
           Hne Hcheck).
Qed.

Lemma checkProofsSpendable_removes_spent_witness :
  exists st',
    checkProofsSpendable (scriptedEnv spentScript) [proofOf 8 "s1"; proofOf 4 "s2"]
      true fundedState
    = (Returned (Some [proofOf 8 "s1"]), st')
    /\ requests st' = [ReqCheckState]
    /\ (In (proofOf 4 "s2") (proofs st') /\ ~ In (proofOf 8 "s1") (proofs st'))
    /\ map ht_amount (historyTokens st') = [-8].
Proof.
  destruct (checkProofsSpendable_removes_spent (scriptedEnv spentScript)
              [proofOf 8 "s1"; proofOf 4 "s2"] true fundedState
              [mkProofState "s2" UNSPENT; mkProofState "s1" SPENT]
              ltac:(discriminate) eq_refl)
    as [r [st' [Hrun [Hreq [Hstore Hres]]]]].
  cbn in Hres. destruct Hres as [-> Hhist].
  exists st'. split; [exact Hrun|]. split; [exact Hreq|].
  split.
  - split.
    + apply Hstore. split; [right; left; reflexivity | reflexivity].
    + intros Hin. apply Hstore in Hin. destruct Hin as [_ Hin]. discriminate Hin.
  - rewrite Hhist. reflexivity.
Defined.

(** ** Melt quotes *)

Lemma logged_app (rs rs' : list Request) (st : WalletState) :
  logged (rs ++ rs') st = logged rs' (logged rs st).
Proof. unfold logged. apply fold_left_app. Qed.

Lemma logged_requests (rs : list Request) (st : WalletState) :
  requests (logged rs st) = requests st ++ rs.
Proof.
  revert st. induction rs as [|r rs IH]; intros st; cbn.
  - now rewrite app_nil_r.
  - change (requests (logged rs (log_request r st)) = requests st ++ r :: rs).
    rewrite IH. cbn. now rewrite <- app_assoc.
Qed.

Lemma logged_frame (rs : list Request) (st : WalletState) :
  keysetCounters (logged rs st) = keysetCounters st
  /\ invoiceHistory (logged rs st) = invoiceHistory st
  /\ payInvoiceData (logged rs st) = payInvoiceData st
  /\ proofs (logged rs st) = proofs st
  /\ historyTokens (logged rs st) = historyTokens st
  /\ activeUnit (logged rs st) = activeUnit st
  /\ activeMintUrl (logged rs st) = activeMintUrl st.
Proof.
  revert st. induction rs as [|r rs IH]; intros st; [cbn; tauto|].
  change (logged (r :: rs) st) with (logged rs (log_request r st)).
  destruct (IH (log_request r st)) as (H1 & H2 & H3 & H4 & H5 & H6 & H7).
  rewrite H1, H2, H3, H4, H5, H6, H7. cbn. tauto.
Qed.

(** The quote loop asks the mints in the order of the payloads and stops
    at the first one that fails or answers with an error: it has then sent
    [n] requests, the last one being the failing one. *)
Lemma requestQuotes_run (env : Env) (payloads : list (Mint * MeltQuotePayload)) :
  forall (responses : list MeltQuoteResponse) (st : WalletState),
  exists n : nat,
    (n <= List.length payloads)%nat
    /\ snd (requestQuotes env payloads responses st)
       = logged (map requestOf (firstn n payloads)) st
    /\ match fst (requestQuotes env payloads responses st) with
       | Returned rs =>
           n = List.length payloads
           /\ exists news, rs = responses ++ news
                           /\ List.length news = List.length payloads
                           /\ Forall (fun d => mq_error d = None) news
       | Threw _ => (1 <= n)%nat
       end.
Proof.
  induction payloads as [|payload rest IH]; intros responses st.
  - exists 0%nat. cbn. split; [lia|]. split; [reflexivity|]. split; [reflexivity|].
    exists []. rewrite app_nil_r. repeat split. constructor.
  - cbn [requestQuotes].
    cbv beta iota delta [bind call liftOutcome modify assertMintError throw ret].
    destruct (apiCreateMeltQuote env (mint_url (fst payload)) (snd payload))
      as [data|e] eqn:Ecall.
    + destruct (mq_error data) as [msg|] eqn:Eerr.
      * exists 1%nat. cbn. split; [lia|]. split; [reflexivity|]. lia.
      * destruct (IH (responses ++ [data])
                    (log_request (requestOf payload) st))
          as [n [Hn [Hst Hres]]].
        exists (S n). cbn [List.length firstn map]. split; [lia|].
        split; [exact Hst|].
        unfold requestOf at 1 in Hres. unfold requestOf at 1 in Hst.
        destruct (fst (requestQuotes env rest (responses ++ [data])
                         (log_request
                            (ReqCreateMeltQuote (mint_url (fst payload))
                               (mqp_request (snd payload))) st))) as [rs|e].
        -- destruct Hres as [-> [news [-> [Hlen Hall]]]]. split; [reflexivity|].
           exists (data :: news). rewrite <- app_assoc. cbn.
           split; [reflexivity|]. split; [now rewrite Hlen|].
           constructor; assumption.
        -- lia.
    + exists 1%nat. cbn. split; [lia|]. split; [reflexivity|]. lia.
Qed.

(** X19. [meltQuote] never touches the proofs, the counters or the
    histories and sends at most one request, none without an invoice. When
    it throws, the response stored by an earlier call stays in the session:
    a quote that failed leaves the previous quote behind. When it returns,
    the answer has no error envelope, is the stored response, and was asked
    with the stored payload: the active unit and the session's request. *)
Theorem meltQuote_keeps_previous_quote_on_failure (env : Env) (st : WalletState) :
  let r := fst (meltQuote env st) in
  let st' := snd (meltQuote env st) in
  proofs st' = proofs st
  /\ keysetCounters st' = keysetCounters st
  /\ invoiceHistory st' = invoiceHistory st
  /\ historyTokens st' = historyTokens st
  /\ input (payInvoiceData st') = input (payInvoiceData st)
  /\ (in_request (input (payInvoiceData st)) = ""%string \/
      blocking (payInvoiceData st) = true -> requests st' = requests st)
  /\ match r with
     | Threw _ =>
         mqs_response (meltQuoteSlot (payInvoiceData st'))
         = mqs_response (meltQuoteSlot (payInvoiceData st))
         /\ (requests st' = requests st \/
             requests st'
             = requests st ++ [ReqCreateMeltQuote (activeMintUrl st)
                                 (in_request (input (payInvoiceData st)))])
     | Returned data =>
         mqs_response (meltQuoteSlot (payInvoiceData st')) = data
         /\ mq_error data = None
         /\ mqs_payload (meltQuoteSlot (payInvoiceData st'))
            = mkMeltQuotePayload (activeUnit st)
                (in_request (input (payInvoiceData st))) None
         /\ requests st'
            = requests st ++ [ReqCreateMeltQuote (activeMintUrl st)
                                (in_request (input (payInvoiceData st)))]
     end.
Proof.
  cbv zeta. unfold meltQuote.
  cbv beta iota delta [bind ret throw get modify tryCatch liftOutcome call
                        assertMintError].
  destruct (blocking (payInvoiceData st)) eqn:Eb.
  - cbn. repeat split; auto.
  - cbn [payInvoiceData set_payInvoiceData set_blocking set_meltQuoteSlot input
         activeUnit activeMintUrl].
    destruct (String.eqb_spec (in_request (input (payInvoiceData st))) "") as [Ee|Ene].
    + cbn. repeat split; auto.
    + destruct (apiCreateMeltQuote env (activeMintUrl st)
                  (mkMeltQuotePayload (activeUnit st)
                     (in_request (input (payInvoiceData st))) None))
        as [data|e]; [destruct (mq_error data) eqn:Eerr|]; cbn;
        repeat split; auto; intros [H|H]; congruence.
Qed.

(** X20. [multiPathMeltQuotes] never touches the proofs, the counters or
    the histories. The requests it sends are for the stored payloads, in
    their order, up to the first that fails. When it returns, every stored
    payload was asked once and the responses, one per payload and none with
    an error envelope, are stored; when it throws, the responses stored by
    an earlier call stay in the session. *)
Theorem multiPathMeltQuotes_requests_follow_payloads
  {N : Type} {num : JsNum N} (env : Env)
  (multiMintBalance : string -> string -> Z * list N) (st : WalletState) :
  let r := fst (multiPathMeltQuotes env multiMintBalance st) in
  let st' := snd (multiPathMeltQuotes env multiMintBalance st) in
  let stored := mps_payloads (multiPartMeltQuotes (payInvoiceData st')) in
  proofs st' = proofs st
  /\ keysetCounters st' = keysetCounters st
  /\ invoiceHistory st' = invoiceHistory st
  /\ historyTokens st' = historyTokens st
  /\ exists n : nat,
       (n <= List.length stored)%nat
       /\ requests st' = requests st ++ map requestOf (firstn n stored)
       /\ match r with
          | Returned rs =>
              n = List.length stored
              /\ mps_responses (multiPartMeltQuotes (payInvoiceData st')) = rs
              /\ List.length rs = List.length stored
              /\ Forall (fun d => mq_error d = None) rs
          | Threw _ =>
              mps_responses (multiPartMeltQuotes (payInvoiceData st'))
              = mps_responses (multiPartMeltQuotes (payInvoiceData st))
          end.
Proof.
  cbv zeta. unfold multiPathMeltQuotes.
  cbv beta iota delta [bind ret throw get modify tryCatch].
  assert (Hnone : forall s : WalletState,
            proofs s = proofs st -> keysetCounters s = keysetCounters st ->
            invoiceHistory s = invoiceHistory st -> historyTokens s = historyTokens st ->
            requests s = requests st ->
            mps_responses (multiPartMeltQuotes (payInvoiceData s))
            = mps_responses (multiPartMeltQuotes (payInvoiceData st)) ->
            proofs s = proofs st
            /\ keysetCounters s = keysetCounters st
            /\ invoiceHistory s = invoiceHistory st
            /\ historyTokens s = historyTokens st
            /\ exists n : nat,
                 (n <= List.length (mps_payloads (multiPartMeltQuotes (payInvoiceData s))))%nat
                 /\ requests s
                    = requests st
                      ++ map requestOf
                           (firstn n (mps_payloads (multiPartMeltQuotes (payInvoiceData s))))
                 /\ mps_responses (multiPartMeltQuotes (payInvoiceData s))
                    = mps_responses (multiPartMeltQuotes (payInvoiceData st))).
  { intros s H1 H2 H3 H4 H5 H6. repeat (split; [assumption|]).
    exists 0%nat. cbn. rewrite app_nil_r. split; [lia|]. split; assumption. }
  destruct (blocking (payInvoiceData st)) eqn:Eb.
  - cbn [fst snd]. apply Hnone; reflexivity.
  - cbn [payInvoiceData set_payInvoiceData set_blocking set_multiPart input
         activeUnit activeMintUrl invoice].
    destruct (String.eqb (in_request (input (payInvoiceData st))) "").
    { cbn [fst snd]. apply Hnone; reflexivity. }
    destruct (getMultiMints env "bolt11" (activeUnit st)) as [|m ms] eqn:Emints.
    { cbn [fst snd]. apply Hnone; reflexivity. }
    destruct (multiMintBalance "bolt11"%string (activeUnit st))
      as [overallBalance weights].
    destruct (match invoice (payInvoiceData st) with
              | Some i => ci_sat i | None => 0 end =? 0).
    { cbn [fst snd]. apply Hnone; reflexivity. }
    destruct (overallBalance <? _).
    { cbn [fst snd]. apply Hnone; reflexivity. }
    set (payloads := mppPayloads _ _ _ _ _).
    set (st1 := set_payInvoiceData _ (set_payInvoiceData _ (set_payInvoiceData _ st))).
    destruct (requestQuotes_run env payloads [] st1) as [n [Hn [Hst Hres]]].
    destruct (requestQuotes env payloads [] st1) as [[rs|e] st2] eqn:Erun;
      cbn [fst snd] in *; subst st2;
      destruct (logged_frame (map requestOf (firstn n payloads)) st1)
        as (H1 & H2 & H3 & H4 & H5 & H6 & H7);
      cbn [fst snd payInvoiceData set_payInvoiceData set_blocking set_multiPart
           proofs keysetCounters invoiceHistory historyTokens requests
           multiPartMeltQuotes mps_payloads mps_responses set_mp_responses
           set_mp_error];
      rewrite ?H1, ?H2, ?H3, ?H4, ?H5, ?logged_requests.
    + destruct Hres as [-> [news [-> [Hlen Hall]]]].
      repeat (split; [reflexivity|]).
      exists (List.length payloads). split; [reflexivity|].
      split; [reflexivity|]. split; [reflexivity|]. split; [reflexivity|].
      split; [exact Hlen | exact Hall].
    + repeat (split; [reflexivity|]).
      exists n. split; [exact Hn|]. split; reflexivity.
Qed.

(** X21. [multiPathMeltQuotes] rejects a session it cannot split before
    asking any mint: without an invoice string, without a mint that
    supports multi-part payments, with an invoice amount that is missing
    or 0, or with less than the invoice amount on the multi-part mints, it
    throws, sends no request and leaves the stored payloads and responses
    as they were. *)
Theorem multiPathMeltQuotes_rejects_before_asking
  {N : Type} {num : JsNum N} (env : Env)
  (multiMintBalance : string -> string -> Z * list N) (st : WalletState) :
  blocking (payInvoiceData st) = false ->
  in_request (input (payInvoiceData st)) = ""%string
  \/ getMultiMints env "bolt11" (activeUnit st) = []
  \/ invoiceSat st = 0
  \/ fst (multiMintBalance "bolt11"%string (activeUnit st)) < invoiceSat st ->
  exists message st',
    multiPathMeltQuotes env multiMintBalance st = (Threw (JsError message), st')
    /\ In message ["no invoice provided."%string;
                   "no mint supports multi-part payments"%string;
                   "invoice does not have an amount"%string;
                   "insufficient multi-mint balance"%string]
    /\ requests st' = requests st
    /\ mps_payloads (multiPartMeltQuotes (payInvoiceData st'))
       = mps_payloads (multiPartMeltQuotes (payInvoiceData st))
    /\ mps_responses (multiPartMeltQuotes (payInvoiceData st'))
       = mps_responses (multiPartMeltQuotes (payInvoiceData st)).
Proof.
  intros Hb Hreject. unfold multiPathMeltQuotes, invoiceSat in *.
  cbv beta iota delta [bind ret throw get modify tryCatch].
  rewrite Hb.
  cbn [payInvoiceData set_payInvoiceData set_blocking set_multiPart input
       activeUnit activeMintUrl invoice].
  destruct (String.eqb_spec (in_request (input (payInvoiceData st))) "") as [Ee|Ene].
  { eexists _, _. split; [reflexivity|]. cbn. tauto. }
  destruct (getMultiMints env "bolt11" (activeUnit st)) as [|m ms] eqn:Emints.
  { eexists _, _. split; [reflexivity|]. cbn. tauto. }
  destruct (multiMintBalance "bolt11"%string (activeUnit st))
    as [overallBalance weights].
  cbn [fst] in Hreject.
  destruct (Z.eqb_spec (match invoice (payInvoiceData st) with
                        | Some i => ci_sat i | None => 0 end) 0) as [Ez|Enz].
  { eexists _, _. split; [reflexivity|]. cbn. tauto. }
  destruct (Z.ltb_spec overallBalance
              (match invoice (payInvoiceData st) with
               | Some i => ci_sat i | None => 0 end)) as [Hlt|Hge].
  { eexists _, _. split; [reflexivity|]. cbn. tauto. }
  exfalso. destruct Hreject as [H|[H|[H|H]]]; try contradiction; try discriminate; lia.
Qed.

Lemma multiPathMeltQuotes_rejects_witness :
  exists message st',
    multiPathMeltQuotes (scriptedEnv offline)
      (fun _ _ => (7, [0.5%float; 0.5%float])) payingState
    = (Threw (JsError message), st')
    /\ In message ["no invoice provided."%string;
                   "no mint supports multi-part payments"%string;
                   "invoice does not have an amount"%string;
                   "insufficient multi-mint balance"%string]
    /\ requests st' = requests payingState
    /\ mps_payloads (multiPartMeltQuotes (payInvoiceData st'))
       = mps_payloads (multiPartMeltQuotes (payInvoiceData payingState))
    /\ mps_responses (multiPartMeltQuotes (payInvoiceData st'))
       = mps_responses (multiPartMeltQuotes (payInvoiceData payingState)).
Proof.
  apply (multiPathMeltQuotes_rejects_before_asking (scriptedEnv offline)
           (fun _ _ => (7, [0.5%float; 0.5%float])) payingState eq_refl).
  right. right. right. cbn. lia.
Defined.

(** ** LNURL pay *)

(** X22. [lnurlPayFirst] never touches the proofs, the counters or the
    histories and sends at most one GET. The session changes only when a
    GET was answered with [tag == "payRequest"]. An address that has not
    exactly one [@] and does not start with [lnurl1] (in any case) sends
    nothing and changes nothing. *)
Theorem lnurlPayFirst_changes_session_only_for_payRequest
  (env : Env) (address : string) (st : WalletState) :
  let st' := snd (lnurlPayFirst env address st) in
  proofs st' = proofs st
  /\ keysetCounters st' = keysetCounters st
  /\ invoiceHistory st' = invoiceHistory st
  /\ historyTokens st' = historyTokens st
  /\ (requests st' = requests st \/
      exists host, requests st' = requests st ++ [ReqHttpGet host])
  /\ (payInvoiceData st' <> payInvoiceData st ->
      exists host data,
        requests st' = requests st ++ [ReqHttpGet host]
        /\ axiosGet env host = Returned data
        /\ ln_tag data = "payRequest"%string)
  /\ (List.length (Str.split "@" address) <> 2%nat ->
      Str.take 6 (Str.toLowerCase address) <> "lnurl1"%string ->
      lnurlPayFirst env address st = (Returned tt, st)).
Proof.
  cbv zeta.
  assert (Hstore : forall host data st0,
            proofs st0 = proofs st -> keysetCounters st0 = keysetCounters st ->
            invoiceHistory st0 = invoiceHistory st ->
            historyTokens st0 = historyTokens st ->
            payInvoiceData st0 = payInvoiceData st ->
            axiosGet env host = Returned data ->
            requests st0 = requests st ++ [ReqHttpGet host] ->
            let st' := snd (lnurlPayStore host data st0) in
            proofs st' = proofs st
            /\ keysetCounters st' = keysetCounters st
            /\ invoiceHistory st' = invoiceHistory st
            /\ historyTokens st' = historyTokens st
            /\ (requests st' = requests st \/
                exists host, requests st' = requests st ++ [ReqHttpGet host])
            /\ (payInvoiceData st' <> payInvoiceData st ->
                exists host data,
                  requests st' = requests st ++ [ReqHttpGet host]
                  /\ axiosGet env host = Returned data
                  /\ ln_tag data = "payRequest"%string)).
  { intros host data st0 H1 H2 H3 H4 H5 Hget Hreq. cbv zeta. unfold lnurlPayStore.
    destruct (String.eqb_spec (ln_tag data) "payRequest") as [Htag|Htag].
    - cbv beta iota delta [bind ret throw get modify liftOutcome].
      destruct (lnurlDomain host) as [d|e]; cbn [snd];
        [destruct (_ =? _)|]; cbn;
        (repeat (split; [assumption|]));
        (split; [right; exists host; assumption|]);
        intros _; exists host, data; repeat split; assumption.
    - cbn. repeat (split; [assumption|]).
      split; [right; exists host; assumption|]. intros Hd. contradiction. }
  unfold lnurlPayFirst.
  destruct (Str.split "@" address) as [|user [|lnaddresshost [|x xs]]] eqn:Esplit.
  1,2,4:
    (destruct (String.eqb_spec (Str.take 6 (Str.toLowerCase address)) "lnurl1")
      as [Hl|Hl];
     [ cbv beta iota delta [bind liftOutcome call];
       destruct (bech32Url env address) as [host|e];
       [ destruct (axiosGet env host) as [data|e] eqn:Hget;
         [ destruct (Hstore host data (log_request (ReqHttpGet host) st)
                       eq_refl eq_refl eq_refl eq_refl eq_refl Hget eq_refl)
             as (H1 & H2 & H3 & H4 & H5 & H6);
           repeat (split; [assumption|]); intros _ Hn; contradiction
         | cbn; repeat (split; [reflexivity|]);
           split; [right; eexists; reflexivity|];
           split; [intros Hd; contradiction | intros _ Hn; contradiction] ]
       | cbn; repeat (split; [reflexivity|]);
         split; [left; reflexivity|];
         split; [intros Hd; contradiction | intros _ Hn; contradiction] ]
     | cbn; repeat (split; [reflexivity|]);
       split; [left; reflexivity|];
       split; [intros Hd; contradiction | reflexivity] ]).
  cbv beta iota delta [bind liftOutcome call].
  set (host := ("https://" ++ lnaddresshost ++ "/.well-known/lnurlp/" ++ user)%string).
  destruct (axiosGet env host) as [data|e] eqn:Hget.
  - destruct (Hstore host data (log_request (ReqHttpGet host) st)
                eq_refl eq_refl eq_refl eq_refl eq_refl Hget eq_refl)
      as (H1 & H2 & H3 & H4 & H5 & H6).
    repeat (split; [assumption|]). intros Hn. cbn in Hn. contradiction.
  - cbn. repeat (split; [reflexivity|]).
    split; [right; eexists; reflexivity|].
    split; [intros Hd; contradiction | intros Hn; contradiction].
Qed.

(** X23. An LNURL that decodes to a URL without ["https://"] (plain http,
    an onion address) and is answered with a pay request makes
    [lnurlPayFirst] throw a [TypeError] at [host.split("https://")[1]]
    after the answer was stored: [lnurlpay] is replaced by the answer,
    while the dialog is not shown and the invoice and the input are not
    reset. *)
Theorem lnurlPayFirst_non_https_throws_after_storing
  (env : Env) (address host : string) (data : LnurlPay) (st : WalletState) :
  List.length (Str.split "@" address) <> 2%nat ->
  Str.take 6 (Str.toLowerCase address) = "lnurl1"%string ->
  bech32Url env address = Returned host ->
  List.length (Str.split "https://" host) = 1%nat ->
  axiosGet env host = Returned data ->
  ln_tag data = "payRequest"%string ->
  exists st',
    lnurlPayFirst env address st
    = (Threw (JsError "Cannot read properties of undefined (reading 'split')"), st')
    /\ lnurlpay (payInvoiceData st') = data
    /\ show (payInvoiceData st') = show (payInvoiceData st)
    /\ invoice (payInvoiceData st') = invoice (payInvoiceData st)
    /\ input (payInvoiceData st') = input (payInvoiceData st).
Proof.
  intros Hat Hprefix Hdecode Hsplit Hget Htag.
  unfold lnurlPayFirst.
  assert (Hdomain : lnurlDomain host
                    = Threw (JsError "Cannot read properties of undefined (reading 'split')")).
  { unfold lnurlDomain. destruct (Str.split "https://" host) as [|a [|b l]];
      try reflexivity. discriminate Hsplit. }
  destruct (Str.split "@" address) as [|user [|lnaddresshost [|x xs]]];
    try (exfalso; apply Hat; reflexivity);
    rewrite Hprefix; cbn [String.eqb Ascii.eqb Bool.eqb];
    cbv beta iota delta [bind liftOutcome call]; rewrite Hdecode, Hget;
    unfold lnurlPayStore; rewrite Htag; cbn [String.eqb Ascii.eqb Bool.eqb];
    cbv beta iota delta [bind liftOutcome modify]; rewrite Hdomain;
    eexists; split; try reflexivity; cbn; repeat split.
Qed.

Lemma lnurlPayFirst_non_https_witness :
  exists st',
    lnurlPayFirst (decodingTo "http://example.onion/lnurlp" (scriptedEnv payRequestScript))
      "LNURL1DP68GUP69UHK" fundedState
    = (Threw (JsError "Cannot read properties of undefined (reading 'split')"), st')
    /\ lnurlpay (payInvoiceData st')
       = mkLnurlPay "" "http://example.onion/cb" 1000 100000 "payRequest"
    /\ show (payInvoiceData st') = show (payInvoiceData fundedState)
    /\ invoice (payInvoiceData st') = invoice (payInvoiceData fundedState)
    /\ input (payInvoiceData st') = input (payInvoiceData fundedState).
Proof.
  apply (lnurlPayFirst_non_https_throws_after_storing
           (decodingTo "http://example.onion/lnurlp" (scriptedEnv payRequestScript))
           "LNURL1DP68GUP69UHK" "http://example.onion/lnurlp"
           (mkLnurlPay "" "http://example.onion/cb" 1000 100000 "payRequest")
           fundedState);
    vm_compute; try reflexivity. discriminate.
Defined.

(** ** Checking invoices *)

Lemma findInvoice_quote (quote : string) (h : list InvoiceHistory) (i : InvoiceHistory) :
  findInvoice quote h = Some i -> inv_quote i = quote /\ In i h.
Proof.
  unfold findInvoice. intros H. apply find_some in H. destruct H as [Hin Heq].
  apply String.eqb_eq in Heq. tauto.
Qed.

Lemma removeFirstInvoice_length (quote : string) (h : list InvoiceHistory) (i : InvoiceHistory) :
  findInvoice quote h = Some i ->
  S (List.length (removeFirstInvoice quote h)) = List.length h.
Proof.
  unfold findInvoice. induction h as [|j h IH]; [discriminate|].
  cbn. destruct (String.eqb (inv_quote j) quote); [reflexivity|].
  intros H. cbn. now rewrite IH.
Qed.

Lemma forall_filter_nil {A : Type} (f : A -> bool) (l : list A) :
  (forall x, In x l -> f x = false) -> filter f l = [].
Proof.
  induction l as [|a l IH]; intros H; [reflexivity|].
  cbn. rewrite (H a (or_introl eq_refl)). apply IH. intros x Hx. apply H. now right.
Qed.

Lemma proofIn_proofsOfQuote (quote : string) (store : list WalletProof) (p : WalletProof) :
  In p store -> p_quote p = Some quote -> proofIn p (proofsOfQuote quote store) = true.
Proof.
  intros Hin Hq. unfold proofIn. apply existsb_exists. exists p. split.
  - unfold proofsOfQuote. apply filter_In. split; [exact Hin|].
    rewrite Hq. apply String.eqb_refl.
  - unfold sameProof. apply String.eqb_refl.
Qed.

(** X24. When the mint says that the quote of an outgoing invoice is
    UNPAID, [checkOutgoingInvoice] asks once and returns; no proof is added
    or removed; every stored proof that was bound to the quote is left
    unreserved and without quote, so that no stored proof is bound to the
    quote any more; the first history entry of the quote is gone and the
    history is one entry shorter. *)
Theorem checkOutgoingInvoice_unpaid_releases_proofs
  (env : Env) (access : MintAccess) (quote : string) (st : WalletState)
  (invoice_ : InvoiceHistory) (mintQuote : MeltQuoteResponse) :
  findInvoice quote (invoiceHistory st) = Some invoice_ ->
  checkMeltQuoteAt access (inv_mint invoice_) quote = Returned mintQuote ->
  mq_state mintQuote = MELT_UNPAID ->
  exists st',
    checkOutgoingInvoice env access quote st = (Returned tt, st')
    /\ requests st' = requests st ++ [ReqCheckMeltQuote quote]
    /\ storedProofs st' = storedProofs st
    /\ (forall p, In p (proofs st) -> p_quote p = Some quote ->
                  In (reserveProof false None p) (proofs st'))
    /\ proofsOfQuote quote (proofs st') = []
    /\ invoiceHistory st' = removeFirstInvoice quote (invoiceHistory st)
    /\ S (List.length (invoiceHistory st')) = List.length (invoiceHistory st)
    /\ keysetCounters st' = keysetCounters st
    /\ historyTokens st' = historyTokens st.
Proof.
  intros Hfind Hcheck Hstate. unfold checkOutgoingInvoice.
  cbv beta iota delta [bind ret throw get modify tryCatch call setReserved
                        removeOutgoingInvoiceFromHistory].
  rewrite Hfind, Hcheck, Hstate. cbn - [proofIn proofsOfQuote].
  eexists. split; [reflexivity|]. cbn - [proofIn proofsOfQuote].
  split; [reflexivity|].
  set (bound := proofsOfQuote quote (proofs st)).
  split; [|split; [|split; [|split; [reflexivity|split; [|split; reflexivity]]]]].
  - unfold storedProofs. cbn [proofs]. rewrite map_map. apply map_ext.
    intros p. destruct (proofIn p bound); reflexivity.
  - intros p Hin Hq. apply in_map_iff. exists p.
    split; [|exact Hin]. unfold bound. now rewrite (proofIn_proofsOfQuote _ _ _ Hin Hq).
  - apply forall_filter_nil. intros p Hin. apply in_map_iff in Hin.
    destruct Hin as [q [<- Hin]].
    destruct (proofIn q bound) eqn:E; [reflexivity|].
    destruct (p_quote q) as [q'|] eqn:Eq; [|reflexivity].
    destruct (String.eqb_spec q' quote) as [->|Hne]; [|reflexivity].
    unfold bound in E. rewrite (proofIn_proofsOfQuote _ _ _ Hin Eq) in E. discriminate.
  - exact (removeFirstInvoice_length _ _ _ Hfind).
Qed.

Lemma checkOutgoingInvoice_unpaid_witness :
  exists st',
    checkOutgoingInvoice (scriptedEnv unpaidScript) (scriptedAccess unpaidScript) "q1"
      pendingPaymentState
    = (Returned tt, st')
    /\ proofs st' = [proofOf 8 "s1"]
    /\ invoiceHistory st' = [].
Proof.
  destruct (checkOutgoingInvoice_unpaid_releases_proofs (scriptedEnv unpaidScript)
              (scriptedAccess unpaidScript) "q1" pendingPaymentState
              (mkInvoice (-8) "lnbc80n1example" "q1" "Outgoing invoice"
                 "2024-01-01 00:00:00" pending "https://mint.example"
                 (Some "sat"%string))
              quoteOf8 eq_refl eq_refl eq_refl)
    as [st' [Hrun [_ [_ [_ [_ [Hhist _]]]]]]].
  exists st'. split; [exact Hrun|].
  assert (Hst : st' = snd (checkOutgoingInvoice (scriptedEnv unpaidScript)
                             (scriptedAccess unpaidScript) "q1" pendingPaymentState))
    by now rewrite Hrun.
  split; [rewrite Hst; reflexivity | rewrite Hhist; reflexivity].
Defined.

Lemma filter_length_all {A : Type} (f : A -> bool) (l : list A) :
  List.length (filter f l) = List.length l -> filter f l = l.
Proof.
  induction l as [|a l IH]; [reflexivity|].
  cbn. destruct (f a); cbn; intros H.
  - f_equal. apply IH. lia.
  - pose proof (filter_length_le f l). lia.
Qed.

(** X25. When the mint says that the quote of an outgoing invoice is PAID
    (the invoice's mint being the active one), [checkOutgoingInvoice] asks
    for the state of the proofs bound to the quote and removes the stored
    proofs with the secret of one reported SPENT, and no other; it records
    them as one paid token of minus their sum; and it marks the first
    history entry of the quote paid, also when no proof is bound to the
    quote or none of them is spent yet. *)
Theorem checkOutgoingInvoice_paid_settles
  (env : Env) (access : MintAccess) (quote : string) (st : WalletState)
  (invoice_ : InvoiceHistory) (mintQuote : MeltQuoteResponse)
  (proofStates : list ProofState) :
  findInvoice quote (invoiceHistory st) = Some invoice_ ->
  checkMeltQuoteAt access (inv_mint invoice_) quote = Returned mintQuote ->
  mq_state mintQuote = MELT_PAID ->
  (forall s, activateMintUrl access (inv_mint invoice_) (inv_unit invoice_) s
             = (Returned tt, s)) ->
  walletCheckProofsStates env (proofsOfQuote quote (proofs st)) = Returned proofStates ->
  let spentProofs :=
    filter (fun p => existsb (fun s => isSpent s
                                && String.eqb (ps_Y s) (hashToCurveHex env (p_secret p)))
                       proofStates) (proofsOfQuote quote (proofs st)) in
  (spentProofs <> [] -> serializeProofs env spentProofs <> None) ->
  exists st',
    checkOutgoingInvoice env access quote st = (Returned tt, st')
    /\ (forall p, In p (proofs st') <-> In p (proofs st) /\ proofIn p spentProofs = false)
    /\ invoiceHistory st'
       = updateFirstInvoice quote (withStatus paid) (invoiceHistory st)
    /\ historyTokens st'
       = historyTokens st
         ++ match spentProofs with
            | [] => []
            | _ :: _ =>
                [mkHistoryToken paid (- sumProofs spentProofs)
                   (serializeProofs env spentProofs) (activeMintUrl st) (activeUnit st)]
            end
    /\ keysetCounters st' = keysetCounters st.
Proof.
  intros Hfind Hcheck Hstate Hactive Hstates spentProofs Hser.
  unfold checkOutgoingInvoice.
  cbv beta iota delta [bind get tryCatch call].
  rewrite Hfind, Hcheck, Hstate. cbv beta iota. rewrite Hactive.
  cbv beta iota.
  set (bound := proofsOfQuote quote (proofs st)) in *.
  destruct bound as [|b0 bs] eqn:Ebound.
  - cbn. eexists. split; [reflexivity|]. cbn.
    split; [intros p; tauto|]. split; [reflexivity|].
    split; [now rewrite app_nil_r | reflexivity].
  - destruct (checkProofsSpendable_answered env (b0 :: bs) true
                (log_request (ReqCheckMeltQuote quote) st) proofStates
                ltac:(discriminate) Hstates)
      as [r [st1 [Hrun [Hreq [Hstore Hres]]]]].
    fold spentProofs in Hstore, Hres.
    rewrite Hrun.
    assert (Hframe : keysetCounters st1 = keysetCounters st
                     /\ invoiceHistory st1 = invoiceHistory st).
    { pose proof Hrun as Hrun'. unfold checkProofsSpendable in Hrun'.
      cbv beta iota delta [bind ret throw get modify tryCatch liftOutcome call
                            removeProofs addPaidToken] in Hrun'.
      rewrite Hstates in Hrun'. cbv zeta in Hrun'.
      destruct (filter _ (b0 :: bs)) as [|s0 ss] in Hrun';
        [|destruct (serializeProofs env _) in Hrun'];
        cbn in Hrun'; inversion Hrun'; split; reflexivity. }
    destruct Hframe as [Hcounters Hhistory].
    destruct spentProofs as [|s0 ss] eqn:Espent.
    + destruct Hres as [-> Htokens]. cbn - [proofIn].
      eexists. split; [reflexivity|]. cbn - [proofIn].
      split; [exact Hstore|]. split; [now rewrite Hhistory|].
      split; [now rewrite Htokens, app_nil_r | exact Hcounters].
    + destruct (serializeProofs env (s0 :: ss)) as [serialized|] eqn:Eser;
        [|exfalso; apply Hser; [discriminate | reflexivity]].
      destruct Hres as [-> Htokens].
      cbv beta iota delta [bind ret modify removeProofs setInvoicePaid].
      destruct (Nat.eqb_spec (List.length (s0 :: ss)) (List.length (b0 :: bs)))
        as [Hlen|Hlen].
      * assert (Hall : s0 :: ss = b0 :: bs).
        { rewrite <- Espent. subst spentProofs. apply filter_length_all.
          rewrite Espent. exact Hlen. }
        eexists. split; [reflexivity|]. cbn - [proofIn sumProofs].
        split; [|split; [now rewrite Hhistory|split; [exact Htokens | exact Hcounters]]].
        intros p. rewrite filter_In, negb_true_iff, Hstore, <- Hall. tauto.
      * eexists. split; [reflexivity|]. cbn - [proofIn sumProofs].
        split; [exact Hstore|]. split; [now rewrite Hhistory|].
        split; [exact Htokens | exact Hcounters].
Qed.

Lemma checkOutgoingInvoice_paid_witness :
  exists st',
    checkOutgoingInvoice (scriptedEnv settledScript) (scriptedAccess settledScript) "q1"
      pendingPaymentState
    = (Returned tt, st')
    /\ proofs st' = []
    /\ map inv_status (invoiceHistory st') = [paid]
    /\ map ht_amount (historyTokens st') = [-8].
Proof.
  destruct (checkOutgoingInvoice_paid_settles (scriptedEnv settledScript)
              (scriptedAccess settledScript) "q1" pendingPaymentState
              (mkInvoice (-8) "lnbc80n1example" "q1" "Outgoing invoice"
                 "2024-01-01 00:00:00" pending "https://mint.example"
                 (Some "sat"%string))
              (mkMeltQuoteResponse "q1" 8 0 MELT_PAID None)
              [mkProofState "s1" SPENT]
              eq_refl eq_refl eq_refl (fun s => eq_refl) eq_refl
              ltac:(discriminate))
    as [st' [Hrun [_ [Hhist [Htok _]]]]].
  exists st'. split; [exact Hrun|].
  assert (Hst : st' = snd (checkOutgoingInvoice (scriptedEnv settledScript)
                             (scriptedAccess settledScript) "q1" pendingPaymentState))
    by now rewrite Hrun.
  split; [rewrite Hst; reflexivity|].
  split; [rewrite Hhist; reflexivity | rewrite Htok; reflexivity].
Defined.

(** X26. Unless the mint says that the quote of an invoice is PAID,
    [checkInvoice] mints nothing: it asks for the quote's state once and
    leaves the proofs, the counters and the token history as they are. A
    quote that is ISSUED already has its first history entry marked paid
    and the call returns nothing; a quote that is UNPAID makes it throw and
    leaves the history too. *)
Theorem checkInvoice_mints_only_paid_quotes
  (env : Env) (access : MintAccess) (quote : string) (st : WalletState)
  (invoice_ : InvoiceHistory) (resp : MintQuoteResponse) :
  findInvoice quote (invoiceHistory st) = Some invoice_ ->
  checkMintQuoteAt access (inv_mint invoice_) quote = Returned resp ->
  mintq_state resp <> MINT_PAID ->
  exists r st',
    checkInvoice env access quote st = (r, st')
    /\ requests st' = requests st ++ [ReqCheckMintQuote quote]
    /\ proofs st' = proofs st
    /\ keysetCounters st' = keysetCounters st
    /\ historyTokens st' = historyTokens st
    /\ mutex st' = mutex st
    /\ match mintq_state resp with
       | MINT_ISSUED =>
           r = Returned None
           /\ invoiceHistory st'
              = updateFirstInvoice quote (withStatus paid) (invoiceHistory st)
       | _ =>
           r = Threw (JsError "invoice state not paid: UNPAID")
           /\ invoiceHistory st' = invoiceHistory st
       end.
Proof.
  intros Hfind Hcheck Hstate. unfold checkInvoice.
  destruct (findInvoice_quote _ _ _ Hfind) as [Hq _].
  cbv beta iota delta [bind ret throw get modify tryCatch call setInvoicePaid].
  rewrite Hfind, Hq, Hcheck.
  destruct (mintq_state resp) eqn:E; [| contradiction |];
    cbn; eexists _, _; (split; [reflexivity|]); cbn; repeat split.
Qed.

Lemma checkInvoice_issued_witness :
  exists st',
    checkInvoice (scriptedEnv issuedScript) (scriptedAccess issuedScript) "q1"
      awaitingInvoiceState
    = (Returned None, st')
    /\ proofs st' = proofs awaitingInvoiceState
    /\ map inv_status (invoiceHistory st') = [paid].
Proof.
  destruct (checkInvoice_mints_only_paid_quotes (scriptedEnv issuedScript)
              (scriptedAccess issuedScript) "q1" awaitingInvoiceState
              (mkInvoice 8 "lnbc80n1example" "q1" "" "2024-01-01 00:00:00" pending
                 "https://mint.example" (Some "sat"%string))
              (mkMintQuoteResponse "q1" "lnbc80n1example" MINT_ISSUED)
              eq_refl eq_refl ltac:(discriminate))
    as [r [st' [Hrun [_ [Hp [_ [_ [_ [-> Hhist]]]]]]]]].
  exists st'. split; [exact Hrun|]. split; [exact Hp|].
  rewrite Hhist. reflexivity.
Defined.

(** ** Pending tokens *)

Lemma pendingLoop_firstn (l : list HistoryToken) :
  forall i : nat, (i <= 5)%nat ->
  pendingLoop i l = firstn (5 - i) (map tokenOf (filter pendingOutgoing l)).
Proof.
  induction l as [|t l IH]; intros i Hi.
  - cbn. now rewrite firstn_nil.
  - cbn [pendingLoop filter].
    destruct (Nat.leb_spec 5 i) as [H5|H5].
    + replace (5 - i)%nat with 0%nat by lia. reflexivity.
    + destruct (pendingOutgoing t).
      * cbn [map]. replace (5 - i)%nat with (S (5 - S i)) by lia.
        cbn [firstn]. f_equal. apply IH. lia.
      * apply IH. lia.
Qed.

Lemma In_firstn_In {A : Type} (n : nat) (l : list A) (x : A) :
  In x (firstn n l) -> In x l.
Proof.
  revert l. induction n as [|n IH]; intros [|a l]; cbn; try tauto.
  intros [H|H]; [now left | right; now apply IH].
Qed.

(** X27. [checkPendingTokens] starts a check for the newest five pending
    outgoing tokens of the history that carry a token string, newest
    first, and for no other: entries that are paid, incoming or without
    token are passed over without counting. *)
Theorem checkPendingTokens_newest_five (st : WalletState) :
  checkPendingTokens st
  = firstn 5 (map tokenOf (filter pendingOutgoing (rev (historyTokens st))))
  /\ (List.length (checkPendingTokens st) <= 5)%nat
  /\ forall tok, In tok (checkPendingTokens st) ->
       exists t, In t (historyTokens st)
                 /\ ht_token t = Some tok /\ ht_amount t < 0
                 /\ ht_status t = pending.
Proof.
  assert (H : checkPendingTokens st
              = firstn 5 (map tokenOf (filter pendingOutgoing (rev (historyTokens st))))).
  { unfold checkPendingTokens. now rewrite pendingLoop_firstn by lia. }
  split; [exact H|]. split.
  - rewrite H. apply firstn_le_length.
  - intros tok Hin. rewrite H in Hin. apply In_firstn_In in Hin.
    apply in_map_iff in Hin. destruct Hin as [t [Htok Hin]].
    apply filter_In in Hin. destruct Hin as [Hin Hp].
    exists t. split; [now apply in_rev|].
    unfold pendingOutgoing in Hp. unfold tokenOf in Htok.
    destruct (ht_status t); [|discriminate].
    destruct (ht_token t) as [tok'|]; [|rewrite andb_false_r in Hp; discriminate].
    cbn [andb] in Hp.
    apply andb_prop in Hp. destruct Hp as [Hp _]. cbn in Hp.
    apply Z.ltb_lt in Hp. subst tok'. repeat split; assumption.
Qed.

(** ** Decoding a request *)

Lemma toLowerCase_app (a b : string) :
  Str.toLowerCase (a ++ b) = (Str.toLowerCase a ++ Str.toLowerCase b)%string.
Proof. induction a as [|c a IH]; cbn; [reflexivity | now rewrite IH]. Qed.

Lemma toLowerCase_length (a : string) :
  String.length (Str.toLowerCase a) = String.length a.
Proof. induction a as [|c a IH]; cbn; [reflexivity | now rewrite IH]. Qed.

Lemma drop_app (a b : string) : Text.drop (String.length a) (a ++ b) = b.
Proof. induction a as [|c a IH]; cbn; [now destruct b | exact IH]. Qed.

Lemma prefix_app (p s : string) : String.prefix p (p ++ s) = true.
Proof.
  induction p as [|c p IH]; cbn; [now destruct s|].
  destruct (Ascii.ascii_dec c c) as [_|Hne]; [exact IH | contradiction].
Qed.

Lemma prefix_split (p s : string) :
  String.prefix p s = true -> exists r, s = (p ++ r)%string.
Proof.
  revert s. induction p as [|c p IH]; intros s H.
  - exists s. reflexivity.
  - destruct s as [|d s]; [discriminate|]. cbn in H.
    destruct (Ascii.ascii_dec c d) as [->|Hne]; [|discriminate].
    destruct (IH s H) as [r ->]. exists r. reflexivity.
Qed.

Lemma prefix_app_cancel (p a b : string) :
  String.prefix (p ++ a) (p ++ b) = String.prefix a b.
Proof.
  induction p as [|c p IH]; cbn; [reflexivity|].
  destruct (Ascii.ascii_dec c c) as [_|Hne]; [exact IH | contradiction].
Qed.

Lemma includes_here (needle s : string) :
  String.prefix needle s = true -> Str.includes needle s = true.
Proof. intros H. destruct s; cbn in *; rewrite H; reflexivity. Qed.

Lemma includes_later (needle : string) (c : ascii) (s : string) :
  Str.includes needle s = true -> Str.includes needle (String c s) = true.
Proof. intros H. cbn [Str.includes]. rewrite H. apply orb_true_r. Qed.

Lemma prefix_shorter (a b s : string) :
  String.prefix (a ++ b) s = true -> String.prefix a s = true.
Proof.
  revert s. induction a as [|c a IH]; intros s H; [now destruct s|].
  destruct s as [|d s]; [discriminate|]. cbn in *.
  destruct (Ascii.ascii_dec c d); [now apply IH | discriminate].
Qed.

Lemma includes_shorter (a b s : string) :
  Str.includes (a ++ b) s = true -> Str.includes a s = true.
Proof.
  induction s as [|c s IH]; cbn [Str.includes]; intros H.
  - rewrite orb_false_r in *. now apply prefix_shorter with b.
  - apply orb_prop in H. destruct H as [H|H].
    + now rewrite (prefix_shorter _ _ _ H).
    + rewrite (IH H). apply orb_true_r.
Qed.

(** [s.split(sep)] has a second piece when [s] includes [sep]. *)
Lemma splitGo_second (sep s : string) :
  sep <> EmptyString ->
  forall cur, Str.includes sep s = true ->
  exists a b l, Str.splitGo sep s 0 cur = a :: b :: l.
Proof.
  intros Hsep. induction s as [|c s IH]; intros cur H.
  - cbn in H. rewrite orb_false_r in H. destruct sep; [contradiction | discriminate].
  - cbn [Str.splitGo]. cbn [Str.includes] in H.
    destruct (String.prefix sep (String c s)) eqn:E.
    + destruct (Str.splitGo sep s (String.length sep - 1) "") as [|b l] eqn:Eg.
      * exfalso. exact (splitGo_nonempty _ _ _ _ Eg).
      * exists cur, b, l. reflexivity.
    + cbn [orb] in H. exact (IH _ H).
Qed.

Lemma untilAmpersand_prefix (s : string) :
  String.prefix (Text.untilAmpersand s) s = true.
Proof.
  induction s as [|c s IH]; [reflexivity|]. cbn.
  destruct (Ascii.eqb c "&"); [reflexivity|]. cbn.
  destruct (Ascii.ascii_dec c c) as [_|Hne]; [exact IH | contradiction].
Qed.

Lemma untilAmpersand_clean (s : string) :
  Str.includes "&" (Text.untilAmpersand s) = false.
Proof.
  induction s as [|c s IH]; [reflexivity|]. cbn [Text.untilAmpersand].
  destruct (Ascii.eqb_spec c "&") as [->|Hne]; [reflexivity|].
  cbn [Str.includes String.prefix]. rewrite IH.
  destruct (Ascii.ascii_dec "&" c) as [<-|_]; [contradiction | reflexivity].
Qed.

Lemma afterPrefix_split (p s rest : string) :
  Text.afterPrefix p s = Some rest -> s = (p ++ rest)%string.
Proof.
  revert s. induction p as [|c p IH]; intros s H; cbn in H.
  - now inversion H.
  - destruct s as [|d s]; [discriminate|].
    destruct (Ascii.eqb_spec c d) as [->|Hne]; [|discriminate].
    cbn. f_equal. now apply IH.
Qed.

Lemma afterPrefix_none (p s : string) :
  Text.afterPrefix p s = None -> String.prefix p s = false.
Proof.
  revert s. induction p as [|c p IH]; intros s H; cbn in H; [discriminate|].
  destruct s as [|d s]; [reflexivity|]. cbn.
  destruct (Ascii.eqb_spec c d) as [->|Hne].
  - destruct (Ascii.ascii_dec d d) as [_|Hne]; [now apply IH | contradiction].
  - destruct (Ascii.ascii_dec c d) as [->|_]; [contradiction | reflexivity].
Qed.

(** What the pattern [lightning=([^&]+)] captures, and when it fails. *)
Lemma matchLightningParam_spec (s : string) :
  match Text.matchLightningParam s with
  | Some capture =>
      capture <> EmptyString
      /\ Str.includes "&" capture = false
      /\ Str.includes ("lightning=" ++ capture) s = true
  | None =>
      forall x : ascii, x <> "&"%char ->
        Str.includes ("lightning=" ++ String x "") s = false
  end.
Proof.
  induction s as [|c s IH].
  - cbn. intros x _. reflexivity.
  - cbn [Text.matchLightningParam].
    destruct (Text.afterPrefix "lightning=" (String c s)) as [rest|] eqn:Eafter.
    + pose proof (afterPrefix_split _ _ _ Eafter) as Hs.
      destruct (Text.untilAmpersand rest) as [|u us] eqn:Euntil.
      * destruct (Text.matchLightningParam s) as [capture|].
        -- destruct IH as (H1 & H2 & H3). repeat split; try assumption.
           now apply includes_later.
        -- intros x Hx. cbn [Str.includes]. rewrite (IH x Hx), orb_false_r.
           rewrite Hs. rewrite prefix_app_cancel.
           destruct rest as [|r rest]; [reflexivity|].
           cbn in Euntil. destruct (Ascii.eqb_spec r "&") as [->|Hr]; [|discriminate].
           cbn. destruct (Ascii.ascii_dec x "&"); [contradiction | reflexivity].
      * split; [discriminate|]. rewrite <- Euntil.
        split; [apply untilAmpersand_clean|].
        apply includes_here. rewrite Hs. rewrite prefix_app_cancel.
        apply untilAmpersand_prefix.
    + apply afterPrefix_none in Eafter.
      destruct (Text.matchLightningParam s) as [capture|].
      * destruct IH as (H1 & H2 & H3). repeat split; try assumption.
        now apply includes_later.
      * intros x Hx. cbn [Str.includes]. rewrite (IH x Hx), orb_false_r.
        destruct (String.prefix ("lightning=" ++ String x "") (String c s)) eqn:E;
          [|reflexivity].
        apply prefix_shorter in E. congruence.
Qed.

Lemma matchesAddress_later (c : ascii) (s : string) :
  Text.matchesAddress s = true -> Text.matchesAddress (String c s) = true.
Proof.
  intros H. destruct s as [|a [|b s]]; try discriminate.
  change (Text.matchesAddress (String c (String a (String b s))))
    with ((Text.inAddressClass c && Ascii.eqb a "@" && Text.inAddressClass b)
          || Text.matchesAddress (String a (String b s))).
  rewrite H. apply orb_true_r.
Qed.

Lemma matchesAddress_found (a : string) (x y : ascii) (b : string) :
  Text.inAddressClass x = true -> Text.inAddressClass y = true ->
  Text.matchesAddress (a ++ String x (String "@" (String y b))) = true.
Proof.
  intros Hx Hy. induction a as [|c a IH].
  - cbn [append Text.matchesAddress]. rewrite Hx, Hy. reflexivity.
  - cbn [append]. apply matchesAddress_later. exact IH.
Qed.

(** X28. The schemes [lightning:] and [lnurl:] are recognised in any
    letter case and stripped: whatever follows goes unchanged to the
    BOLT-11 handler, respectively to [lnurlPayFirst]. *)
Theorem scheme_prefix_stripped_in_any_case
  (isValidPubkey : string -> bool) (scheme rest : string) :
  (Str.toLowerCase scheme = "lightning:"%string ->
   routeRequest isValidPubkey (scheme ++ rest) = RouteBolt11 rest)
  /\ (Str.toLowerCase scheme = "lnurl:"%string ->
      routeRequest isValidPubkey (scheme ++ rest) = RouteLnurlPay rest).
Proof.
  split; intros H.
  - unfold routeRequest, Str.startsWith. rewrite toLowerCase_app, H.
    assert (H1 : String.prefix "lnbc" ("lightning:" ++ Str.toLowerCase rest) = false)
      by reflexivity.
    rewrite H1, (prefix_app "lightning:"). cbv beta iota.
    replace 10%nat with (String.length scheme)
      by (rewrite <- toLowerCase_length, H; reflexivity).
    now rewrite drop_app.
  - unfold routeRequest, Str.startsWith. rewrite toLowerCase_app, H.
    assert (H1 : String.prefix "lnbc" ("lnurl:" ++ Str.toLowerCase rest) = false)
      by reflexivity.
    assert (H2 : String.prefix "lightning:" ("lnurl:" ++ Str.toLowerCase rest) = false)
      by reflexivity.
    assert (Hb : String.prefix "bitcoin:" (scheme ++ rest) = false).
    { destruct scheme as [|c scheme]; [discriminate|].
      cbn in H. injection H as Hc _. cbn [append String.prefix].
      destruct (Ascii.ascii_dec "b" c) as [<-|_]; [discriminate | reflexivity]. }
    rewrite H1, H2, Hb, (prefix_app "lnurl:"). cbv beta iota.
    replace 6%nat with (String.length scheme)
      by (rewrite <- toLowerCase_length, H; reflexivity).
    now rewrite drop_app.
Qed.

(** X29. A request that starts with [bitcoin:] goes to the BOLT-11
    handler or nowhere, never to the LNURL, token, P2PK or mint handlers.
    What is handed over is the text after the first [lightning=] that is
    followed by something, up to the next [&]: not empty and free of [&].
    Nothing is handed over only when no [lightning=] is followed by a
    character other than [&]. *)
Theorem bitcoin_uri_goes_to_bolt11_or_nowhere
  (isValidPubkey : string -> bool) (req : string) :
  Str.startsWith "bitcoin:" req = true ->
  match routeRequest isValidPubkey req with
  | RouteBolt11 lightningInvoice =>
      lightningInvoice <> EmptyString
      /\ Str.includes "&" lightningInvoice = false
      /\ Str.includes ("lightning=" ++ lightningInvoice) req = true
  | RouteNone =>
      forall x : ascii, x <> "&"%char ->
        Str.includes ("lightning=" ++ String x "") req = false
  | _ => False
  end.
Proof.
  intros H. unfold Str.startsWith in H.
  destruct (prefix_split _ _ H) as [r ->].
  unfold routeRequest, Str.startsWith. rewrite toLowerCase_app.
  assert (H1 : String.prefix "lnbc" (Str.toLowerCase "bitcoin:" ++ Str.toLowerCase r)
               = false) by reflexivity.
  assert (H2 : String.prefix "lightning:"
                 (Str.toLowerCase "bitcoin:" ++ Str.toLowerCase r) = false)
    by reflexivity.
  rewrite H1, H2, H. cbv beta iota.
  pose proof (matchLightningParam_spec ("bitcoin:" ++ r)) as Hspec.
  destruct (Text.matchLightningParam ("bitcoin:" ++ r)); exact Hspec.
Qed.

Lemma bitcoin_uri_witness :
  match routeRequest (fun _ => false)
          "bitcoin:bc1qexample?amount=1&lightning=lnurl1dp68gup69uhk&label=x" with
  | RouteBolt11 lightningInvoice =>
      lightningInvoice <> EmptyString
      /\ Str.includes "&" lightningInvoice = false
      /\ Str.includes ("lightning=" ++ lightningInvoice)
           "bitcoin:bc1qexample?amount=1&lightning=lnurl1dp68gup69uhk&label=x" = true
  | RouteNone =>
      forall x : ascii, x <> "&"%char ->
        Str.includes ("lightning=" ++ String x "")
          "bitcoin:bc1qexample?amount=1&lightning=lnurl1dp68gup69uhk&label=x" = false
  | _ => False
  end.
Proof.
  apply (bitcoin_uri_goes_to_bolt11_or_nowhere (fun _ => false)
           "bitcoin:bc1qexample?amount=1&lightning=lnurl1dp68gup69uhk&label=x").
  reflexivity.
Defined.

(** X30. The lightning-address pattern of [decodeRequest] accepts any
    request in which [@] stands between two characters from [+] to [~]
    (its class [[\w.+-~_]] holds the range [+-~]). Such a request never
    reaches the handlers for tokens, P2PK keys, mint URLs or payment
    requests, whatever it starts with: it is taken as a BOLT-11 invoice or
    an LNURL, or, starting with [bitcoin:], dropped. *)
Theorem address_pattern_shadows_later_handlers
  (isValidPubkey : string -> bool) (before after : string) (x y : ascii) :
  Text.inAddressClass x = true -> Text.inAddressClass y = true ->
  let req := (before ++ String x (String "@" (String y after)))%string in
  match routeRequest isValidPubkey req with
  | RouteBolt11 _ | RouteLnurlPay _ => True
  | RouteNone => Str.startsWith "bitcoin:" req = true
  | _ => False
  end.
Proof.
  intros Hx Hy req.
  pose proof (matchesAddress_found before x y after Hx Hy) as Haddr.
  fold req in Haddr. clearbody req. unfold routeRequest.
  destruct (Str.startsWith "lnbc" (Str.toLowerCase req)); [exact I|].
  destruct (Str.startsWith "lightning:" (Str.toLowerCase req)); [exact I|].
  destruct (Str.startsWith "bitcoin:" req) eqn:Eb.
  { destruct (Text.matchLightningParam req); [exact I | reflexivity]. }
  destruct (Str.startsWith "lnurl:" (Str.toLowerCase req)); [exact I|].
  destruct (Str.includes "lightning=lnurl1" req) eqn:Ei.
  { apply (includes_shorter "lightning=" "lnurl1") in Ei.
    destruct (splitGo_second "lightning=" req ltac:(discriminate) "" Ei)
      as [a [b [l Hsplit]]].
    unfold Str.split. rewrite Hsplit. exact I. }
  rewrite Haddr, orb_true_r. exact I.
Qed.

Lemma address_pattern_witness :
  routeRequest (fun _ => true) "https://user@mint.example"
  = RouteLnurlPay "https://user@mint.example".
Proof.
  pose proof (address_pattern_shadows_later_handlers (fun _ => true)
                "https://use" "mint.example" "r" "m" eq_refl eq_refl) as H.
  cbv zeta in H.
  destruct (routeRequest (fun _ => true)
              ("https://use" ++ String "r" (String "@" (String "m" "mint.example"))))
    eqn:E; try contradiction; try discriminate; vm_compute in E; try discriminate E.
  reflexivity.
Defined.
